(** * The operation gateway of the studio's Gemini service

    A shallow embedding of [services/geminiService.ts]: the auth-retry
    gateway [runWithAuthRetry], the payload extraction shared by the image
    operations, and the call sites [generateImage], [editImage] and
    [generateVideo].

    Asynchronous code is embedded in a state-and-log monad over an abstract
    [World] (backend, credential store, user).  A computation ends with a
    returned value, a thrown value, or stays pending (a promise that never
    settles), and reports the events it performed, in order.

    Strings are byte strings (UTF-8).  The characters the code searches for
    are ASCII, and an ASCII byte never occurs inside a multi-byte sequence,
    so the fragments cut out by index are the same text as in the UTF-16
    strings of the host. *)

From Stdlib Require Import String Ascii List ZArith Bool Lia DecimalString.
Import ListNotations.
Open Scope string_scope.

(* ================================================================== *)
(** ** String.prototype: the methods the service uses *)

Module JsString.

(** [s.includes(sub)] *)
Fixpoint includes (s sub : string) : bool :=
  if String.prefix sub s then true
  else match s with
       | EmptyString => false
       | String _ s' => includes s' sub
       end.

(** [s.indexOf(c)] for a one-character [c]; [-1] when absent. *)
Fixpoint indexOf (s : string) (c : ascii) : Z :=
  match s with
  | EmptyString => (-1)%Z
  | String a s' =>
      if Ascii.eqb a c then 0%Z
      else let i := indexOf s' c in
           if (i =? -1)%Z then (-1)%Z else (i + 1)%Z
  end.

(** [s.lastIndexOf(c)] for a one-character [c]; [-1] when absent. *)
Fixpoint lastIndexOf (s : string) (c : ascii) : Z :=
  match s with
  | EmptyString => (-1)%Z
  | String a s' =>
      let i := lastIndexOf s' c in
      if (i =? -1)%Z then (if Ascii.eqb a c then 0%Z else (-1)%Z)
      else (i + 1)%Z
  end.

(** [s.substring(a, b)]: both indices are clamped to [0 .. length] and
    swapped when [a > b]. *)
Definition substring (s : string) (a b : Z) : string :=
  let len := Z.of_nat (String.length s) in
  let a' := Z.min (Z.max a 0) len in
  let b' := Z.min (Z.max b 0) len in
  let lo := Z.min a' b' in
  let hi := Z.max a' b' in
  String.substring (Z.to_nat lo) (Z.to_nat (hi - lo)) s.

(** [s.split(',')] *)
Fixpoint split_rev (s : string) (cur : string) (c : ascii) : list string :=
  match s with
  | EmptyString => [cur]
  | String a s' =>
      if Ascii.eqb a c then cur :: split_rev s' EmptyString c
      else split_rev s' (cur ++ String a EmptyString) c
  end.

Definition split (s : string) (c : ascii) : list string :=
  split_rev s EmptyString c.

(** Truthiness of a string: non-empty. *)
Definition truthy (s : string) : bool :=
  match s with EmptyString => false | _ => true end.

(** [a || b] on strings. *)
Definition or_else (a b : string) : string := if truthy a then a else b.

(** [a || b] where [a] may be [undefined]. *)
Definition opt_or_else (a : option string) (b : string) : string :=
  match a with
  | Some s => or_else s b
  | None => b
  end.

(** The propositional reading of [includes]. *)
Definition Contains (s sub : string) : Prop :=
  exists pre post, s = pre ++ sub ++ post.

End JsString.

(* ================================================================== *)
(** ** JSON values and [JSON.parse]

    [JSON.parse] is a host built-in; it is embedded here after the JSON
    grammar of ECMA-404.  A number literal is kept as the decimal
    [m * 10^e] it denotes.  The host holds the binary64 nearest to it, so
    whatever the service observes of a number (a comparison, its
    truthiness, its conversion to a string) is computed below from that
    binary64 and not from the decimal. *)

Module Json.

#[local] Unset Elimination Schemes.

Inductive json : Type :=
| JNull
| JBool (b : bool)
| JNumber (m e : Z)
| JString (s : string)
| JArray (items : list json)
| JObject (fields : list (string * json)).

#[local] Set Elimination Schemes.

Definition dquote : ascii := "034"%char.
Definition backslash : ascii := "092"%char.

Definition is_ws (c : ascii) : bool :=
  Ascii.eqb c " "%char || Ascii.eqb c "009"%char
  || Ascii.eqb c "010"%char || Ascii.eqb c "013"%char.

Fixpoint skip_ws (s : string) : string :=
  match s with
  | String c r => if is_ws c then skip_ws r else s
  | EmptyString => s
  end.

(** *** String literals *)

Definition hex_digit (c : ascii) : option N :=
  let n := N_of_ascii c in
  if ((48 <=? n) && (n <=? 57))%N then Some (n - 48)%N
  else if ((65 <=? n) && (n <=? 70))%N then Some (n - 55)%N
  else if ((97 <=? n) && (n <=? 102))%N then Some (n - 87)%N
  else None.

Definition hex4 (a b c d : ascii) : option N :=
  match hex_digit a, hex_digit b, hex_digit c, hex_digit d with
  | Some x, Some y, Some z, Some w =>
      Some (((x * 16 + y) * 16 + z) * 16 + w)%N
  | _, _, _, _ => None
  end.

Definition simple_escape (c : ascii) : option ascii :=
  if Ascii.eqb c dquote then Some dquote
  else if Ascii.eqb c backslash then Some backslash
  else if Ascii.eqb c "/"%char then Some "/"%char
  else if Ascii.eqb c "b"%char then Some "008"%char
  else if Ascii.eqb c "f"%char then Some "012"%char
  else if Ascii.eqb c "n"%char then Some "010"%char
  else if Ascii.eqb c "r"%char then Some "013"%char
  else if Ascii.eqb c "t"%char then Some "009"%char
  else None.

(** A string literal is read as raw bytes and escaped UTF-16 units. *)
Fixpoint parse_chars (s : string) (acc : list (ascii + N))
  : option (list (ascii + N) * string) :=
  match s with
  | EmptyString => None
  | String c r =>
      if Ascii.eqb c dquote then Some (rev acc, r)
      else if Ascii.eqb c backslash then
        match r with
        | EmptyString => None
        | String e r1 =>
            match simple_escape e with
            | Some b => parse_chars r1 (inl b :: acc)
            | None =>
                if Ascii.eqb e "u"%char then
                  match r1 with
                  | String h1 (String h2 (String h3 (String h4 r2))) =>
                      match hex4 h1 h2 h3 h4 with
                      | Some u => parse_chars r2 (inr u :: acc)
                      | None => None
                      end
                  | _ => None
                  end
                else None
            end
        end
      else if (N_of_ascii c <? 32)%N then None
      else parse_chars r (inl c :: acc)
  end.

Definition utf8 (cp : N) : list ascii :=
  if (cp <? 128)%N then [ascii_of_N cp]
  else if (cp <? 2048)%N then
    [ascii_of_N (192 + cp / 64); ascii_of_N (128 + cp mod 64)]
  else if (cp <? 65536)%N then
    [ascii_of_N (224 + cp / 4096); ascii_of_N (128 + (cp / 64) mod 64);
     ascii_of_N (128 + cp mod 64)]
  else
    [ascii_of_N (240 + cp / 262144); ascii_of_N (128 + (cp / 4096) mod 64);
     ascii_of_N (128 + (cp / 64) mod 64); ascii_of_N (128 + cp mod 64)].

Definition is_high (u : N) : bool := ((55296 <=? u) && (u <=? 56319))%N.
Definition is_low (u : N) : bool := ((56320 <=? u) && (u <=? 57343))%N.

(** Escaped surrogate pairs are joined into one code point. *)
Fixpoint encode_items (l : list (ascii + N)) : list ascii :=
  match l with
  | [] => []
  | inl b :: r => b :: encode_items r
  | inr u :: r =>
      match r with
      | inr v :: r' =>
          if is_high u && is_low v
          then utf8 (65536 + (u - 55296) * 1024 + (v - 56320))%N
                 ++ encode_items r'
          else utf8 u ++ encode_items r
      | _ => utf8 u ++ encode_items r
      end
  end.

Definition parse_string (s : string) : option (string * string) :=
  match parse_chars s [] with
  | Some (items, r) => Some (string_of_list_ascii (encode_items items), r)
  | None => None
  end.

(** *** Number literals *)

Definition is_digit (c : ascii) : bool :=
  let n := N_of_ascii c in ((48 <=? n) && (n <=? 57))%N.

Definition digit_value (c : ascii) : Z := Z.of_N (N_of_ascii c) - 48.

Fixpoint take_digits (s : string) : list ascii * string :=
  match s with
  | String c r =>
      if is_digit c
      then let '(ds, r') := take_digits r in (c :: ds, r')
      else ([], s)
  | EmptyString => ([], s)
  end.

Definition digits_value (ds : list ascii) : Z :=
  fold_left (fun acc c => acc * 10 + digit_value c)%Z ds 0%Z.

(** int part: a single 0, or a non-zero digit followed by digits *)
Definition parse_int_part (s : string) : option (list ascii * string) :=
  match s with
  | String c r =>
      if Ascii.eqb c "0"%char then Some ([c], r)
      else if is_digit c then Some (take_digits s)
      else None
  | EmptyString => None
  end.

Definition parse_frac (s : string) : option (list ascii * string) :=
  match s with
  | String c r =>
      if Ascii.eqb c "."%char then
        match take_digits r with
        | ([], _) => None
        | (ds, r') => Some (ds, r')
        end
      else Some ([], s)
  | EmptyString => Some ([], s)
  end.

Definition parse_exp (s : string) : option (Z * string) :=
  match s with
  | String c r =>
      if Ascii.eqb c "e"%char || Ascii.eqb c "E"%char then
        let '(neg, r1) :=
          match r with
          | String sg r' =>
              if Ascii.eqb sg "-"%char then (true, r')
              else if Ascii.eqb sg "+"%char then (false, r')
              else (false, r)
          | EmptyString => (false, r)
          end in
        match take_digits r1 with
        | ([], _) => None
        | (ds, r2) =>
            Some ((if neg then - digits_value ds else digits_value ds)%Z, r2)
        end
      else Some (0%Z, s)
  | EmptyString => Some (0%Z, s)
  end.

Definition parse_number (s : string) : option (json * string) :=
  let '(neg, s1) :=
    match s with
    | String c r => if Ascii.eqb c "-"%char then (true, r) else (false, s)
    | EmptyString => (false, s)
    end in
  match parse_int_part s1 with
  | None => None
  | Some (ip, s2) =>
      match parse_frac s2 with
      | None => None
      | Some (fp, s3) =>
          match parse_exp s3 with
          | None => None
          | Some (ex, s4) =>
              let m := digits_value (ip ++ fp) in
              Some (JNumber (if neg then - m else m)
                            (ex - Z.of_nat (List.length fp)), s4)
          end
      end
  end.

(** *** Values *)

Definition drop (n : nat) (s : string) : string :=
  String.substring n (String.length s - n) s.

Definition parse_literal (s : string) : option (json * string) :=
  if String.prefix "true" s then Some (JBool true, drop 4 s)
  else if String.prefix "false" s then Some (JBool false, drop 5 s)
  else if String.prefix "null" s then Some (JNull, drop 4 s)
  else None.

Fixpoint parse_value (fuel : nat) (s : string) {struct fuel}
  : option (json * string) :=
  match fuel with
  | O => None
  | S f =>
      match skip_ws s with
      | EmptyString => None
      | String c r =>
          if Ascii.eqb c "{"%char then
            match skip_ws r with
            | String c' r' =>
                if Ascii.eqb c' "}"%char then Some (JObject [], r')
                else parse_members f (String c' r') []
            | EmptyString => None
            end
          else if Ascii.eqb c "["%char then
            match skip_ws r with
            | String c' r' =>
                if Ascii.eqb c' "]"%char then Some (JArray [], r')
                else parse_elements f (String c' r') []
            | EmptyString => None
            end
          else if Ascii.eqb c dquote then
            match parse_string r with
            | Some (str, r') => Some (JString str, r')
            | None => None
            end
          else if Ascii.eqb c "-"%char || is_digit c then
            parse_number (String c r)
          else parse_literal (String c r)
      end
  end

with parse_elements (fuel : nat) (s : string) (acc : list json)
       {struct fuel} : option (json * string) :=
  match fuel with
  | O => None
  | S f =>
      match parse_value f s with
      | None => None
      | Some (v, r) =>
          match skip_ws r with
          | String c r' =>
              if Ascii.eqb c ","%char then parse_elements f r' (v :: acc)
              else if Ascii.eqb c "]"%char
              then Some (JArray (rev (v :: acc)), r')
              else None
          | EmptyString => None
          end
      end
  end

with parse_members (fuel : nat) (s : string) (acc : list (string * json))
       {struct fuel} : option (json * string) :=
  match fuel with
  | O => None
  | S f =>
      match skip_ws s with
      | String q r =>
          if Ascii.eqb q dquote then
            match parse_string r with
            | None => None
            | Some (k, r1) =>
                match skip_ws r1 with
                | String c r2 =>
                    if Ascii.eqb c ":"%char then
                      match parse_value f r2 with
                      | None => None
                      | Some (v, r3) =>
                          match skip_ws r3 with
                          | String d r4 =>
                              if Ascii.eqb d ","%char
                              then parse_members f r4 ((k, v) :: acc)
                              else if Ascii.eqb d "}"%char
                              then Some (JObject (rev ((k, v) :: acc)), r4)
                              else None
                          | EmptyString => None
                          end
                      end
                    else None
                | EmptyString => None
                end
            end
          else None
      | EmptyString => None
      end
  end.

(** [JSON.parse(text)]; [None] stands for the [SyntaxError] it throws.
    Every call on the way down consumes at least one character for every
    two units of fuel, so the fuel below is never the reason for [None]. *)
Definition JSON_parse (text : string) : option json :=
  match parse_value (2 * String.length text + 2) text with
  | Some (v, r) =>
      match skip_ws r with
      | EmptyString => Some v
      | String _ _ => None
      end
  | None => None
  end.

(** Fuel that suffices to read the part of [s] that precedes [r]. *)
Definition enough (s r : string) : nat :=
  2 * (String.length s - String.length r) + 1.

(** Test strings are written with single quotes for the double quotes of
    the JSON text. *)
Fixpoint js (s : string) : string :=
  match s with
  | EmptyString => EmptyString
  | String c r => String (if Ascii.eqb c "'"%char then dquote else c) (js r)
  end.

(** *** Reading JSON values the way the service does

    A property read yields [None] for [undefined].  [get] is used on
    values that are neither [null] nor [undefined]; the keys read by the
    service ([error], [code], [status], [message]) exist on no prototype,
    so only the own properties of an object answer.  When a key occurs
    twice in the text the last occurrence wins. *)

Fixpoint lookup (k : string) (fields : list (string * json)) : option json :=
  match fields with
  | [] => None
  | (k', v) :: rest =>
      match lookup k rest with
      | Some v' => Some v'
      | None => if String.eqb k' k then Some v else None
      end
  end.

Definition get (k : string) (v : json) : option json :=
  match v with
  | JObject fields => lookup k fields
  | _ => None
  end.

(** *** Numbers as the host holds them

    The magnitude of a binary64: zero, [M * 2^E] with
    [2^52 <= M < 2^53] and [-1074 <= E <= 971] (or [M < 2^52] and
    [E = -1074] for a subnormal), or infinity.  The sign is kept apart. *)
Inductive float : Type :=
| Zero
| Finite (M E : Z)
| Infinity.

Definition float_eqb (x y : float) : bool :=
  match x, y with
  | Zero, Zero => true
  | Finite M E, Finite M' E' => ((M =? M') && (E =? E'))%Z
  | Infinity, Infinity => true
  | _, _ => false
  end.

(** The binary64 nearest to the ratio [p / q] of two positive integers,
    ties to the even significand. *)
Definition round_ratio (p q : Z) : float :=
  (let d := Z.log2 p - Z.log2 q in
   let above := if 0 <=? d then q * 2 ^ d <=? p else q <=? p * 2 ^ (- d) in
   let L := if above then d else d - 1 in
   let E := Z.max (L - 52) (-1074) in
   let num := if 0 <=? E then p else p * 2 ^ (- E) in
   let den := if 0 <=? E then q * 2 ^ E else q in
   let k := num / den in
   let r := num mod den in
   let M := if 2 * r <? den then k
            else if den <? 2 * r then k + 1
            else if Z.even k then k else k + 1 in
   if M =? 0 then Zero
   else
     let '(M', E') := if M =? 2 ^ 53 then (2 ^ 52, E + 1) else (M, E) in
     if 971 <? E' then Infinity else Finite M' E')%Z.

(** The binary64 nearest to [a * 10^e], for a positive [a]. *)
Definition round_decimal (a e : Z) : float :=
  if (0 <=? e)%Z then round_ratio (a * 10 ^ e) 1
  else round_ratio a (10 ^ (- e)).

(** The magnitude of the number that the literal [m * 10^e] denotes in
    the host. *)
Definition magnitude (m e : Z) : float :=
  if (m =? 0)%Z then Zero else round_decimal (Z.abs m) e.

(** [===] on the numbers of two literals; the two zeros are equal. *)
Definition number_eqb (m e m' e' : Z) : bool :=
  match magnitude m e, magnitude m' e' with
  | Zero, Zero => true
  | x, y => float_eqb x y && (Z.sgn m =? Z.sgn m')%Z
  end.

(** Truthiness of a JSON value that may be [undefined]; a number is
    falsy when it is a zero, which includes a literal that underflows. *)
Definition truthy (v : option json) : bool :=
  match v with
  | None => false
  | Some JNull => false
  | Some (JBool b) => b
  | Some (JNumber m e) => negb (float_eqb (magnitude m e) Zero)
  | Some (JString s) => JsString.truthy s
  | Some (JArray _) => true
  | Some (JObject _) => true
  end.

(** [v === n] for an integer constant [n]. *)
Definition is_number (v : option json) (n : Z) : bool :=
  match v with
  | Some (JNumber m e) => number_eqb m e n 0
  | _ => false
  end.

(** [v === s] for a string constant [s]. *)
Definition is_string (v : option json) (s : string) : bool :=
  match v with
  | Some (JString s') => String.eqb s' s
  | _ => false
  end.

(** [v.includes(p)] on a truthy value: the method exists on strings
    (substring test) and on arrays (membership); on any other value the
    property read gives a non-function and the call throws a [TypeError],
    rendered as [None]. *)
Definition includes (v : json) (p : string) : option bool :=
  match v with
  | JString s => Some (JsString.includes s p)
  | JArray items =>
      Some (existsb (fun x => is_string (Some x) p) items)
  | _ => None
  end.

(** *** [String(v)] *)

Definition digits_of (n : Z) : string :=
  NilZero.string_of_int (Z.to_int n).

Fixpoint zeros (n : nat) : string :=
  match n with
  | O => EmptyString
  | S n' => String "0"%char (zeros n')
  end.

Fixpoint leading_zeros (l : list ascii) : nat :=
  match l with
  | c :: r => if Ascii.eqb c "0"%char then S (leading_zeros r) else O
  | [] => O
  end.

(** The number of decimal digits of a positive integer. *)
Definition ndigits (n : Z) : Z := Z.of_nat (String.length (digits_of n)).

(** The decimals with [k] digits next to [M * 2^E], below and above it,
    where [n0] is the position of its decimal point
    ([10^(n0-1) <= M * 2^E < 10^n0]): the one that reads back as the same
    binary64, the nearer one when both do, the even one on a tie. *)
Definition shortest_at (M E n0 k : Z) : option Z :=
  (let p := if 0 <=? E then M * 2 ^ E else M in
   let q := if 0 <=? E then 1 else 2 ^ (- E) in
   let sc := n0 - k in
   let num := if 0 <=? sc then p else p * 10 ^ (- sc) in
   let den := if 0 <=? sc then q * 10 ^ sc else q in
   let lo := num / den in
   let r := num mod den in
   let hi := lo + 1 in
   let back s := float_eqb (round_decimal s sc) (Finite M E) in
   match back lo, back hi with
   | true, true =>
       if 2 * r <? den then Some lo
       else if den <? 2 * r then Some hi
       else Some (if Z.even lo then lo else hi)
   | true, false => Some lo
   | false, true => Some hi
   | false, false => None
   end)%Z.

(** The least number of digits first.  Seventeen digits always read
    back; the exact expansion of [M * 2^E] is the default that closes the
    recursion. *)
Fixpoint shortest_from (fuel : nat) (M E n0 k : Z) : Z * Z :=
  match fuel with
  | O => if (0 <=? E)%Z then (M * 2 ^ E, 0)%Z else (M * 5 ^ (- E), E)%Z
  | S f =>
      match shortest_at M E n0 k with
      | Some s => (s, n0 - k)%Z
      | None => shortest_from f M E n0 (k + 1)
      end
  end.

(** The digits [s] and the exponent [sc] that [Number::toString] prints
    for [M * 2^E]: the shortest decimal [s * 10^sc] that reads back as
    it. *)
Definition shortest (M E : Z) : Z * Z :=
  (let p := if 0 <=? E then M * 2 ^ E else M in
   let q := if 0 <=? E then 1 else 2 ^ (- E) in
   let n0 := ndigits (p * 10 ^ 400 / q) - 400 in
   shortest_from 17 M E n0 1)%Z.

(** The notation of [Number::toString] for the decimal [m * 10^e]: with
    [s] the [k] significant digits and [n] the position of the decimal
    point. *)
Definition decimal_toString (m e : Z) : string :=
  if (m =? 0)%Z then "0"
  else
    let sign := if (m <? 0)%Z then "-" else EmptyString in
    let rds := rev (list_ascii_of_string (digits_of (Z.abs m))) in
    let z := leading_zeros rds in
    let s := rev (skipn z rds) in
    let k := Z.of_nat (List.length s) in
    let n := (k + e + Z.of_nat z)%Z in
    let str := string_of_list_ascii in
    sign ++
    (if ((k <=? n) && (n <=? 21))%Z then str s ++ zeros (Z.to_nat (n - k))
     else if ((0 <? n) && (n <=? 21))%Z then
       str (firstn (Z.to_nat n) s) ++ "." ++ str (skipn (Z.to_nat n) s)
     else if ((-6 <? n) && (n <=? 0))%Z then
       "0." ++ zeros (Z.to_nat (- n)) ++ str s
     else
       let ex := (n - 1)%Z in
       let es := (if (ex <? 0)%Z then "-" else "+") ++ digits_of (Z.abs ex) in
       match s with
       | [] => EmptyString
       | [d] => str [d] ++ "e" ++ es
       | d :: rest => str [d] ++ "." ++ str rest ++ "e" ++ es
       end).

(** [Number::toString] on the number that the literal [m * 10^e]
    denotes. *)
Definition Number_toString (m e : Z) : string :=
  match magnitude m e with
  | Zero => "0"
  | Infinity => if (m <? 0)%Z then "-Infinity" else "Infinity"
  | Finite M E =>
      let '(s, sc) := shortest M E in
      decimal_toString (if (m <? 0)%Z then - s else s)%Z sc
  end.

Fixpoint join (sep : string) (l : list string) : string :=
  match l with
  | [] => EmptyString
  | [x] => x
  | x :: r => x ++ sep ++ join sep r
  end.

(** Whether an object has an own property [k]. *)
Definition has_key (k : string) (fields : list (string * json)) : bool :=
  existsb (fun kv => String.eqb (fst kv) k) fields.

(** [String(v)], as [new Error(v)] applies it; [None] stands for the
    [TypeError] of a value that has no primitive.  An array is joined
    with commas, [null] giving the empty text.  An object answers with
    [Object.prototype.toString] unless it has an own property [toString]:
    a value read from JSON is never a function, so that property hides
    the inherited method, and [valueOf] gives no primitive either. *)
Fixpoint ToString (v : json) : option string :=
  match v with
  | JNull => Some "null"
  | JBool true => Some "true"
  | JBool false => Some "false"
  | JNumber m e => Some (Number_toString m e)
  | JString s => Some s
  | JArray items =>
      option_map (join ",")
        ((fix elements (l : list json) : option (list string) :=
            match l with
            | [] => Some []
            | x :: r =>
                match match x with
                      | JNull => Some EmptyString
                      | _ => ToString x
                      end
                with
                | Some t =>
                    match elements r with
                    | Some ts => Some (t :: ts)
                    | None => None
                    end
                | None => None
                end
            end) items)
  | JObject fields =>
      if has_key "toString" fields then None else Some "[object Object]"
  end.

End Json.

(* ================================================================== *)
(** ** Thrown values and asynchronous computations *)

Module Js.

(** Where an [Error] object was constructed: by a [new Error] of the
    service (identified by its source line), by the engine (a
    [TypeError]), or anywhere else (SDK, browser), with whatever stack it
    carries. *)
Inductive origin : Type :=
| Source (line : nat)
| Runtime
| Foreign (stack : string).

(** A value caught by [catch], with what the service can observe of it.
    An [Error] carries the string that [new Error] stored as its message.
    Any other non-null object is told by what [JSON.stringify] does with
    it: it gives a text, it gives [undefined] (a [toJSON] that returns
    [undefined]), or it throws (a cycle, a [BigInt] inside, a [toJSON]
    or a getter that throws).  A number is the binary64 nearest to
    [m * 10^e], so the infinities are numbers with a large exponent. *)
Inductive thrown : Type :=
| ThrownError (message : string) (from : origin)
    (* [error instanceof Error] *)
| ThrownObject (stringified : string)
    (* [JSON.stringify(error)] is this text *)
| ThrownOpaque
    (* [JSON.stringify(error)] is [undefined] *)
| ThrownUnserialisable (raised : thrown)
    (* [JSON.stringify(error)] throws [raised] *)
| ThrownString (s : string)
| ThrownNumber (m e : Z)
| ThrownNaN
| ThrownBoolean (b : bool)
| ThrownNull
| ThrownUndefined
| ThrownOther (text : string).
    (* a symbol, a bigint or a function: [String(error)] is this text *)

(** How an awaited promise ends; [Pending] is a promise that never
    settles. *)
Inductive outcome (A : Type) : Type :=
| Return (a : A)
| Throw (e : thrown)
| Pending.

Arguments Return {A} a.
Arguments Throw {A} e.
Arguments Pending {A}.

Section Comp.
Context {World E : Type}.

(** A computation transforms the world, ends with an outcome and
    reports its events in order. *)
Definition Comp (A : Type) : Type := World -> outcome A * World * list E.

Definition ret {A} (a : A) : Comp A := fun w => (Return a, w, []).

Definition throw {A} (e : thrown) : Comp A := fun w => (Throw e, w, []).

Definition never {A} : Comp A := fun w => (Pending, w, []).

Definition emit (e : E) : Comp unit := fun w => (Return tt, w, [e]).

Definition bind {A B} (m : Comp A) (f : A -> Comp B) : Comp B :=
  fun w =>
    match m w with
    | (Return a, w1, t1) =>
        let '(r, w2, t2) := f a w1 in (r, w2, (t1 ++ t2)%list)
    | (Throw e, w1, t1) => (Throw e, w1, t1)
    | (Pending, w1, t1) => (Pending, w1, t1)
    end.

(** [try { m } catch (e) { h e }] *)
Definition try_catch {A} (m : Comp A) (h : thrown -> Comp A) : Comp A :=
  fun w =>
    match m w with
    | (Throw e, w1, t1) =>
        let '(r, w2, t2) := h e w1 in (r, w2, (t1 ++ t2)%list)
    | other => other
    end.

(** An awaited call to a collaborator, reported as event [e]. *)
Definition perform {A} (e : E) (f : World -> outcome A * World) : Comp A :=
  fun w => let '(r, w1) := f w in (r, w1, [e]).

(** A synchronous step that returns or throws. *)
Definition lift {A} (r : outcome A) : Comp A := fun w => (r, w, []).

End Comp.

Arguments Comp : clear implicits.

(** A computation with its events translated. *)
Definition relabel {World E E' A} (g : E -> E') (m : Comp World E A)
  : Comp World E' A :=
  fun w => let '(r, w1, t) := m w in (r, w1, map g t).

Definition result {World E A} (x : outcome A * World * list E) : outcome A :=
  fst (fst x).
Definition world {World E A} (x : outcome A * World * list E) : World :=
  snd (fst x).
Definition trace {World E A} (x : outcome A * World * list E) : list E :=
  snd x.

End Js.

Declare Scope comp_scope.
Delimit Scope comp_scope with comp.
Notation "x <- c1 ;; c2" := (Js.bind c1 (fun x => c2))
  (at level 61, c1 at next level, right associativity) : comp_scope.
Notation "c1 ;; c2" := (Js.bind c1 (fun _ => c2))
  (at level 61, right associativity) : comp_scope.

(* ================================================================== *)
(** ** services/geminiService.ts *)

Module GeminiService.

Import Js.
Import Json.
Local Open Scope comp_scope.

(** *** types.ts *)

Inductive AspectRatio : Type :=
| SQUARE | PORTRAIT | LANDSCAPE | WIDE_PORTRAIT | WIDE_LANDSCAPE
| CINEMATIC | STANDARD_PORTRAIT | STANDARD_LANDSCAPE.

Inductive ImageSize : Type := K1 | K2 | K4.

(** The aspect ratios [generateVideo] accepts: ['16:9' | '9:16']. *)
Inductive VideoAspect : Type := V16_9 | V9_16.

(** *** Requests and responses of the generative-AI client *)

Record InlineData : Type :=
  { mimeType : string; data : option string }.

Record Part : Type :=
  { inlineData : option InlineData; text : option string }.

Record Content : Type := { parts : option (list Part) }.
Record Candidate : Type := { content : option Content }.
Record Response : Type := { candidates : option (list Candidate) }.

Inductive Config : Type :=
| NoConfig
| EmptyConfig
| ImageConfig (aspectRatio : AspectRatio) (imageSize : ImageSize).

Record Request : Type :=
  { model : string; contents : list Part; config : Config }.

Record VideoRequest : Type :=
  { video_model : string;
    numberOfVideos : Z;
    resolution : string;
    video_aspectRatio : VideoAspect;
    video_prompt : option string;
    image : option (string * string) (* imageBytes, mimeType *) }.

(** Calls made on collaborators from inside an operation. *)
Inductive backend_call : Type :=
| GenerateContent (apiKey : string) (req : Request)
| GenerateVideos (apiKey : string) (req : VideoRequest)
| GetVideosOperation (apiKey : string)
| SetTimeout (ms : Z)
| Fetch (url : string)
| ResBlob
| CreateObjectURL.

(** What a call of the service does, in order. *)
Inductive event : Type :=
| Invoke                                  (* the gateway calls [operation()] *)
| OpenSelectKey                           (* [window.aistudio.openSelectKey()] *)
| Warn (text : string) (about : option thrown)      (* [console.warn] *)
| Call (c : backend_call).

Definition new_Error (line : nat) (message : string) : thrown :=
  ThrownError message (Source line).

(** A [TypeError] raised by the engine; the wording of its message is the
    engine's own. *)
Definition TypeError (message : string) : thrown :=
  ThrownError message Runtime.

(** What the statement [throw new Error(v)] on line [line] throws: the
    new error, or the [TypeError] of converting [v] to a string. *)
Definition thrown_by_new_Error (line : nat) (v : json) : thrown :=
  match ToString v with
  | Some message => new_Error line message
  | None => TypeError "Cannot convert object to primitive value"
  end.

(** *** Classifying a failure (lines 30-83) *)

(** How step 1 ends: [msg] is a text, [msg] is [undefined], or the
    statement throws. *)
Inductive extraction : Type :=
| Text (m : string)
| NoText
| Raises (e : thrown).

(** Step 1: [error.message] of an [Error], [JSON.stringify(error)] of
    another non-null object, [String(error)] of anything else. *)
Definition extract_message (error : thrown) : extraction :=
  match error with
  | ThrownError message _ => Text message
  | ThrownObject stringified => Text stringified
  | ThrownOpaque => NoText
  | ThrownUnserialisable raised => Raises raised
  | ThrownString s => Text s
  | ThrownNumber m e => Text (Number_toString m e)
  | ThrownNaN => Text "NaN"
  | ThrownBoolean true => Text "true"
  | ThrownBoolean false => Text "false"
  | ThrownNull => Text "null"
  | ThrownUndefined => Text "undefined"
  | ThrownOther text => Text text
  end.

(** The fragment from the first opening brace to the last closing one. *)
Definition json_fragment (msg : string) : option string :=
  let jsonStart := JsString.indexOf msg "{"%char in
  let jsonEnd := JsString.lastIndexOf msg "}"%char in
  if negb (jsonStart =? -1)%Z && negb (jsonEnd =? -1)%Z
  then Some (JsString.substring msg jsonStart (jsonEnd + 1))
  else None.

(** The JSON value embedded in a message, when there is a fragment and
    [JSON.parse] accepts it. *)
Definition embedded_json (m : string) : option json :=
  match json_fragment m with
  | Some frag => JSON_parse frag
  | None => None
  end.

(** The condition on [parsed.error] (lines 50-57), evaluated left to
    right; [None] when the [includes] call throws. *)
Definition descriptor_matches (err : json) : option bool :=
  if is_number (get "code" err) 403 then Some true
  else if is_string (get "status" err) "PERMISSION_DENIED" then Some true
  else if is_number (get "code" err) 404 then Some true
  else if is_string (get "status" err) "NOT_FOUND" then Some true
  else if is_number (get "code" err) 400 then Some true
  else
    match get "message" err with
    | Some m => if truthy (Some m) then includes m "quota" else Some false
    | None => Some false
    end.

(** The two variables of the catch block. *)
Record Verdict : Type :=
  { isPermissionError : bool; msg : json }.

(** Step 2.  Whatever throws inside the inner [try] ([JSON.parse], the
    read of [.error] on [null], the [includes] call) does so before either
    assignment, so a caught exception leaves both variables as they
    were. *)
Definition parse_step (msg0 : string) : Verdict :=
  let unchanged := {| isPermissionError := false; msg := JString msg0 |} in
  match json_fragment msg0 with
  | None => unchanged
  | Some jsonStr =>
      match JSON_parse jsonStr with
      | None => unchanged
      | Some JNull => unchanged
      | Some parsed =>
          if truthy (get "error" parsed) then
            match get "error" parsed with
            | Some err =>
                match descriptor_matches err with
                | None => unchanged
                | Some matched =>
                    {| isPermissionError := matched;
                       msg := match get "message" err with
                              | Some m =>
                                  if truthy (Some m) then m else JString msg0
                              | None => JString msg0
                              end |}
                end
            | None => unchanged
            end
          else unchanged
      end
  end.

Definition patterns : list string :=
  [ "403"; "PERMISSION_DENIED"; "The caller does not have permission";
    "API_KEY is not defined"; "API key not valid"; "INVALID_ARGUMENT";
    "quota"; "404"; "NOT_FOUND"; "Requested entity was not found" ].

(** [msg.includes(p1) || msg.includes(p2) || ...], left to right. *)
Fixpoint any_includes (m : json) (ps : list string) : option bool :=
  match ps with
  | [] => Some false
  | p :: rest =>
      match includes m p with
      | None => None
      | Some true => Some true
      | Some false => any_includes m rest
      end
  end.

(** Step 3, entered only when step 2 found nothing. *)
Definition fallback_step (v : Verdict) : option Verdict :=
  if isPermissionError v then Some v
  else
    match any_includes (msg v) patterns with
    | None => None
    | Some found => Some {| isPermissionError := found; msg := msg v |}
    end.

(** Steps 2 and 3 on the text of step 1; [None] when step 3 throws. *)
Definition classify_message (m : string) : option Verdict :=
  fallback_step (parse_step m).

(** Steps 1 to 3 together; [None] when the catch block throws before it
    has a verdict. *)
Definition classify (error : thrown) : option Verdict :=
  match extract_message error with
  | Text m => classify_message m
  | NoText => None
  | Raises _ => None
  end.

Definition fixed_message : string :=
  "Connection failed. Please select a valid API Key.".

Definition prompting_warning : string :=
  "Auth/Model access error detected. Prompting user for API Key...".

(** *** Payload extraction (lines 110-125 and 177-190) *)

(** [response.candidates?.[0]?.content?.parts] *)
Definition response_parts (response : Response) : option (list Part) :=
  match candidates response with
  | Some (c :: _) =>
      match content c with
      | Some ct => parts ct
      | None => None
      end
  | _ => None
  end.

(** [part.inlineData && part.inlineData.data], when truthy. *)
Definition inline_payload (p : Part) : option string :=
  match inlineData p with
  | Some d =>
      match data d with
      | Some payload => if JsString.truthy payload then Some payload else None
      | None => None
      end
  | None => None
  end.

(** The loop over the parts: the data URI of the first part with a
    payload, or the text gathered when there is none. *)
Fixpoint scan_parts (ps : list Part) (textRefusal : string) : string + string :=
  match ps with
  | [] => inr textRefusal
  | p :: rest =>
      match inline_payload p with
      | Some payload => inl ("data:image/png;base64," ++ payload)
      | None =>
          scan_parts rest
            (match text p with
             | Some t => if JsString.truthy t then textRefusal ++ t
                         else textRefusal
             | None => textRefusal
             end)
      end
  end.

Definition scan_response (response : Response) : string + string :=
  match response_parts response with
  | Some ps => scan_parts ps EmptyString
  | None => inr EmptyString
  end.

Definition extractImageFromResponse (response : Response) : outcome string :=
  match scan_response response with
  | inl uri => Return uri
  | inr textRefusal =>
      if JsString.truthy textRefusal
      then Throw (new_Error 123 ("Model refused: " ++ textRefusal))
      else Throw (new_Error 124 "No image data returned.")
  end.

(** The same loop, written out again inside [editImage]. *)
Definition extract_edited (response : Response) : outcome string :=
  match scan_response response with
  | inl uri => Return uri
  | inr textRefusal =>
      if JsString.truthy textRefusal
      then Throw (new_Error 189 ("Model unable to edit: " ++ textRefusal))
      else Throw (new_Error 190 "No edited image returned.")
  end.

(** *** Small helpers of the call sites *)

(** [s.split(',')[1] || s] *)
Definition base64_of (s : string) : string :=
  JsString.opt_or_else (nth_error (JsString.split s ","%char) 1) s.

Fixpoint take_run (s : string) : string * string :=
  match s with
  | String c r =>
      if Ascii.eqb c ";"%char then (EmptyString, s)
      else let '(run, rest) := take_run r in (String c run, rest)
  | EmptyString => (EmptyString, s)
  end.

(** [/data:([^;]+);base64/] anchored at the start of [s]: the group is
    the whole run of characters other than [;]. *)
Definition mime_here (s : string) : option string :=
  if String.prefix "data:" s then
    let '(run, rest) := take_run (drop 5 s) in
    if JsString.truthy run && String.prefix ";base64" rest
    then Some run else None
  else None.

(** [s.match(/data:([^;]+);base64/)?.[1]]: the leftmost match. *)
Fixpoint mime_match (s : string) : option string :=
  match mime_here s with
  | Some m => Some m
  | None =>
      match s with
      | String _ r => mime_match r
      | EmptyString => None
      end
  end.

Definition reference_mime (referenceImage : string) : string :=
  JsString.opt_or_else (mime_match referenceImage) "image/png".

(** *** The service over its collaborators *)

Section Service.

Variable World : Type.

(** [process.env.API_KEY], as it stands when it is read: a completed key
    selection may have set it since the last read. *)
Variable API_KEY : World -> option string.

(** The credential-selection collaborator: whether
    [window.aistudio.openSelectKey] is there, and the flow itself. *)
Variable aistudio_available : World -> bool.
Variable openSelectKey : World -> outcome unit * World.

(** The generative-AI client and the host. *)
Variable generateContent :
  string -> Request -> World -> outcome Response * World.
Variable VideoOperation : Type.
Variable done : VideoOperation -> bool.
Variable video_uri : VideoOperation -> option string.
Variable generateVideos :
  string -> VideoRequest -> World -> outcome VideoOperation * World.
Variable getVideosOperation :
  string -> VideoOperation -> World -> outcome VideoOperation * World.
Variable setTimeout : Z -> World -> World.
Variable FetchResponse : Type.
Variable Blob : Type.
Variable ok : FetchResponse -> bool.
Variable statusText : FetchResponse -> string.
Variable fetch : string -> World -> outcome FetchResponse * World.
Variable res_blob : FetchResponse -> World -> outcome Blob * World.
Variable createObjectURL : Blob -> World -> string * World.

(** An operation handed to the gateway, and a call of the service. *)
Definition Thunk (T : Type) : Type := Comp World backend_call T.
Definition Service (T : Type) : Type := Comp World event T.

(** [await operation()] as the gateway performs it. *)
Definition invoke {T} (operation : Thunk T) : Service T :=
  emit Invoke ;; relabel Call operation.

(** Lines 30-99: the catch block.  What [JSON.stringify] throws on
    line 37 leaves the block as it is.  When [msg] is [undefined] the
    inner [try] of step 2 swallows the failing [msg.indexOf], and step 3
    throws on [msg.includes]. *)
Definition catch_block {T} (operation : Thunk T) (requireAuth : bool)
  (error : thrown) : Service T :=
  match extract_message error with
  | Raises raised => throw raised
  | NoText =>
      throw (TypeError
               "Cannot read properties of undefined (reading 'includes')")
  | Text msg0 =>
      match classify_message msg0 with
      | None => throw (TypeError "msg.includes is not a function")
      | Some v =>
          let final : Service T :=
            throw (thrown_by_new_Error 99 (msg v)) in
          if isPermissionError v && requireAuth then
            fun w =>
              if aistudio_available w then
                (emit (Warn prompting_warning None) ;;
                 try_catch
                   (perform OpenSelectKey openSelectKey ;; invoke operation)
                   (fun retryError => throw (new_Error 93 fixed_message))) w
              else final w
          else final
      end
  end.

(** Lines 26-101. *)
Definition runWithAuthRetry {T} (operation : Thunk T) (requireAuth : bool)
  : Service T :=
  try_catch (invoke operation) (catch_block operation requireAuth).

(** Lines 16-21: a client made with the key the environment holds at
    this moment, or with a placeholder. *)
Definition getClient (w : World) : string :=
  JsString.opt_or_else (API_KEY w) "lazy_auth_key".

(** [getClient().models.generateContent(req)] *)
Definition models_generateContent (req : Request) : Thunk Response :=
  fun w =>
    let apiKey := getClient w in
    perform (GenerateContent apiKey req) (generateContent apiKey req) w.

Definition text_part (t : string) : Part :=
  {| inlineData := None; text := Some t |}.

Definition pro_request (prompt : string) (aspectRatio : AspectRatio)
  (imageSize : ImageSize) : Request :=
  {| model := "gemini-3-pro-image-preview";
     contents := [text_part prompt];
     config := ImageConfig aspectRatio imageSize |}.

Definition flash_request (prompt : string) : Request :=
  {| model := "gemini-2.5-flash-image";
     contents := [text_part prompt];
     config := EmptyConfig |}.

Definition tier1 (prompt : string) (aspectRatio : AspectRatio)
  (imageSize : ImageSize) : Thunk string :=
  response <- models_generateContent (pro_request prompt aspectRatio imageSize) ;;
  lift (extractImageFromResponse response).

Definition tier2 (prompt : string) : Thunk string :=
  responseFlash <- models_generateContent (flash_request prompt) ;;
  lift (extractImageFromResponse responseFlash).

Definition fallback_warning : string :=
  "Pro Image Gen failed, falling back to Flash silently.".

(** Lines 104-154.  The handler reads [err.message] for the warning:
    on [null] and [undefined] that read throws. *)
Definition generateImage (prompt : string) (aspectRatio : AspectRatio)
  (imageSize : ImageSize) : Service string :=
  try_catch (relabel Call (tier1 prompt aspectRatio imageSize)) (fun err =>
    match err with
    | ThrownNull =>
        throw (TypeError "Cannot read properties of null (reading 'message')")
    | ThrownUndefined =>
        throw (TypeError
                 "Cannot read properties of undefined (reading 'message')")
    | _ =>
        emit (Warn fallback_warning (Some err)) ;;
        runWithAuthRetry (tier2 prompt) true
    end).

(** Lines 157-194. *)
Definition editImage (base64Image prompt mimeType : string)
  : Service string :=
  let apiCall : Thunk string :=
    let base64Data := base64_of base64Image in
    response <- models_generateContent
                  {| model := "gemini-2.5-flash-image";
                     contents :=
                       [ {| inlineData :=
                              Some {| mimeType := mimeType;
                                      data := Some base64Data |};
                            text := None |};
                         text_part prompt ];
                     config := NoConfig |} ;;
    lift (extract_edited response) in
  runWithAuthRetry apiCall true.

(** Lines 270-274: the polling loop, cut off after [fuel] rounds. *)
Fixpoint poll (fuel : nat) (apiKey : string) (operation : VideoOperation)
  : Thunk VideoOperation :=
  if done operation then ret operation
  else
    match fuel with
    | O => never
    | S fuel' =>
        perform (SetTimeout 5000) (fun w => (Return tt, setTimeout 5000 w)) ;;
        operation' <- perform (GetVideosOperation apiKey)
                        (getVideosOperation apiKey operation) ;;
        poll fuel' apiKey operation'
    end.

Definition truthy_opt (s : option string) : bool :=
  match s with
  | Some x => JsString.truthy x
  | None => false
  end.

(** The download of a finished video (lines 279-287); the key is read
    from the environment here, after the polling. *)
Definition download (videoUri : string) : Thunk string :=
  fun w =>
    if truthy_opt (API_KEY w) then
      let apiKey := JsString.opt_or_else (API_KEY w) EmptyString in
      (res <- perform (Fetch (videoUri ++ "&key=" ++ apiKey))
                (fetch (videoUri ++ "&key=" ++ apiKey)) ;;
       if ok res then
         blob <- perform ResBlob (res_blob res) ;;
         perform CreateObjectURL
           (fun w => let '(url, w1) := createObjectURL blob w in
                     (Return url, w1))
       else throw (new_Error 284 ("Download failed: " ++ statusText res))) w
    else throw (new_Error 281 "API Key required for download") w.

(** Lines 238-288: the operation of the pro mode.  The client is made
    once, with the key of the moment the operation starts. *)
Definition veo (fuel : nat) (prompt : string) (aspectRatio : VideoAspect)
  (referenceImage : option string) : Thunk string :=
  fun w0 =>
  let apiKey0 := getClient w0 in
  let request :=
    {| video_model := "veo-3.1-fast-generate-preview";
       numberOfVideos := 1;
       resolution := "720p";
       video_aspectRatio := aspectRatio;
       video_prompt := if JsString.truthy prompt then Some prompt else None;
       image :=
         match referenceImage with
         | Some r =>
             if JsString.truthy r
             then Some (base64_of r, reference_mime r) else None
         | None => None
         end |} in
  match video_prompt request, image request with
  | None, None =>
      throw (new_Error 265 "Prompt or Image required for video generation") w0
  | _, _ =>
      (operation <- perform (GenerateVideos apiKey0 request)
                      (generateVideos apiKey0 request) ;;
       operation <- poll fuel apiKey0 operation ;;
       match video_uri operation with
       | Some videoUri =>
           if JsString.truthy videoUri then download videoUri
           else throw (new_Error 277 "Video generation failed: No URI returned")
       | None =>
           throw (new_Error 277 "Video generation failed: No URI returned")
       end) w0
  end.

(** Lines 218-289. *)
Definition generateVideo (fuel : nat) (prompt : string)
  (aspectRatio : VideoAspect) (referenceImage : option string)
  (useProMode : bool) : Service string :=
  if negb useProMode then
    if truthy_opt referenceImage then
      let referenceImage := JsString.opt_or_else referenceImage EmptyString in
      let mimeType := reference_mime referenceImage in
      editImage referenceImage (JsString.or_else prompt "Enhance this") mimeType
    else
      let ratioEnum :=
        match aspectRatio with
        | V16_9 => WIDE_LANDSCAPE
        | V9_16 => WIDE_PORTRAIT
        end in
      generateImage (JsString.or_else prompt "Preview") ratioEnum K1
  else
    runWithAuthRetry (veo fuel prompt aspectRatio referenceImage) true.

End Service.

(** *** Reading traces and stating the claims *)

(** What the retried attempt hands back (lines 91-93). *)
Definition second_outcome {T} (o : outcome T) : outcome T :=
  match o with
  | Throw _ => Throw (new_Error 93 fixed_message)
  | other => other
  end.

(** What the catch block throws when it leaves without prompting: on
    line 37, on line 70 or on line 99. *)
Definition final_throw (error : thrown) : thrown :=
  match extract_message error with
  | Raises raised => raised
  | NoText =>
      TypeError "Cannot read properties of undefined (reading 'includes')"
  | Text msg0 =>
      match classify_message msg0 with
      | None => TypeError "msg.includes is not a function"
      | Some v => thrown_by_new_Error 99 (msg v)
      end
  end.

(** Whether the catch block asks for a key: the failure is retryable,
    prompting is required and the selector is there. *)
Definition prompting (error : thrown) (requireAuth available : bool) : bool :=
  match classify error with
  | Some v => isPermissionError v && requireAuth && available
  | None => false
  end.

Definition is_Invoke (e : event) : bool :=
  match e with Invoke => true | _ => false end.

Definition is_OpenSelectKey (e : event) : bool :=
  match e with OpenSelectKey => true | _ => false end.

(** How often the gateway called the operation, and how often it asked
    for a key. *)
Definition invocations (t : list event) : nat :=
  List.length (filter is_Invoke t).

Definition prompts (t : list event) : nat :=
  List.length (filter is_OpenSelectKey t).

(** Calls that reach the video backend or download its result. *)
Definition is_video_call (c : backend_call) : bool :=
  match c with
  | GenerateContent _ _ => false
  | _ => true
  end.

Definition touches_video (e : event) : bool :=
  match e with
  | Call c => is_video_call c
  | _ => false
  end.

Definition quiet (e : event) : Prop := touches_video e = false.

(** A call to the model named [m]. *)
Definition calls_model (m : string) (e : event) : bool :=
  match e with
  | Call (GenerateContent _ req) => String.eqb (model req) m
  | _ => false
  end.

(** The table of step 3 of the contract, on a nested descriptor: code
    403, status PERMISSION_DENIED, code 404, status NOT_FOUND, code 400,
    or a nested message containing the word quota. *)
Definition descriptor_listed (err : json) : bool :=
  is_number (get "code" err) 403
  || is_string (get "status" err) "PERMISSION_DENIED"
  || is_number (get "code" err) 404
  || is_string (get "status" err) "NOT_FOUND"
  || is_number (get "code" err) 400
  || match get "message" err with
     | Some (JString m) => JsString.includes m "quota"
     | _ => false
     end.

(** The working message contains one of the fixed patterns. *)
Definition pattern_hit (m : json) : bool :=
  match any_includes m patterns with
  | Some found => found
  | None => false
  end.

(** A part without inline data to return. *)
Definition no_payload (p : Part) : Prop := inline_payload p = None.

(** All text of the parts, in order. *)
Definition refusal_text (ps : list Part) : string :=
  fold_right
    (fun p rest =>
       match text p with Some t => t ++ rest | None => rest end)
    EmptyString ps.

Fixpoint skip (n : nat) (s : string) : string :=
  match n, s with
  | S n', String _ r => skip n' r
  | _, _ => s
  end.

(** What follows the header of a data URI. *)
Definition uri_payload (uri : string) : string :=
  skip (String.length "data:image/png;base64,") uri.

End GeminiService.

(* ================================================================== *)
(** ** A scripted world for worked examples *)

Module Demo.

Import Js.
Import GeminiService.

(** The world counts the calls made to the scripted collaborators. *)
Definition World : Type := nat.

(** An operation that ends with [first] on its first call and with
    [later] on every later one. *)
Definition scripted {T} (first later : outcome T) : Thunk World T :=
  fun w => (if Nat.eqb w 0 then first else later, S w, []).

Definition available : World -> bool := fun _ => true.
Definition unavailable : World -> bool := fun _ => false.

(** An environment that never holds a key, and one that always holds
    the key [k]. *)
Definition no_key : World -> option string := fun _ => None.
Definition with_key (k : string) : World -> option string :=
  fun _ => Some k.

(** An environment in which a key appears once [n] calls have been
    made. *)
Definition key_after (n : nat) : World -> option string :=
  fun w => if Nat.leb n w then Some "k" else None.

(** The user picks a key. *)
Definition key_selected : World -> outcome unit * World :=
  fun w => (Return tt, w).

(** The selection flow rejects. *)
Definition key_rejected : World -> outcome unit * World :=
  fun w => (Throw (ThrownString "dialog closed"), w).

Definition image_response (payload : string) : Response :=
  {| candidates :=
       Some [ {| content :=
                   Some {| parts :=
                             Some [ {| inlineData := None;
                                       text := Some "Here you go" |};
                                    {| inlineData :=
                                         Some {| mimeType := "image/jpeg";
                                                 data := Some payload |};
                                       text := None |} ] |} |} ] |}.

(** A client whose pro model rejects with [pro_failure] and whose flash
    model answers with an image. *)
Definition client (pro_failure : thrown) (apiKey : string) (req : Request)
  : World -> outcome Response * World :=
  fun w =>
    (if String.eqb (model req) "gemini-3-pro-image-preview"
     then Throw pro_failure
     else Return (image_response "QUJD"),
     S w).

End Demo.

(* ================================================================== *)
(** ** services/geminiService.ts: the remaining exports *)

Module GeminiServiceRest.

Import Js.
Import Json.
Import GeminiService.
Local Open Scope comp_scope.

(** What a call made from the application does: a call of the service,
    or an effect of the browser. *)
Inductive app_event : Type :=
| Svc (e : event)
| ConsoleError (text : string) (about : thrown)       (* [console.error] *)
| Alert (text : string)                               (* [alert] *)
| SetItem (key value : string).                       (* [localStorage.setItem] *)

(** *** Chat: what the service hands to the client and reads back *)

Record ChatContent : Type :=
  { role : string; parts_text : list string }.

Record ChatSession : Type :=
  { chat_model : string;
    googleSearch : bool;              (* [tools: [{ googleSearch: {} }]] or none *)
    systemInstruction : string;
    chat_history : list ChatContent }.

Record Web : Type := { uri : option string; title : option string }.
Record GroundingChunk : Type := { web : option Web }.

(** The two reads made on the result of [chat.sendMessage]: [result.text]
    and [result.candidates?.[0]?.groundingMetadata?.groundingChunks]. *)
Record SendResult : Type :=
  { result_text : option string;
    result_groundingChunks : option (list GroundingChunk) }.

Record ChatReply : Type :=
  { reply_text : string; groundingChunks : option (list GroundingChunk) }.

Section Rest.

Variable World : Type.
Variable API_KEY : World -> option string.
Variable aistudio_available : World -> bool.
Variable openSelectKey : World -> outcome unit * World.
Variable generateContent :
  string -> Request -> World -> outcome Response * World.

(** [ai.chats.create(session).sendMessage({ message })] *)
Variable chats_sendMessage :
  string -> ChatSession -> string -> World -> outcome SendResult * World.

(** The accessor [response.text] of the client library. *)
Variable response_text : Response -> option string.

(** Lines 5-13. *)
Definition openKeySelection : Comp World app_event unit :=
  fun w =>
    if aistudio_available w then
      try_catch
        (relabel Svc (perform OpenSelectKey openSelectKey))
        (fun e => emit (ConsoleError "Failed to open key selection:" e)) w
    else ret tt w.

(** A call on the client for which the service's vocabulary of backend
    calls has no word: it acts on the world and leaves the trace alone. *)
Definition unlogged {A} (f : World -> outcome A * World) : Thunk World A :=
  fun w => let '(r, w1) := f w in (r, w1, []).

(** Lines 197-215. *)
Definition sendChatMessage (history : list ChatContent) (message : string)
  (useSearch : bool) : Service World ChatReply :=
  let apiCall : Thunk World ChatReply :=
    fun w =>
      let apiKey := getClient World API_KEY w in
      let model :=
        if useSearch then "gemini-2.5-flash" else "gemini-3-pro-preview" in
      let session :=
        {| chat_model := model;
           googleSearch := useSearch;
           systemInstruction := "Format response in Markdown.";
           chat_history := history |} in
      (result <- unlogged (chats_sendMessage apiKey session message) ;;
       ret {| reply_text :=
                JsString.opt_or_else (result_text result) EmptyString;
              groundingChunks := result_groundingChunks result |}) w in
  runWithAuthRetry World aistudio_available openSelectKey apiCall true.



End Rest.

End GeminiServiceRest.

(* ================================================================== *)
(** ** components/ImageGen.tsx *)

Module ImageGen.

Import Js.
Import GeminiService.
Import GeminiServiceRest.

Record HistoryItem : Type :=
  { prompt : string;
    aspectRatio : AspectRatio;
    size : ImageSize;
    timestamp : Z }.

Definition AspectRatio_eqb (a b : AspectRatio) : bool :=
  match a, b with
  | SQUARE, SQUARE | PORTRAIT, PORTRAIT | LANDSCAPE, LANDSCAPE
  | WIDE_PORTRAIT, WIDE_PORTRAIT | WIDE_LANDSCAPE, WIDE_LANDSCAPE
  | CINEMATIC, CINEMATIC | STANDARD_PORTRAIT, STANDARD_PORTRAIT
  | STANDARD_LANDSCAPE, STANDARD_LANDSCAPE => true
  | _, _ => false
  end.

Definition ImageSize_eqb (a b : ImageSize) : bool :=
  match a, b with
  | K1, K1 | K2, K2 | K4, K4 => true
  | _, _ => false
  end.

(** [h.prompt !== prompt || h.aspectRatio !== aspectRatio || h.size !== size] *)
Definition differs (p : string) (a : AspectRatio) (z : ImageSize)
  (h : HistoryItem) : bool :=
  negb (String.eqb (prompt h) p)
  || negb (AspectRatio_eqb (aspectRatio h) a)
  || negb (ImageSize_eqb (size h) z).

(** Lines 46-54: the new entry first, the older entries with other
    settings after it, ten entries at most. *)
Definition next_history (newItem : HistoryItem) (history : list HistoryItem)
  : list HistoryItem :=
  firstn 10
    (newItem
       :: filter (differs (prompt newItem) (aspectRatio newItem) (size newItem))
            history).

(** The state of the component. *)
Record State : Type :=
  { st_prompt : string;
    st_aspectRatio : AspectRatio;
    st_size : ImageSize;
    loading : bool;
    resultImage : option string;
    saved : bool;
    history : list HistoryItem }.

Section Handlers.

Variable World : Type.
Variable API_KEY : World -> option string.
Variable aistudio_available : World -> bool.
Variable openSelectKey : World -> outcome unit * World.
Variable generateContent :
  string -> Request -> World -> outcome Response * World.

(** [Date.now()], [JSON.stringify] on a history, and
    [localStorage.setItem], which returns or throws. *)
Variable Date_now : World -> Z.
Variable JSON_stringify : list HistoryItem -> string.
Variable localStorage_setItem :
  string -> string -> World -> option thrown * World.

(** Lines 34-65.  The state returned is the one the component is left in:
    after the [finally] when the call settles, as set before the call when
    it never does. *)
Definition handleGenerate (st : State) (w : World)
  : State * World * list app_event :=
  if negb (JsString.truthy (st_prompt st)) then (st, w, [])
  else
    let started :=
      {| st_prompt := st_prompt st; st_aspectRatio := st_aspectRatio st;
         st_size := st_size st; loading := true; resultImage := None;
         saved := false; history := history st |} in
    match generateImage World API_KEY aistudio_available openSelectKey
            generateContent (st_prompt st) (st_aspectRatio st) (st_size st) w
    with
    | (Return img, w1, t) =>
        let newItem :=
          {| prompt := st_prompt st; aspectRatio := st_aspectRatio st;
             size := st_size st; timestamp := Date_now w1 |} in
        let newHistory := next_history newItem (history st) in
        let shown :=
          {| st_prompt := st_prompt st; st_aspectRatio := st_aspectRatio st;
             st_size := st_size st; loading := false; resultImage := Some img;
             saved := false; history := newHistory |} in
        let stored := JSON_stringify newHistory in
        match localStorage_setItem "lumina_image_history" stored w1 with
        | (None, w2) =>
            (shown, w2,
             (map Svc t ++ [SetItem "lumina_image_history" stored])%list)
        | (Some err, w2) =>
            (shown, w2,
             (map Svc t ++ [SetItem "lumina_image_history" stored;
                            ConsoleError "Image generation failed:" err])%list)
        end
    | (Throw err, w1, t) =>
        ({| st_prompt := st_prompt st; st_aspectRatio := st_aspectRatio st;
            st_size := st_size st; loading := false; resultImage := None;
            saved := false; history := history st |},
         w1, (map Svc t ++ [ConsoleError "Image generation failed:" err])%list)
    | (Pending, w1, t) => (started, w1, map Svc t)
    end.

End Handlers.

(** Lines 82-88, without the scrolling. *)
Definition loadHistoryItem (item : HistoryItem) (st : State) : State :=
  {| st_prompt := prompt item; st_aspectRatio := aspectRatio item;
     st_size := size item; loading := loading st;
     resultImage := resultImage st; saved := saved st;
     history := history st |}.

(** The settings of an entry, and a history that holds no settings twice. *)
Definition settings (h : HistoryItem) : string * AspectRatio * ImageSize :=
  (prompt h, aspectRatio h, size h).

Definition distinct_settings (l : list HistoryItem) : Prop :=
  NoDup (map settings l).

End ImageGen.

(* ================================================================== *)
(** ** components/ImageEdit (in ChatInterface.tsx, lines 302-440) *)

Module ImageEdit.

Import Js.
Import GeminiService.
Import GeminiServiceRest.

(** An entry of the history is what a read of a file left in
    [reader.result], a data URI or [null] after a failed read, or a
    result that was applied. *)
Record State : Type :=
  { prompt : string;
    history : list (option string);
    historyIndex : Z;
    resultImage : option string;
    loading : bool;
    saved : bool }.

Definition initial : State :=
  {| prompt := EmptyString; history := []; historyIndex := -1;
     resultImage := None; loading := false; saved := false |}.

(** [!!resultImage] *)
Definition pending_result (st : State) : bool := truthy_opt (resultImage st).

(** Lines 316-318. *)
Definition canUndo (st : State) : bool :=
  (historyIndex st >? 0)%Z || pending_result st.

Definition canRedo (st : State) : bool :=
  (historyIndex st <? Z.of_nat (List.length (history st)) - 1)%Z.

(** [None] stands for [null] and for [undefined], which the component
    does not tell apart. *)
Definition currentImage (st : State) : option string :=
  if (historyIndex st >=? 0)%Z
  then match nth_error (history st) (Z.to_nat (historyIndex st)) with
       | Some entry => entry
       | None => None
       end
  else None.

(** [l.slice(0, e)]: a negative [e] counts from the end. *)
Definition slice0 {A} (l : list A) (e : Z) : list A :=
  let len := Z.of_nat (List.length l) in
  let stop := if (e <? 0)%Z then Z.max (len + e) 0 else Z.min e len in
  firstn (Z.to_nat stop) l.

(** Lines 324-331: the read of a file has ended, with [reader.result]
    a data URI, or [null] when the read failed. *)
Definition handleFileChange (base64 : option string) (st : State) : State :=
  {| prompt := EmptyString; history := [base64]; historyIndex := 0;
     resultImage := None; loading := loading st; saved := false |}.

(** Lines 352-363. *)
Definition handleApply (st : State) : State :=
  match resultImage st with
  | Some r =>
      if JsString.truthy r then
        let newHistory :=
          (slice0 (history st) (historyIndex st + 1) ++ [Some r])%list in
        {| prompt := EmptyString; history := newHistory;
           historyIndex := Z.of_nat (List.length newHistory) - 1;
           resultImage := None; loading := loading st; saved := false |}
      else st
  | None => st
  end.

(** Lines 365-368. *)
Definition handleDiscard (st : State) : State :=
  {| prompt := prompt st; history := history st;
     historyIndex := historyIndex st; resultImage := None;
     loading := loading st; saved := false |}.

(** Lines 370-379. *)
Definition handleUndo (st : State) : State :=
  if pending_result st then handleDiscard st
  else if (historyIndex st >? 0)%Z then
    {| prompt := prompt st; history := history st;
       historyIndex := historyIndex st - 1; resultImage := None;
       loading := loading st; saved := saved st |}
  else st.

(** Lines 381-386. *)
Definition handleRedo (st : State) : State :=
  if canRedo st then
    {| prompt := prompt st; history := history st;
       historyIndex := historyIndex st + 1; resultImage := None;
       loading := loading st; saved := saved st |}
  else st.

(** Lines 388-395. *)
Definition handleReset (st : State) : State :=
  {| prompt := EmptyString; history := []; historyIndex := -1;
     resultImage := None; loading := loading st; saved := false |}.

Section Handlers.

Variable World : Type.
Variable API_KEY : World -> option string.
Variable aistudio_available : World -> bool.
Variable openSelectKey : World -> outcome unit * World.
Variable generateContent :
  string -> Request -> World -> outcome Response * World.

(** Lines 336-350.  [editImage] is called with two arguments, so its
    third one takes the default, ['image/png']. *)
Definition handleEdit (st : State) (w : World)
  : State * World * list app_event :=
  match currentImage st with
  | Some image =>
      if JsString.truthy (prompt st) && JsString.truthy image then
        let during (l : bool) (r : option string) :=
          {| prompt := prompt st; history := history st;
             historyIndex := historyIndex st; resultImage := r;
             loading := l; saved := false |} in
        match editImage World API_KEY aistudio_available openSelectKey
                generateContent image (prompt st) "image/png" w
        with
        | (Return edited, w1, t) => (during false (Some edited), w1, map Svc t)
        | (Throw err, w1, t) =>
            (during false (resultImage st), w1,
             (map Svc t ++ [ConsoleError "Edit failed:" err])%list)
        | (Pending, w1, t) => (during true (resultImage st), w1, map Svc t)
        end
      else (st, w, [])
  | None => (st, w, [])
  end.

End Handlers.

(** The index points into the history, or is [-1] on an empty one. *)
Definition well_formed (st : State) : Prop :=
  (history st = [] /\ historyIndex st = (-1)%Z)
  \/ (0 <= historyIndex st < Z.of_nat (List.length (history st)))%Z.

(** Whether [handleEdit] goes past its guard. *)
Definition can_edit (st : State) : bool :=
  match currentImage st with
  | Some image => JsString.truthy (prompt st) && JsString.truthy image
  | None => false
  end.

(** What happens to the editor, one event at a time; an edit is split
    into its start and its completion, between which other events may
    come. *)
Inductive action : Type :=
| FileChange (base64 : option string)
| Apply
| Discard
| Undo
| Redo
| Reset
| EditStart
| EditDone (edited : string)
| EditFailed.

Definition step (a : action) (st : State) : State :=
  match a with
  | FileChange base64 => handleFileChange base64 st
  | Apply => handleApply st
  | Discard => handleDiscard st
  | Undo => handleUndo st
  | Redo => handleRedo st
  | Reset => handleReset st
  | EditStart =>
      if can_edit st then
        {| prompt := prompt st; history := history st;
           historyIndex := historyIndex st; resultImage := resultImage st;
           loading := true; saved := false |}
      else st
  | EditDone edited =>
      {| prompt := prompt st; history := history st;
         historyIndex := historyIndex st; resultImage := Some edited;
         loading := false; saved := saved st |}
  | EditFailed =>
      {| prompt := prompt st; history := history st;
         historyIndex := historyIndex st; resultImage := resultImage st;
         loading := false; saved := saved st |}
  end.

Definition run (actions : list action) (st : State) : State :=
  fold_left (fun s a => step a s) actions st.

End ImageEdit.

(* ================================================================== *)
(** ** components/VideoGen.tsx *)

Module VideoGen.

Import Js.
Import GeminiService.
Import GeminiServiceRest.

Record State : Type :=
  { prompt : string;
    aspectRatio : VideoAspect;
    referenceImage : option string;
    loading : bool;
    resultUrl : option string;
    isVideo : bool;
    statusMessage : string;
    saved : bool;
    useProMode : bool }.

(** Line 55: [url.startsWith('blob:') || url.includes('video')] *)
Definition looks_like_video (url : string) : bool :=
  String.prefix "blob:" url || JsString.includes url "video".

Section Handlers.

Variable World : Type.
Variable API_KEY : World -> option string.
Variable aistudio_available : World -> bool.
Variable openSelectKey : World -> outcome unit * World.
Variable generateContent :
  string -> Request -> World -> outcome Response * World.
Variable VideoOperation : Type.
Variable done : VideoOperation -> bool.
Variable video_uri : VideoOperation -> option string.
Variable generateVideos :
  string -> VideoRequest -> World -> outcome VideoOperation * World.
Variable getVideosOperation :
  string -> VideoOperation -> World -> outcome VideoOperation * World.
Variable setTimeout : Z -> World -> World.
Variable FetchResponse : Type.
Variable Blob : Type.
Variable ok : FetchResponse -> bool.
Variable statusText : FetchResponse -> string.
Variable fetch : string -> World -> outcome FetchResponse * World.
Variable res_blob : FetchResponse -> World -> outcome Blob * World.
Variable createObjectURL : Blob -> World -> string * World.

(** Lines 29-66; [fuel] bounds the polling of the service. *)
Definition handleGenerate (fuel : nat) (st : State) (w : World)
  : State * World * list app_event :=
  if negb (JsString.truthy (prompt st)) && negb (truthy_opt (referenceImage st))
  then (st, w, [Alert "Please provide a prompt or a reference image."])
  else
    let during (l : bool) (url : option string) (vid : bool) (status : string) :=
      {| prompt := prompt st; aspectRatio := aspectRatio st;
         referenceImage := referenceImage st; loading := l;
         resultUrl := url; isVideo := vid; statusMessage := status;
         saved := false; useProMode := useProMode st |} in
    let status :=
      if useProMode st then "Initializing Veo Video Engine..."
      else "Generating Cinematic Preview (Free)..." in
    match generateVideo World API_KEY aistudio_available openSelectKey
            generateContent VideoOperation done video_uri generateVideos
            getVideosOperation setTimeout FetchResponse Blob ok statusText
            fetch res_blob createObjectURL
            fuel (prompt st) (aspectRatio st)
            (if truthy_opt (referenceImage st) then referenceImage st else None)
            (useProMode st) w
    with
    | (Return url, w1, t) =>
        (during false (Some url) (looks_like_video url) EmptyString,
         w1, map Svc t)
    | (Throw err, w1, t) =>
        (during false None (isVideo st) EmptyString, w1,
         (map Svc t ++ [ConsoleError EmptyString err])%list)
    | (Pending, w1, t) => (during true None (isVideo st) status, w1, map Svc t)
    end.

End Handlers.

End VideoGen.

(* ================================================================== *)
(** ** components/ChatInterface.tsx (lines 6-60) *)

Module ChatInterface.

Import Js.
Import GeminiService.
Import GeminiServiceRest.

Inductive Role : Type := User | Model.

Record Citation : Type := { cite_uri : string; cite_title : string }.

Record ChatMessage : Type :=
  { msg_role : Role;
    msg_text : string;
    isError : bool;
    groundingUrls : option (list Citation) }.

Record State : Type :=
  { input : string;
    messages : list ChatMessage;
    loading : bool;
    useSearch : bool }.

(** A code point that [trim] removes, read off the front of a UTF-8
    string: the white space and line terminators of ECMAScript. *)
Definition strip_space (s : string) : option string :=
  match s with
  | String c r =>
      let n := N_of_ascii c in
      if ((9 <=? n) && (n <=? 13) || (n =? 32))%N then Some r
      else
        match r with
        | String d r1 =>
            let m := N_of_ascii d in
            if ((n =? 194) && (m =? 160))%N then Some r1          (* U+00A0 *)
            else
              match r1 with
              | String e r2 =>
                  let k := N_of_ascii e in
                  if ((n =? 225) && (m =? 154) && (k =? 128))%N   (* U+1680 *)
                     || ((n =? 226) && (m =? 128)
                         && ((128 <=? k) && (k <=? 138)           (* U+2000-200A *)
                             || (k =? 168) || (k =? 169)          (* U+2028, U+2029 *)
                             || (k =? 175)))%N                    (* U+202F *)
                     || ((n =? 226) && (m =? 129) && (k =? 159))%N (* U+205F *)
                     || ((n =? 227) && (m =? 128) && (k =? 128))%N (* U+3000 *)
                     || ((n =? 239) && (m =? 187) && (k =? 191))%N (* U+FEFF *)
                  then Some r2 else None
              | EmptyString => None
              end
        | EmptyString => None
        end
  | EmptyString => None
  end.

(** [!input.trim()]: nothing but white space; [n] bounds the number of
    code points looked at. *)
Fixpoint blank_upto (n : nat) (s : string) : bool :=
  match s with
  | EmptyString => true
  | _ =>
      match n with
      | O => false
      | S n' =>
          match strip_space s with
          | Some r => blank_upto n' r
          | None => false
          end
      end
  end.

Definition blank (s : string) : bool := blank_upto (String.length s) s.

(** Lines 31-34. *)
Definition to_content (m : ChatMessage) : ChatContent :=
  {| role := match msg_role m with User => "user" | Model => "model" end;
     parts_text := [msg_text m] |}.

(** Lines 41-43: one citation for each chunk that has a web address. *)
Definition citations (chunks : list GroundingChunk) : list Citation :=
  flat_map
    (fun chunk =>
       match web chunk with
       | Some wb =>
           match uri wb with
           | Some u =>
               if JsString.truthy u
               then [ {| cite_uri := u;
                         cite_title := JsString.opt_or_else (title wb) u |} ]
               else []
           | None => []
           end
       | None => []
       end)
    chunks.

Definition apology : string :=
  "Sorry, I encountered an error processing your request.".

(** [handleSend] is asynchronous and nothing keeps it from being entered
    again while a request is pending: the button is disabled then, the
    Enter key is not.  It is embedded as its two halves, between which
    anything may happen to the component. *)

(** What a call of [handleSend] asks of the service (lines 30-36): the
    conversation as it stands, without the new message, the text typed
    and the search flag; nothing on a blank input. *)
Definition handleSend_request (st : State)
  : option (list ChatContent * string * bool) :=
  if blank (input st) then None
  else Some (map to_content (messages st), input st, useSearch st).

(** Lines 22-27: up to the call of the service. *)
Definition handleSend_start (st : State) : State :=
  if blank (input st) then st
  else
    let userMsg :=
      {| msg_role := User; msg_text := input st; isError := false;
         groundingUrls := None |} in
    {| input := EmptyString;
       messages := (messages st ++ [userMsg])%list;
       loading := true; useSearch := useSearch st |}.

(** Lines 38-45: the message made of an answer. *)
Definition modelMsg (response : ChatReply) : ChatMessage :=
  {| msg_role := Model; msg_text := reply_text response;
     isError := false;
     groundingUrls :=
       match groundingChunks response with
       | Some chunks => Some (citations chunks)
       | None => None
       end |}.

(** Line 48: the message shown for a failure. *)
Definition errorMsg : ChatMessage :=
  {| msg_role := Model; msg_text := apology; isError := true;
     groundingUrls := None |}.

(** How a call of the service settles. *)
Inductive settlement : Type :=
| Answered (response : ChatReply)
| Rejected (err : thrown).

Definition reply_of (o : settlement) : ChatMessage :=
  match o with
  | Answered response => modelMsg response
  | Rejected _ => errorMsg
  end.

(** Lines 46-51: once the call has settled; the updates are functional,
    so they apply to the conversation as it stands by then. *)
Definition handleSend_settled (o : settlement) (st : State) : State :=
  {| input := input st;
     messages := (messages st ++ [reply_of o])%list;
     loading := false; useSearch := useSearch st |}.

(** What happens to the chat, one event at a time. *)
Inductive action : Type :=
| Typed (text : string)           (* [onChange] of the text area *)
| SearchToggled                   (* [onChange] of the check box *)
| Send                            (* the button or the Enter key *)
| Settled (o : settlement).       (* a pending request settles *)

Definition step (a : action) (st : State) : State :=
  match a with
  | Typed text =>
      {| input := text; messages := messages st; loading := loading st;
         useSearch := useSearch st |}
  | SearchToggled =>
      {| input := input st; messages := messages st; loading := loading st;
         useSearch := negb (useSearch st) |}
  | Send => handleSend_start st
  | Settled o => handleSend_settled o st
  end.

Definition run (actions : list action) (st : State) : State :=
  fold_left (fun s a => step a s) actions st.

(** Events that leave the conversation alone. *)
Definition silent (a : action) : bool :=
  match a with
  | Typed _ | SearchToggled => true
  | Send | Settled _ => false
  end.

End ChatInterface.

(* ================================================================== *)
(** ** Readings of traces, results and strings used in the statements *)

Module Readings.

Import Js.
Import GeminiService.

(** Every request for a key comes right after the gateway's warning. *)
Fixpoint announced (t : list event) : bool :=
  match t with
  | [] => true
  | Warn text None :: OpenSelectKey :: rest =>
      String.eqb text prompting_warning && announced rest
  | OpenSelectKey :: _ => false
  | _ :: rest => announced rest
  end.

Definition header : string := "data:image/png;base64,".

(** A PNG data URI with something after the header. *)
Definition png_data_uri (uri : string) : Prop :=
  exists payload, uri = header ++ payload /\ payload <> EmptyString.

(** The character does not occur in the string. *)
Definition free_of (c : ascii) (s : string) : Prop :=
  JsString.indexOf s c = (-1)%Z.


Definition settled {A} (o : outcome A) : bool :=
  match o with
  | Pending => false
  | _ => true
  end.

End Readings.

(* ================================================================== *)
(** ** Scripted collaborators for the remaining examples *)

Module DemoRest.

Import Js.
Import GeminiService.
Import GeminiServiceRest.

(** A video job is the number of status requests it still needs. *)
Definition VideoOperation : Type := nat.
Definition done (job : VideoOperation) : bool := Nat.eqb job 0.
Definition video_uri (job : VideoOperation) : option string :=
  Some "https://videos.example/clip?alt=media".
Definition generateVideos (apiKey : string) (req : VideoRequest)
  : Demo.World -> outcome VideoOperation * Demo.World :=
  fun w => (Return 2, S w).
Definition getVideosOperation (apiKey : string) (job : VideoOperation)
  : Demo.World -> outcome VideoOperation * Demo.World :=
  fun w => (Return (Nat.pred job), S w).
Definition setTimeout (ms : Z) : Demo.World -> Demo.World := fun w => w.

Definition FetchResponse : Type := bool.
Definition Blob : Type := unit.
Definition ok (res : FetchResponse) : bool := res.
Definition statusText (res : FetchResponse) : string :=
  if res then "OK" else "Forbidden".
Definition fetch (url : string)
  : Demo.World -> outcome FetchResponse * Demo.World :=
  fun w => (Return true, S w).
Definition res_blob (res : FetchResponse)
  : Demo.World -> outcome Blob * Demo.World :=
  fun w => (Return tt, w).
Definition createObjectURL (blob : Blob) : Demo.World -> string * Demo.World :=
  fun w => ("blob:https://studio.example/1", w).


End DemoRest.

(* ================================================================== *)
(** ** Facts about the string methods *)

Module JsStringFacts.

Import JsString.

Lemma prefix_app (p post : string) : String.prefix p (p ++ post) = true.
Proof.
  induction p as [|a p IH]; simpl.
  - destruct post; reflexivity.
  - destruct (Ascii.ascii_dec a a) as [_|n]; [exact IH | congruence].
Qed.

Lemma prefix_split (p s : string) :
  String.prefix p s = true -> exists post, s = p ++ post.
Proof.
  revert s; induction p as [|a p IH]; intros s H.
  - exists s; reflexivity.
  - destruct s as [|b s]; simpl in H; [discriminate|].
    destruct (Ascii.ascii_dec a b) as [->|]; [|discriminate].
    destruct (IH _ H) as [post ->]. exists post; reflexivity.
Qed.

Lemma includes_unfold (s sub : string) :
  includes s sub =
  if String.prefix sub s then true
  else match s with
       | EmptyString => false
       | String _ s' => includes s' sub
       end.
Proof. destruct s; reflexivity. Qed.

Lemma includes_Contains (s sub : string) :
  includes s sub = true <-> Contains s sub.
Proof.
  split.
  - induction s as [|a s IH]; rewrite includes_unfold;
      destruct (String.prefix sub _) eqn:P; intros H.
    + apply prefix_split in P as [post ->]. exists EmptyString, post; reflexivity.
    + discriminate.
    + apply prefix_split in P as [post ->]. exists EmptyString, post; reflexivity.
    + destruct (IH H) as (pre & post & ->).
      exists (String a pre), post; reflexivity.
  - intros (pre & post & ->).
    induction pre as [|a pre IH]; rewrite includes_unfold.
    + simpl. now rewrite prefix_app.
    + destruct (String.prefix sub _); [reflexivity | exact IH].
Qed.

Lemma includes_false_iff (s sub : string) :
  includes s sub = false <-> ~ Contains s sub.
Proof.
  rewrite <- includes_Contains. destruct (includes s sub); split; intros; congruence.
Qed.

Lemma indexOf_none_app (s : string) (c : ascii) :
  indexOf s c = (-1)%Z -> forall pre post, s <> pre ++ String c post.
Proof.
  induction s as [|a s IH]; intros H pre post E.
  - destruct pre; discriminate.
  - simpl in H. destruct (Ascii.eqb a c) eqn:Eq; [discriminate|].
    destruct (indexOf s c =? -1)%Z eqn:Ei.
    + apply Z.eqb_eq in Ei.
      destruct pre as [|b pre]; simpl in E; inversion E; subst.
      * rewrite Ascii.eqb_refl in Eq; discriminate.
      * eapply IH; eauto.
    + apply Z.eqb_neq in Ei.
      assert (-1 <= indexOf s c)%Z.
      { clear. induction s as [|x s IHs]; simpl; [lia|].
        destruct (Ascii.eqb x c); [lia|].
        destruct (indexOf s c =? -1)%Z; lia. }
      lia.
Qed.

Lemma append_nil_r (s : string) : s ++ EmptyString = s.
Proof. induction s as [|a s IH]; simpl; [reflexivity | now rewrite IH]. Qed.

Lemma append_assoc (a b c : string) : (a ++ b) ++ c = a ++ (b ++ c).
Proof. induction a as [|x a IH]; simpl; [reflexivity | now rewrite IH]. Qed.

End JsStringFacts.

(* ================================================================== *)
(** ** Facts about the JSON reader *)

Module JsonFacts.

Import Json.

(** *** No parser hands back more text than it was given *)

Lemma skip_ws_length (s : string) :
  String.length (skip_ws s) <= String.length s.
Proof.
  induction s as [|c s IH]; simpl; [lia|].
  destruct (is_ws c); simpl; lia.
Qed.

Lemma skip_ws_cons_length (s r : string) (c : ascii) :
  skip_ws s = String c r -> String.length r < String.length s.
Proof.
  intros H. pose proof (skip_ws_length s) as L. rewrite H in L.
  simpl in L. lia.
Qed.

Lemma parse_chars_length (n : nat) :
  forall s acc items r,
    String.length s <= n ->
    parse_chars s acc = Some (items, r) ->
    String.length r <= String.length s.
Proof.
  induction n as [|n IH]; intros s acc items r L H.
  - destruct s; [discriminate | simpl in L; lia].
  - destruct s as [|c s]; [discriminate|]. simpl in L, H.
    destruct (Ascii.eqb c dquote).
    { inversion H; subst; simpl; lia. }
    destruct (Ascii.eqb c backslash).
    { destruct s as [|e r1]; [discriminate|]. simpl in L.
      destruct (simple_escape e).
      { apply IH in H; simpl; lia. }
      destruct (Ascii.eqb e "u"%char); [|discriminate].
      destruct r1 as [|h1 [|h2 [|h3 [|h4 r2]]]]; try discriminate.
      destruct (hex4 h1 h2 h3 h4); [|discriminate].
      simpl in L. apply IH in H; simpl; lia. }
    destruct (N_of_ascii c <? 32)%N; [discriminate|].
    apply IH in H; simpl; lia.
Qed.

Lemma parse_string_length (s str r : string) :
  parse_string s = Some (str, r) -> String.length r <= String.length s.
Proof.
  unfold parse_string.
  destruct (parse_chars s []) as [[items r']|] eqn:E; [|discriminate].
  intros H; inversion H; subst.
  eapply parse_chars_length; eauto.
Qed.

Lemma take_digits_length (s : string) :
  String.length (snd (take_digits s)) <= String.length s.
Proof.
  induction s as [|c s IH]; simpl; [lia|].
  destruct (is_digit c); simpl; [|lia].
  destruct (take_digits s); simpl in *; lia.
Qed.

Lemma parse_number_length (s r : string) (v : json) :
  parse_number s = Some (v, r) -> String.length r <= String.length s.
Proof.
  unfold parse_number.
  set (p := match s with
            | EmptyString => (false, s)
            | String c r0 =>
                if Ascii.eqb c "-"%char then (true, r0) else (false, s)
            end).
  assert (L1 : String.length (snd p) <= String.length s).
  { subst p. destruct s as [|c r0]; simpl; [lia|].
    destruct (Ascii.eqb c "-"%char); simpl; lia. }
  destruct p as [neg s1]. simpl in L1.
  destruct (parse_int_part s1) as [[ip s2]|] eqn:E1; [|discriminate].
  assert (L2 : String.length s2 <= String.length s1).
  { unfold parse_int_part in E1. destruct s1 as [|c r1]; [discriminate|].
    destruct (Ascii.eqb c "0"%char).
    - inversion E1; subst; simpl; lia.
    - destruct (is_digit c); [|discriminate].
      pose proof (take_digits_length (String c r1)) as T.
      assert (E : take_digits (String c r1) = (ip, s2)) by congruence.
      rewrite E in T. exact T. }
  destruct (parse_frac s2) as [[fp s3]|] eqn:E2; [|discriminate].
  assert (L3 : String.length s3 <= String.length s2).
  { unfold parse_frac in E2. destruct s2 as [|c r2].
    - inversion E2; subst; simpl; lia.
    - destruct (Ascii.eqb c "."%char).
      + pose proof (take_digits_length r2) as T.
        destruct (take_digits r2) as [[|d ds] r']; [discriminate|].
        inversion E2; subst. simpl in *; lia.
      + inversion E2; subst; simpl; lia. }
  destruct (parse_exp s3) as [[ex s4]|] eqn:E3; [|discriminate].
  assert (L4 : String.length s4 <= String.length s3).
  { unfold parse_exp in E3. destruct s3 as [|c r3].
    - inversion E3; subst; simpl; lia.
    - destruct (Ascii.eqb c "e"%char || Ascii.eqb c "E"%char).
      + set (q := match r3 with
                  | EmptyString => (false, r3)
                  | String sg r' =>
                      if Ascii.eqb sg "-"%char then (true, r')
                      else if Ascii.eqb sg "+"%char then (false, r')
                      else (false, r3)
                  end) in E3.
        assert (Lq : String.length (snd q) <= String.length r3).
        { subst q. destruct r3 as [|sg r']; simpl; [lia|].
          destruct (Ascii.eqb sg "-"%char); simpl; [lia|].
          destruct (Ascii.eqb sg "+"%char); simpl; lia. }
        destruct q as [neg' r1]. simpl in Lq.
        pose proof (take_digits_length r1) as T.
        destruct (take_digits r1) as [[|d ds] r2]; [discriminate|].
        inversion E3; subst. simpl in *; lia.
      + inversion E3; subst; simpl; lia. }
  intros H; inversion H; subst. lia.
Qed.

Lemma substring_length (s : string) :
  forall n m, String.length (String.substring n m s) <= String.length s.
Proof.
  induction s as [|c s IH]; intros n m.
  - destruct n, m; simpl; lia.
  - destruct n as [|n]; simpl.
    + destruct m as [|m]; simpl; [lia|]. specialize (IH 0 m). lia.
    + specialize (IH n m). lia.
Qed.

Lemma parse_literal_length (s r : string) (v : json) :
  parse_literal s = Some (v, r) -> String.length r <= String.length s.
Proof.
  unfold parse_literal, drop.
  destruct (String.prefix "true" s);
    [intros H; inversion H; subst; apply substring_length|].
  destruct (String.prefix "false" s);
    [intros H; inversion H; subst; apply substring_length|].
  destruct (String.prefix "null" s);
    [intros H; inversion H; subst; apply substring_length|].
  discriminate.
Qed.

(** *** More fuel never changes an answer *)

Lemma fuel_mono (f : nat) :
  (forall s r, parse_value f s = Some r ->
               forall f', f <= f' -> parse_value f' s = Some r)
  /\ (forall s acc r, parse_elements f s acc = Some r ->
                      forall f', f <= f' -> parse_elements f' s acc = Some r)
  /\ (forall s acc r, parse_members f s acc = Some r ->
                      forall f', f <= f' -> parse_members f' s acc = Some r).
Proof.
  induction f as [|f (IHv & IHe & IHm)].
  - repeat split; intros; discriminate.
  - repeat split; intros s; [intros r H f' L | intros acc r H f' L ..];
      (destruct f' as [|f']; [lia|]); apply le_S_n in L; simpl in H |- *.
    + destruct (skip_ws s) as [|c r0]; [discriminate|].
      destruct (Ascii.eqb c "{"%char).
      { destruct (skip_ws r0) as [|c' r']; [discriminate|].
        destruct (Ascii.eqb c' "}"%char); [exact H | eapply IHm; eauto]. }
      destruct (Ascii.eqb c "["%char).
      { destruct (skip_ws r0) as [|c' r']; [discriminate|].
        destruct (Ascii.eqb c' "]"%char); [exact H | eapply IHe; eauto]. }
      exact H.
    + destruct (parse_value f s) as [[v r1]|] eqn:E; [|discriminate].
      rewrite (IHv _ _ E f' L).
      destruct (skip_ws r1) as [|c r']; [discriminate|].
      destruct (Ascii.eqb c ","%char); [eapply IHe; eauto | exact H].
    + destruct (skip_ws s) as [|q r0]; [discriminate|].
      destruct (Ascii.eqb q dquote); [|discriminate].
      destruct (parse_string r0) as [[k r1]|]; [|discriminate].
      destruct (skip_ws r1) as [|c r2]; [discriminate|].
      destruct (Ascii.eqb c ":"%char); [|discriminate].
      destruct (parse_value f r2) as [[v r3]|] eqn:E; [|discriminate].
      rewrite (IHv _ _ E f' L).
      destruct (skip_ws r3) as [|d r4]; [discriminate|].
      destruct (Ascii.eqb d ","%char); [eapply IHm; eauto | exact H].
Qed.

(** *** Two units of fuel for each character consumed are enough *)

Lemma fuel_bound (f : nat) :
  (forall s v r,
      parse_value f s = Some (v, r) ->
      String.length r <= String.length s
      /\ parse_value (enough s r) s = Some (v, r))
  /\ (forall s acc v r,
         parse_elements f s acc = Some (v, r) ->
         String.length r <= String.length s
         /\ parse_elements (enough s r) s acc = Some (v, r))
  /\ (forall s acc v r,
         parse_members f s acc = Some (v, r) ->
         String.length r <= String.length s
         /\ parse_members (enough s r) s acc = Some (v, r)).
Proof.
  induction f as [|f (IHv & IHe & IHm)];
    [repeat split; intros; discriminate|].
  split; [|split].
  - intros s v r H. unfold enough.
    remember (2 * (String.length s - String.length r)) as g eqn:Hg.
    rewrite Nat.add_1_r. simpl in H |- *.
    pose proof (skip_ws_length s) as Ls.
    destruct (skip_ws s) as [|c r0]; [discriminate|]. simpl in Ls.
    destruct (Ascii.eqb c "{"%char).
    { pose proof (skip_ws_length r0) as Lr.
      destruct (skip_ws r0) as [|c' r']; [discriminate|]. simpl in Lr.
      destruct (Ascii.eqb c' "}"%char).
      - inversion H; subst. split; [lia | reflexivity].
      - destruct (IHm _ _ _ _ H) as [L E]. simpl in L.
        split; [lia|].
        apply (proj2 (proj2 (fuel_mono _)) _ _ _ E).
        unfold enough. cbn [String.length]. lia. }
    destruct (Ascii.eqb c "["%char).
    { pose proof (skip_ws_length r0) as Lr.
      destruct (skip_ws r0) as [|c' r']; [discriminate|]. simpl in Lr.
      destruct (Ascii.eqb c' "]"%char).
      - inversion H; subst. split; [lia | reflexivity].
      - destruct (IHe _ _ _ _ H) as [L E]. simpl in L.
        split; [lia|].
        apply (proj1 (proj2 (fuel_mono _)) _ _ _ E).
        unfold enough. cbn [String.length]. lia. }
    destruct (Ascii.eqb c dquote).
    { destruct (parse_string r0) as [[str r']|] eqn:P; [|discriminate].
      apply parse_string_length in P.
      inversion H; subst. split; [lia | reflexivity]. }
    destruct (Ascii.eqb c "-"%char || is_digit c).
    { split; [|exact H]. apply parse_number_length in H. simpl in H. lia. }
    split; [|exact H]. apply parse_literal_length in H. simpl in H. lia.
  - intros s acc v r H. unfold enough.
    remember (2 * (String.length s - String.length r)) as g eqn:Hg.
    rewrite Nat.add_1_r. simpl in H |- *.
    destruct (parse_value f s) as [[v1 r1]|] eqn:E; [|discriminate].
    destruct (IHv _ _ _ E) as [L1 E1].
    pose proof (skip_ws_length r1) as Lr.
    destruct (skip_ws r1) as [|c r'] eqn:Es; [discriminate|]. simpl in Lr.
    assert (Lfin : String.length r <= String.length r').
    { destruct (Ascii.eqb c ","%char).
      - apply IHe in H. tauto.
      - destruct (Ascii.eqb c "]"%char); [|discriminate].
        inversion H; subst; lia. }
    rewrite (proj1 (fuel_mono _) _ _ E1 g)
      by (unfold enough; lia).
    rewrite Es.
    destruct (Ascii.eqb c ","%char).
    + destruct (IHe _ _ _ _ H) as [L2 E2]. split; [lia|].
      apply (proj1 (proj2 (fuel_mono _)) _ _ _ E2).
      unfold enough. lia.
    + split; [lia | exact H].
  - intros s acc v r H. unfold enough.
    remember (2 * (String.length s - String.length r)) as g eqn:Hg.
    rewrite Nat.add_1_r. simpl in H |- *.
    pose proof (skip_ws_length s) as Ls.
    destruct (skip_ws s) as [|q r0]; [discriminate|]. simpl in Ls.
    destruct (Ascii.eqb q dquote); [|discriminate].
    destruct (parse_string r0) as [[k r1]|] eqn:P; [|discriminate].
    apply parse_string_length in P.
    pose proof (skip_ws_length r1) as L1.
    destruct (skip_ws r1) as [|c r2]; [discriminate|]. simpl in L1.
    destruct (Ascii.eqb c ":"%char); [|discriminate].
    destruct (parse_value f r2) as [[v3 r3]|] eqn:E; [|discriminate].
    destruct (IHv _ _ _ E) as [L3 E3].
    pose proof (skip_ws_length r3) as L4.
    destruct (skip_ws r3) as [|d r4] eqn:Es; [discriminate|]. simpl in L4.
    assert (Lfin : String.length r <= String.length r4).
    { destruct (Ascii.eqb d ","%char).
      - apply IHm in H. tauto.
      - destruct (Ascii.eqb d "}"%char); [|discriminate].
        inversion H; subst; lia. }
    rewrite (proj1 (fuel_mono _) _ _ E3 g)
      by (unfold enough; lia).
    rewrite Es.
    destruct (Ascii.eqb d ","%char).
    + destruct (IHm _ _ _ _ H) as [L5 E5]. split; [lia|].
      apply (proj2 (proj2 (fuel_mono _)) _ _ _ E5).
      unfold enough. lia.
    + split; [lia | exact H].
Qed.

(** The fuel of [JSON_parse] is never what makes it fail: any larger
    amount gives the same parse. *)
Theorem JSON_parse_fuel (text : string) (fuel : nat) :
  2 * String.length text + 2 <= fuel ->
  parse_value fuel text = parse_value (2 * String.length text + 2) text.
Proof.
  intros L.
  destruct (parse_value fuel text) as [[v r]|] eqn:E.
  - destruct (proj1 (fuel_bound fuel) _ _ _ E) as [Lr E'].
    symmetry. apply (proj1 (fuel_mono _) _ _ E').
    unfold enough. lia.
  - destruct (parse_value (2 * String.length text + 2) text) as [x|] eqn:E';
      [|reflexivity].
    rewrite (proj1 (fuel_mono _) _ _ E' fuel L) in E. discriminate.
Qed.

End JsonFacts.

(* ================================================================== *)
(** ** Facts about the classification *)

Module ClassifyFacts.

Import Json.
Import Js.
Import GeminiService.

Lemma any_includes_string (s : string) (ps : list string) :
  any_includes (JString s) ps = Some (existsb (JsString.includes s) ps).
Proof.
  induction ps as [|p ps IH]; simpl; [reflexivity|].
  destruct (JsString.includes s p); [reflexivity | exact IH].
Qed.

Lemma any_includes_array (items : list json) (ps : list string) :
  any_includes (JArray items) ps =
  Some (existsb
          (fun p => existsb (fun x => is_string (Some x) p) items) ps).
Proof.
  induction ps as [|p ps IH]; simpl; [reflexivity|].
  destruct (existsb _ items); [reflexivity | exact IH].
Qed.

Local Ltac unchanged := right; left; eexists; reflexivity.



Lemma classify_text (error : thrown) (m : string) :
  extract_message error = Text m -> classify error = classify_message m.
Proof. unfold classify; intros ->; reflexivity. Qed.

(** A verdict is reached exactly on the failures that have a text. *)
Lemma classify_some_text (error : thrown) (v : Verdict) :
  classify error = Some v ->
  exists m, extract_message error = Text m /\ classify_message m = Some v.
Proof.
  unfold classify. destruct (extract_message error) as [m| |e];
    try discriminate. eauto.
Qed.

(** The verdict depends on the failure through its message alone. *)
Lemma classify_by_message (e1 e2 : thrown) :
  extract_message e1 = extract_message e2 -> classify e1 = classify e2.
Proof. unfold classify; intros ->; reflexivity. Qed.

(** Without a parseable fragment the working message is the message read
    off the failure, and the verdict is the pattern test on it. *)
Lemma classify_without_json (error : thrown) (m : string) :
  extract_message error = Text m ->
  embedded_json m = None ->
  classify error =
  Some {| isPermissionError := existsb (JsString.includes m) patterns;
          msg := JString m |}.
Proof.
  intros X. rewrite (classify_text _ _ X).
  unfold embedded_json, classify_message, parse_step; intros H.
  destruct (json_fragment _); [rewrite H|];
    unfold fallback_step; simpl isPermissionError; cbv iota;
    simpl msg; rewrite any_includes_string; reflexivity.
Qed.

Lemma fixed_message_not_retryable (error : thrown) (v : Verdict) :
  classify error = Some v ->
  isPermissionError v = true ->
  extract_message error <> Text fixed_message.
Proof.
  unfold classify; intros C P E. rewrite E in C.
  vm_compute in C. inversion C; subst. discriminate.
Qed.

Lemma parse_step_without_json (m : string) :
  embedded_json m = None ->
  parse_step m = {| isPermissionError := false; msg := JString m |}.
Proof.
  unfold embedded_json, parse_step.
  destruct (json_fragment m); [intros ->|]; reflexivity.
Qed.

(** Step 2 on a message whose fragment parses to an object with a truthy
    [error]. *)
Lemma parse_step_descriptor (m frag : string) (parsed err : json) :
  json_fragment m = Some frag ->
  JSON_parse frag = Some parsed ->
  get "error" parsed = Some err ->
  truthy (Some err) = true ->
  parse_step m =
  match descriptor_matches err with
  | None => {| isPermissionError := false; msg := JString m |}
  | Some matched =>
      {| isPermissionError := matched;
         msg := match get "message" err with
                | Some nested =>
                    if truthy (Some nested) then nested else JString m
                | None => JString m
                end |}
  end.
Proof.
  intros F P G Tr. unfold parse_step. rewrite F, P.
  destruct parsed; try discriminate G.
  rewrite G, Tr. reflexivity.
Qed.

Lemma quota_is_a_pattern : In "quota" patterns.
Proof. unfold patterns; simpl; tauto. Qed.

(** C2 (amended).  A failure whose working message -- the message read
    off the failure, or the nested message that replaced it -- is a
    string containing the word quota is classified retryable. *)
Theorem quota_in_working_message (error : thrown) (m s : string) :
  extract_message error = Text m ->
  msg (parse_step m) = JString s ->
  JsString.Contains s "quota" ->
  exists v, classify error = Some v
            /\ isPermissionError v = true
            /\ msg v = JString s.
Proof.
  intros X M Q. rewrite (classify_text _ _ X).
  unfold classify_message, fallback_step.
  destruct (isPermissionError (parse_step m)) eqn:P.
  - eexists; repeat split; eauto.
  - rewrite M, any_includes_string.
    eexists; repeat split. cbn [isPermissionError].
    apply existsb_exists. exists "quota"; split.
    + exact quota_is_a_pattern.
    + now apply JsStringFacts.includes_Contains.
Qed.

(** C3 (amended).  For a failure whose message embeds a parseable
    fragment with a nested error descriptor: the failure is retryable
    exactly when the descriptor is in the table or the working message
    contains one of the fixed patterns; a nested message that is a
    non-empty string becomes the working message; and the fragment of
    the example gives a retryable verdict with message [no access]. *)
Theorem descriptor_classification (error : thrown) (m frag : string)
  (parsed err : json) :
  extract_message error = Text m ->
  json_fragment m = Some frag ->
  JSON_parse frag = Some parsed ->
  get "error" parsed = Some err ->
  truthy (Some err) = true ->
  exists v,
    classify error = Some v
    /\ isPermissionError v = descriptor_listed err || pattern_hit (msg v)
    /\ (forall nested,
           get "message" err = Some (JString nested) ->
           nested <> EmptyString ->
           msg v = JString nested)
    /\ (frag = js "{'error':{'code':403,'status':'PERMISSION_DENIED','message':'no access'}}" ->
        v = {| isPermissionError := true; msg := JString "no access" |}).
Proof.
  intros X F P G Tr. rewrite (classify_text _ _ X).
  unfold classify_message. rewrite (parse_step_descriptor _ _ _ _ F P G Tr).
  assert (Ex : frag = js "{'error':{'code':403,'status':'PERMISSION_DENIED','message':'no access'}}" ->
               err = JObject [("code", JNumber 403 0);
                              ("status", JString "PERMISSION_DENIED");
                              ("message", JString "no access")]).
  { intros ->. vm_compute in P. inversion P; subst parsed.
    vm_compute in G. now inversion G. }
  unfold descriptor_matches, descriptor_listed.
  destruct (is_number (get "code" err) 403) eqn:C403.
  { eexists; repeat split.
    - intros nested M N. simpl. rewrite M.
      destruct nested; [congruence | reflexivity].
    - intros E. rewrite (Ex E). reflexivity. }
  assert (NoEx : frag <> js "{'error':{'code':403,'status':'PERMISSION_DENIED','message':'no access'}}").
  { intros E. rewrite (Ex E) in C403. discriminate. }
  destruct (is_string (get "status" err) "PERMISSION_DENIED").
  { eexists; repeat split; [| intros E; destruct (NoEx E)].
    intros nested M N. simpl. rewrite M.
    destruct nested; [congruence | reflexivity]. }
  destruct (is_number (get "code" err) 404).
  { eexists; repeat split; [| intros E; destruct (NoEx E)].
    intros nested M N. simpl. rewrite M.
    destruct nested; [congruence | reflexivity]. }
  destruct (is_string (get "status" err) "NOT_FOUND").
  { eexists; repeat split; [| intros E; destruct (NoEx E)].
    intros nested M N. simpl. rewrite M.
    destruct nested; [congruence | reflexivity]. }
  destruct (is_number (get "code" err) 400).
  { eexists; repeat split; [| intros E; destruct (NoEx E)].
    intros nested M N. simpl. rewrite M.
    destruct nested; [congruence | reflexivity]. }
  cbn [orb].
  destruct (get "message" err) as [nested|] eqn:M.
  2:{ unfold fallback_step; cbn [isPermissionError msg].
      rewrite any_includes_string. eexists; repeat split.
      - unfold pattern_hit. cbn [msg]. now rewrite any_includes_string.
      - intros ? ?; discriminate.
      - intros E; destruct (NoEx E). }
  destruct nested as [|b|n e|s|items|fields]; cbn [truthy includes].
  - (* null *)
    unfold fallback_step; cbn [isPermissionError msg].
    rewrite any_includes_string. eexists; repeat split.
    + unfold pattern_hit. cbn [msg]. now rewrite any_includes_string.
    + intros ? ?; discriminate.
    + intros E; destruct (NoEx E).
  - (* boolean *)
    destruct b;
      unfold fallback_step; cbn [isPermissionError msg];
      rewrite any_includes_string; eexists; repeat split;
      try (unfold pattern_hit; cbn [msg]; now rewrite any_includes_string);
      try (intros ? ?; discriminate);
      intros E; destruct (NoEx E).
  - (* number *)
    destruct (negb (float_eqb (magnitude n e) Zero));
      unfold fallback_step; cbn [isPermissionError msg];
      rewrite any_includes_string; eexists; repeat split;
      try (unfold pattern_hit; cbn [msg]; now rewrite any_includes_string);
      try (intros ? ?; discriminate);
      intros E; destruct (NoEx E).
  - (* string *)
    destruct s as [|c s].
    + cbn [JsString.truthy].
      unfold fallback_step; cbn [isPermissionError msg].
      rewrite any_includes_string. eexists; repeat split.
      * unfold pattern_hit. cbn [msg]. rewrite any_includes_string.
        reflexivity.
      * intros nested Hn N. inversion Hn; subst. congruence.
      * intros E; destruct (NoEx E).
    + cbn [JsString.truthy].
      destruct (JsString.includes (String c s) "quota") eqn:Q.
      * unfold fallback_step; cbn [isPermissionError msg].
        eexists; repeat split.
        -- intros nested Hn N. now inversion Hn.
        -- intros E; destruct (NoEx E).
      * unfold fallback_step; cbn [isPermissionError msg].
        rewrite any_includes_string. eexists; repeat split.
        -- unfold pattern_hit. cbn [msg]. now rewrite any_includes_string.
        -- intros nested Hn N. now inversion Hn.
        -- intros E; destruct (NoEx E).
  - (* array *)
    destruct (existsb (fun x => is_string (Some x) "quota") items) eqn:Q.
    + unfold fallback_step; cbn [isPermissionError msg].
      eexists; repeat split.
      * unfold pattern_hit. cbn [msg]. rewrite any_includes_array.
        symmetry. apply existsb_exists. exists "quota"; split.
        -- exact quota_is_a_pattern.
        -- exact Q.
      * intros ? ?; discriminate.
      * intros E; destruct (NoEx E).
    + unfold fallback_step; cbn [isPermissionError msg].
      rewrite any_includes_array. eexists; repeat split.
      * unfold pattern_hit. cbn [msg]. now rewrite any_includes_array.
      * intros ? ?; discriminate.
      * intros E; destruct (NoEx E).
  - (* object *)
    unfold fallback_step; cbn [isPermissionError msg].
    rewrite any_includes_string. eexists; repeat split.
    + unfold pattern_hit. cbn [msg]. now rewrite any_includes_string.
    + intros ? ?; discriminate.
    + intros E; destruct (NoEx E).
Qed.

(** *** Worked examples *)

Lemma quota_in_working_message_witness :
  exists v,
    classify (ThrownString
                ("ApiError: " ++ js "{'error':{'code':429,'message':'quota exceeded'}}"))
    = Some v
    /\ isPermissionError v = true
    /\ msg v = JString "quota exceeded".
Proof.
  apply (quota_in_working_message
           (ThrownString
              ("ApiError: " ++ js "{'error':{'code':429,'message':'quota exceeded'}}"))
           ("ApiError: " ++ js "{'error':{'code':429,'message':'quota exceeded'}}")
           "quota exceeded" eq_refl eq_refl).
  apply JsStringFacts.includes_Contains. reflexivity.
Defined.

(** C2, as stated, fails: the word quota outside the nested message is
    lost once a nested message without it takes over. *)
Lemma quota_outside_nested_message_is_lost :
  let m := "quota check: " ++ js "{'error':{'code':500,'message':'boom'}}" in
  extract_message (ThrownString m) = Text m
  /\ JsString.Contains m "quota"
  /\ classify (ThrownString m)
     = Some {| isPermissionError := false; msg := JString "boom" |}.
Proof.
  cbv zeta. split; [reflexivity|]. split; [|reflexivity].
  apply JsStringFacts.includes_Contains. reflexivity.
Qed.

Lemma descriptor_classification_witness :
  exists v,
    classify (ThrownError
                ("ApiError: " ++ js "{'error':{'code':403,'status':'PERMISSION_DENIED','message':'no access'}}")
                (Foreign "at generateContent (sdk.js:1:1)"))
    = Some v
    /\ isPermissionError v
       = descriptor_listed
           (JObject [("code", JNumber 403 0);
                     ("status", JString "PERMISSION_DENIED");
                     ("message", JString "no access")])
         || pattern_hit (msg v)
    /\ (forall nested,
           get "message"
             (JObject [("code", JNumber 403 0);
                       ("status", JString "PERMISSION_DENIED");
                       ("message", JString "no access")])
           = Some (JString nested) ->
           nested <> EmptyString ->
           msg v = JString nested)
    /\ (js "{'error':{'code':403,'status':'PERMISSION_DENIED','message':'no access'}}"
        = js "{'error':{'code':403,'status':'PERMISSION_DENIED','message':'no access'}}" ->
        v = {| isPermissionError := true; msg := JString "no access" |}).
Proof.
  apply (descriptor_classification
           (ThrownError
              ("ApiError: " ++ js "{'error':{'code':403,'status':'PERMISSION_DENIED','message':'no access'}}")
              (Foreign "at generateContent (sdk.js:1:1)"))
           ("ApiError: " ++ js "{'error':{'code':403,'status':'PERMISSION_DENIED','message':'no access'}}")
           (js "{'error':{'code':403,'status':'PERMISSION_DENIED','message':'no access'}}")
           (JObject [("error",
                      JObject [("code", JNumber 403 0);
                               ("status", JString "PERMISSION_DENIED");
                               ("message", JString "no access")])])
           (JObject [("code", JNumber 403 0);
                     ("status", JString "PERMISSION_DENIED");
                     ("message", JString "no access")]));
    reflexivity.
Defined.

(** C3, as stated, fails in both of its general parts: a descriptor
    outside the table is still retryable when the working message hits a
    pattern, and an empty nested message does not replace the working
    message. *)
Lemma unlisted_descriptor_can_be_retryable :
  let m := js "{'error':{'code':500,'status':'INTERNAL','message':'upstream answered 403'}}" in
  let err := JObject [("code", JNumber 500 0);
                      ("status", JString "INTERNAL");
                      ("message", JString "upstream answered 403")] in
  let m' := js "{'error':{'code':403,'message':''}}" in
  embedded_json m = Some (JObject [("error", err)])
  /\ descriptor_listed err = false
  /\ classify (ThrownString m)
     = Some {| isPermissionError := true;
               msg := JString "upstream answered 403" |}
  /\ embedded_json m'
     = Some (JObject [("error",
                       JObject [("code", JNumber 403 0);
                                ("message", JString EmptyString)])])
  /\ classify (ThrownString m')
     = Some {| isPermissionError := true; msg := JString m' |}.
Proof. cbv zeta. repeat split. Qed.

End ClassifyFacts.

(* ================================================================== *)
(** ** The gateway *)

Module GatewayFacts.

Import Json.
Import Js.
Import GeminiService.
Import ClassifyFacts.

Lemma invocations_app (a b : list event) :
  invocations (a ++ b) = invocations a + invocations b.
Proof. unfold invocations. now rewrite filter_app, length_app. Qed.

Lemma prompts_app (a b : list event) :
  prompts (a ++ b) = prompts a + prompts b.
Proof. unfold prompts. now rewrite filter_app, length_app. Qed.

Lemma invocations_calls (t : list backend_call) :
  invocations (map Call t) = 0.
Proof. induction t; [reflexivity | exact IHt]. Qed.

Lemma prompts_calls (t : list backend_call) : prompts (map Call t) = 0.
Proof. induction t; [reflexivity | exact IHt]. Qed.

Section Gateway.

Variable World : Type.
Variable aistudio_available : World -> bool.
Variable openSelectKey : World -> outcome unit * World.
Variable T : Type.

Local Abbreviation run :=
  (@runWithAuthRetry World aistudio_available openSelectKey T).
Local Abbreviation handler :=
  (@catch_block World aistudio_available openSelectKey T).

Implicit Types (operation : Thunk World T) (w : World).

Lemma invoke_eq operation w :
  invoke World operation w =
  (result (operation w), world (operation w),
   Invoke :: map Call (trace (operation w))).
Proof.
  unfold invoke, bind, emit, relabel, result, world, trace.
  destruct (operation w) as [[r w1] t]; reflexivity.
Qed.

Lemma run_returns operation requireAuth w a w1 t1 :
  operation w = (Return a, w1, t1) ->
  run operation requireAuth w = (Return a, w1, Invoke :: map Call t1).
Proof.
  intros H. unfold runWithAuthRetry, try_catch.
  rewrite invoke_eq, H; reflexivity.
Qed.

Lemma run_pending operation requireAuth w w1 t1 :
  operation w = (Pending, w1, t1) ->
  run operation requireAuth w = (Pending, w1, Invoke :: map Call t1).
Proof.
  intros H. unfold runWithAuthRetry, try_catch.
  rewrite invoke_eq, H; reflexivity.
Qed.

Lemma run_throws operation requireAuth w e w1 t1 :
  operation w = (Throw e, w1, t1) ->
  run operation requireAuth w =
  (result (handler operation requireAuth e w1),
   world (handler operation requireAuth e w1),
   (Invoke :: map Call t1) ++ trace (handler operation requireAuth e w1))%list.
Proof.
  intros H. unfold runWithAuthRetry, try_catch.
  rewrite invoke_eq, H. unfold result, world, trace; simpl.
  destruct (handler _ _ _ _) as [[r w2] t2]; reflexivity.
Qed.

(** The catch block when it has a verdict and does not prompt. *)
Lemma handler_final operation requireAuth e w1 v :
  classify e = Some v ->
  isPermissionError v && requireAuth && aistudio_available w1 = false ->
  handler operation requireAuth e w1 =
  (Throw (thrown_by_new_Error 99 (msg v)), w1, []).
Proof.
  intros C H. destruct (classify_some_text e v C) as (m & X & Cm).
  unfold catch_block. rewrite X, Cm.
  destruct (isPermissionError v && requireAuth); [|reflexivity].
  simpl in H. rewrite H. reflexivity.
Qed.

(** The catch block whenever it does not prompt: with a verdict, or
    because it throws before it has one. *)
Lemma handler_quiet operation requireAuth e w1 :
  prompting e requireAuth (aistudio_available w1) = false ->
  handler operation requireAuth e w1 = (Throw (final_throw e), w1, []).
Proof.
  unfold prompting, classify, catch_block, final_throw.
  destruct (extract_message e) as [m| |raised]; try reflexivity.
  destruct (classify_message m) as [v|]; [|reflexivity].
  intros H. destruct (isPermissionError v && requireAuth); [|reflexivity].
  simpl in H. rewrite H. reflexivity.
Qed.

(** The catch block when it prompts. *)
Lemma handler_prompts operation requireAuth e w1 v :
  classify e = Some v ->
  isPermissionError v && requireAuth && aistudio_available w1 = true ->
  handler operation requireAuth e w1 =
  match openSelectKey w1 with
  | (Return _, w2) =>
      (second_outcome (result (operation w2)), world (operation w2),
       Warn prompting_warning None :: OpenSelectKey :: Invoke
         :: map Call (trace (operation w2)))
  | (Throw _, w2) =>
      (Throw (new_Error 93 fixed_message), w2,
       [Warn prompting_warning None; OpenSelectKey])
  | (Pending, w2) =>
      (Pending, w2, [Warn prompting_warning None; OpenSelectKey])
  end.
Proof.
  intros C H. destruct (classify_some_text e v C) as (m & X & Cm).
  unfold catch_block. rewrite X, Cm.
  apply andb_true_iff in H as [H1 H2]. rewrite H1, H2.
  unfold bind, try_catch, emit, perform, throw.
  destruct (openSelectKey w1) as [[u| |] w2]; try reflexivity.
  rewrite invoke_eq.
  destruct (operation w2) as [[[a| |] w3] t2]; simpl;
    rewrite ?app_nil_r; reflexivity.
Qed.

Lemma prompting_verdict e requireAuth available :
  prompting e requireAuth available = true ->
  exists v, classify e = Some v
            /\ isPermissionError v && requireAuth && available = true.
Proof.
  unfold prompting. destruct (classify e) as [v|]; [eauto | discriminate].
Qed.


Lemma run_throws_final operation requireAuth w e w1 t1 v :
  operation w = (Throw e, w1, t1) ->
  classify e = Some v ->
  isPermissionError v && requireAuth && aistudio_available w1 = false ->
  run operation requireAuth w =
  (Throw (thrown_by_new_Error 99 (msg v)), w1, Invoke :: map Call t1).
Proof.
  intros H C D. rewrite (run_throws _ _ _ _ _ _ H).
  rewrite (handler_final _ _ _ _ _ C D). simpl.
  now rewrite app_nil_r.
Qed.

Lemma run_throws_quiet operation requireAuth w e w1 t1 :
  operation w = (Throw e, w1, t1) ->
  prompting e requireAuth (aistudio_available w1) = false ->
  run operation requireAuth w =
  (Throw (final_throw e), w1, Invoke :: map Call t1).
Proof.
  intros H D. rewrite (run_throws _ _ _ _ _ _ H).
  rewrite (handler_quiet _ _ _ _ D). simpl.
  now rewrite app_nil_r.
Qed.

Lemma run_throws_prompts operation requireAuth w e w1 t1 v :
  operation w = (Throw e, w1, t1) ->
  classify e = Some v ->
  isPermissionError v && requireAuth && aistudio_available w1 = true ->
  run operation requireAuth w =
  match openSelectKey w1 with
  | (Return _, w2) =>
      (second_outcome (result (operation w2)), world (operation w2),
       (Invoke :: map Call t1) ++
       Warn prompting_warning None :: OpenSelectKey :: Invoke
         :: map Call (trace (operation w2)))%list
  | (Throw _, w2) =>
      (Throw (new_Error 93 fixed_message), w2,
       (Invoke :: map Call t1) ++
       [Warn prompting_warning None; OpenSelectKey])%list
  | (Pending, w2) =>
      (Pending, w2,
       (Invoke :: map Call t1) ++
       [Warn prompting_warning None; OpenSelectKey])%list
  end.
Proof.
  intros H C D. rewrite (run_throws _ _ _ _ _ _ H).
  rewrite (handler_prompts _ _ _ _ _ C D).
  destruct (openSelectKey w1) as [[u| |] w2]; reflexivity.
Qed.

Lemma run_throws_prompting operation requireAuth w e w1 t1 :
  operation w = (Throw e, w1, t1) ->
  prompting e requireAuth (aistudio_available w1) = true ->
  run operation requireAuth w =
  match openSelectKey w1 with
  | (Return _, w2) =>
      (second_outcome (result (operation w2)), world (operation w2),
       (Invoke :: map Call t1) ++
       Warn prompting_warning None :: OpenSelectKey :: Invoke
         :: map Call (trace (operation w2)))%list
  | (Throw _, w2) =>
      (Throw (new_Error 93 fixed_message), w2,
       (Invoke :: map Call t1) ++
       [Warn prompting_warning None; OpenSelectKey])%list
  | (Pending, w2) =>
      (Pending, w2,
       (Invoke :: map Call t1) ++
       [Warn prompting_warning None; OpenSelectKey])%list
  end.
Proof.
  intros H D. destruct (prompting_verdict _ _ _ D) as (v & C & D').
  exact (run_throws_prompts _ _ _ _ _ _ _ H C D').
Qed.

(** The three shapes of a trace. *)
Lemma run_trace_shape operation requireAuth w :
  exists extra,
    trace (run operation requireAuth w) =
    ((Invoke :: map Call (trace (operation w))) ++ extra)%list
    /\ (extra = []
        \/ extra = [Warn prompting_warning None; OpenSelectKey]
        \/ exists w2,
            extra = Warn prompting_warning None :: OpenSelectKey :: Invoke
                      :: map Call (trace (operation w2))).
Proof.
  destruct (operation w) as [[[a|e|] w1] t1] eqn:E.
  - rewrite (run_returns _ _ _ _ _ _ E). exists []; split; auto.
    unfold trace; simpl. now rewrite app_nil_r.
  - destruct (prompting e requireAuth (aistudio_available w1)) eqn:D.
    + rewrite (run_throws_prompting _ _ _ _ _ _ E D).
      destruct (openSelectKey w1) as [[u| |] w2]; eexists; split;
        try reflexivity; eauto.
    + rewrite (run_throws_quiet _ _ _ _ _ _ E D). exists []; split; auto.
      unfold trace; simpl. now rewrite app_nil_r.
  - rewrite (run_pending _ _ _ _ _ E). exists []; split; auto.
    unfold trace; simpl. now rewrite app_nil_r.
Qed.

Local Ltac count :=
  unfold invocations, prompts, trace; simpl;
  rewrite ?filter_app, ?length_app; simpl;
  repeat match goal with
    | |- context [filter is_Invoke (map Call ?t)] =>
        change (List.length (filter is_Invoke (map Call t)))
          with (invocations (map Call t));
        rewrite (invocations_calls t)
    | |- context [filter is_OpenSelectKey (map Call ?t)] =>
        change (List.length (filter is_OpenSelectKey (map Call t)))
          with (prompts (map Call t));
        rewrite (prompts_calls t)
    end;
  simpl; try lia.

(** The trace of a call has one of three shapes, so the operation is
    entered once or twice and the key is asked for at most once. *)
Lemma run_counts operation requireAuth w :
  let r := run operation requireAuth w in
  (invocations (trace r) = 1 /\ prompts (trace r) = 0)
  \/ (invocations (trace r) = 1 /\ prompts (trace r) = 1)
  \/ (invocations (trace r) = 2 /\ prompts (trace r) = 1).
Proof.
  destruct (operation w) as [[[a|e|] w1] t1] eqn:E; cbv zeta.
  - rewrite (run_returns _ _ _ _ _ _ E). left; split; count.
  - destruct (prompting e requireAuth (aistudio_available w1)) eqn:D.
    + rewrite (run_throws_prompting _ _ _ _ _ _ E D).
      destruct (openSelectKey w1) as [[u| |] w2].
      * right; right; split; count.
      * right; left; split; count.
      * right; left; split; count.
    + rewrite (run_throws_quiet _ _ _ _ _ _ E D). left; split; count.
  - rewrite (run_pending _ _ _ _ _ E). left; split; count.
Qed.

(** C4.  Every call of the gateway enters the operation at most twice
    and asks for a key at most once.  When the first attempt succeeds
    its result is returned, with one entry of the operation and no
    prompt, and the trace holds nothing but that attempt.  When a second
    attempt is made and fails, the call ends there: the trace stops
    with the events of that attempt and the world is the one it
    left. *)
Theorem at_most_one_retry operation requireAuth w :
  let r := run operation requireAuth w in
  invocations (trace r) <= 2
  /\ prompts (trace r) <= 1
  /\ (forall a w1 t1,
         operation w = (Return a, w1, t1) ->
         r = (Return a, w1, Invoke :: map Call t1)
         /\ invocations (trace r) = 1 /\ prompts (trace r) = 0)
  /\ (forall e1 w1 t1 u w2 e2 w3 t2,
         operation w = (Throw e1, w1, t1) ->
         invocations (trace r) = 2 ->
         openSelectKey w1 = (Return u, w2) ->
         operation w2 = (Throw e2, w3, t2) ->
         r = (Throw (new_Error 93 fixed_message), w3,
              (Invoke :: map Call t1) ++
              Warn prompting_warning None :: OpenSelectKey :: Invoke
                :: map Call t2)%list).
Proof.
  cbv zeta. pose proof (run_counts operation requireAuth w) as K.
  cbv zeta in K. repeat split; try lia.
  - rewrite (run_returns _ _ _ _ _ _ H); reflexivity.
  - rewrite (run_returns _ _ _ _ _ _ H); count.
  - rewrite (run_returns _ _ _ _ _ _ H); count.
  - intros e1 w1 t1 u w2 e2 w3 t2 E N S2 E2.
    destruct (prompting e1 requireAuth (aistudio_available w1)) eqn:D.
    + rewrite (run_throws_prompting _ _ _ _ _ _ E D), S2, E2.
      reflexivity.
    + rewrite (run_throws_quiet _ _ _ _ _ _ E D) in N.
      revert N; count.
Qed.

(** C1 (amended).  When the first attempt fails with a retryable
    failure, prompting is required, the collaborator is available and
    the selection flow completes, the operation is entered exactly once
    more.  If that attempt succeeds its result is returned as it is; if
    it stays pending so does the call; if it fails, the call fails with
    the fixed message in place of the new failure. *)
Theorem retry_after_key_selection operation w e1 w1 t1 v u w2 o2 w3 t2 :
  operation w = (Throw e1, w1, t1) ->
  classify e1 = Some v ->
  isPermissionError v = true ->
  aistudio_available w1 = true ->
  openSelectKey w1 = (Return u, w2) ->
  operation w2 = (o2, w3, t2) ->
  let r := run operation true w in
  r = (second_outcome o2, w3,
       (Invoke :: map Call t1) ++
       Warn prompting_warning None :: OpenSelectKey :: Invoke
         :: map Call t2)%list
  /\ invocations (trace r) = 2
  /\ prompts (trace r) = 1
  /\ (forall a, o2 = Return a -> result r = Return a)
  /\ (forall e2, o2 = Throw e2 ->
                 result r = Throw (new_Error 93 fixed_message)).
Proof.
  intros E C P A S2 E2 r.
  assert (D : isPermissionError v && true && aistudio_available w1 = true)
    by (rewrite P, A; reflexivity).
  assert (R : r = (second_outcome o2, w3,
                   (Invoke :: map Call t1) ++
                   Warn prompting_warning None :: OpenSelectKey :: Invoke
                     :: map Call t2)%list).
  { unfold r. rewrite (run_throws_prompts _ _ _ _ _ _ _ E C D), S2, E2.
    reflexivity. }
  rewrite R. repeat split; try count.
  - intros a ->; reflexivity.
  - intros e2 ->; reflexivity.
Qed.

(** C5.  When the first attempt fails with a retryable failure,
    prompting is required, the collaborator is available and the
    selection flow itself rejects, the call fails with the fixed
    message, which differs from the message of the original failure,
    and the operation is not entered a second time. *)
Theorem credential_flow_failure operation w e1 w1 t1 v e' w2 :
  operation w = (Throw e1, w1, t1) ->
  classify e1 = Some v ->
  isPermissionError v = true ->
  aistudio_available w1 = true ->
  openSelectKey w1 = (Throw e', w2) ->
  let r := run operation true w in
  r = (Throw (new_Error 93 fixed_message), w2,
       (Invoke :: map Call t1) ++
       [Warn prompting_warning None; OpenSelectKey])%list
  /\ fixed_message = "Connection failed. Please select a valid API Key."
  /\ extract_message e1 <> Text fixed_message
  /\ invocations (trace r) = 1
  /\ prompts (trace r) = 1.
Proof.
  intros E C P A S2 r.
  assert (D : isPermissionError v && true && aistudio_available w1 = true)
    by (rewrite P, A; reflexivity).
  assert (R : r = (Throw (new_Error 93 fixed_message), w2,
                   (Invoke :: map Call t1) ++
                   [Warn prompting_warning None; OpenSelectKey])%list).
  { unfold r. rewrite (run_throws_prompts _ _ _ _ _ _ _ E C D), S2.
    reflexivity. }
  rewrite R. repeat split; try count.
  exact (fixed_message_not_retryable e1 v C P).
Qed.

(** C6.  When the first attempt fails with a message that embeds no
    parseable JSON and contains none of the fixed patterns, the call
    fails at once with that message: the key is not asked for and the
    operation is not entered again, whatever [requireAuth] says. *)
Theorem unmatched_failure_fails_at_once operation requireAuth w e m w1 t1 :
  operation w = (Throw e, w1, t1) ->
  extract_message e = Text m ->
  embedded_json m = None ->
  (forall p, In p patterns -> ~ JsString.Contains m p) ->
  let r := run operation requireAuth w in
  r = (Throw (new_Error 99 m), w1, Invoke :: map Call t1)
  /\ prompts (trace r) = 0
  /\ invocations (trace r) = 1.
Proof.
  intros E M J N r.
  pose proof (classify_without_json e m M J) as C.
  assert (X : existsb (JsString.includes m) patterns = false).
  { destruct (existsb _ patterns) eqn:X; [|reflexivity].
    apply existsb_exists in X as (p & Hin & Hp).
    apply JsStringFacts.includes_Contains in Hp.
    destruct (N p Hin Hp). }
  rewrite X in C.
  assert (R : r = (Throw (new_Error 99 m), w1, Invoke :: map Call t1)).
  { unfold r. now rewrite (run_throws_final _ _ _ _ _ _ _ E C). }
  rewrite R. repeat split; count.
Qed.


End Gateway.

(** *** Worked examples on the scripted world *)

Lemma at_most_one_retry_witness :
  (runWithAuthRetry Demo.World Demo.available Demo.key_selected
     (Demo.scripted (Return 7%nat) (Return 8%nat)) true 0
   = (Return 7%nat, 1, [Invoke]))
  /\ (runWithAuthRetry Demo.World Demo.available Demo.key_selected
        (Demo.scripted (T := nat) (Throw (ThrownString "403"))
           (Throw (ThrownString "still 403"))) true 0
      = (Throw (new_Error 93 fixed_message), 2,
         [Invoke; Warn prompting_warning None; OpenSelectKey; Invoke])).
Proof.
  split.
  - apply (proj1 (proj2 (proj2 (at_most_one_retry
             Demo.World Demo.available Demo.key_selected nat
             (Demo.scripted (Return 7%nat) (Return 8%nat)) true 0)))
             7%nat 1 []).
    reflexivity.
  - apply (proj2 (proj2 (proj2 (at_most_one_retry
             Demo.World Demo.available Demo.key_selected nat
             (Demo.scripted (Throw (ThrownString "403"))
                (Throw (ThrownString "still 403"))) true 0)))
             (ThrownString "403") 1 [] tt 1 (ThrownString "still 403") 2 []);
      reflexivity.
Defined.

Lemma retry_after_key_selection_witness :
  result (runWithAuthRetry Demo.World Demo.available Demo.key_selected
            (Demo.scripted (Throw (ThrownString "403")) (Return 8%nat))
            true 0)
  = Return 8%nat.
Proof.
  apply (proj1 (proj2 (proj2 (proj2 (retry_after_key_selection
           Demo.World Demo.available Demo.key_selected nat
           (Demo.scripted (Throw (ThrownString "403")) (Return 8%nat)) 0
           (ThrownString "403") 1 []
           {| isPermissionError := true; msg := JString "403" |}
           tt 1 (Return 8%nat) 2 []
           eq_refl eq_refl eq_refl eq_refl eq_refl eq_refl))))).
  reflexivity.
Defined.

(** C1, as stated, fails: the retried attempt's own failure is not what
    the caller gets. *)
Lemma second_failure_is_replaced :
  let operation :=
    Demo.scripted (T := nat) (Throw (ThrownString "403"))
      (Throw (ThrownString "model overloaded")) in
  operation 0 = (Throw (ThrownString "403"), 1, [])
  /\ classify (ThrownString "403")
     = Some {| isPermissionError := true; msg := JString "403" |}
  /\ Demo.available 1 = true
  /\ Demo.key_selected 1 = (Return tt, 1)
  /\ operation 1 = (Throw (ThrownString "model overloaded"), 2, [])
  /\ result (runWithAuthRetry Demo.World Demo.available Demo.key_selected
               operation true 0)
     = Throw (new_Error 93 fixed_message)
  /\ result (runWithAuthRetry Demo.World Demo.available Demo.key_selected
               operation true 0)
     <> Throw (ThrownString "model overloaded").
Proof.
  cbv zeta. repeat split; try reflexivity. vm_compute. discriminate.
Qed.

Lemma credential_flow_failure_witness :
  runWithAuthRetry Demo.World Demo.available Demo.key_rejected
    (Demo.scripted (Throw (ThrownString "403")) (Return 8%nat)) true 0
  = (Throw (new_Error 93 fixed_message), 1,
     [Invoke; Warn prompting_warning None; OpenSelectKey]).
Proof.
  apply (proj1 (credential_flow_failure
           Demo.World Demo.available Demo.key_rejected nat
           (Demo.scripted (Throw (ThrownString "403")) (Return 8%nat)) 0
           (ThrownString "403") 1 []
           {| isPermissionError := true; msg := JString "403" |}
           (ThrownString "dialog closed") 1
           eq_refl eq_refl eq_refl eq_refl eq_refl)).
Defined.

Lemma unmatched_failure_fails_at_once_witness :
  runWithAuthRetry Demo.World Demo.available Demo.key_selected
    (Demo.scripted (Throw (ThrownString "connection reset")) (Return 8%nat))
    true 0
  = (Throw (new_Error 99 "connection reset"), 1, [Invoke]).
Proof.
  refine (proj1 (unmatched_failure_fails_at_once
            Demo.World Demo.available Demo.key_selected nat
            (Demo.scripted (Throw (ThrownString "connection reset"))
               (Return 8%nat)) true 0
            (ThrownString "connection reset") "connection reset" 1 []
            eq_refl eq_refl eq_refl _)).
  intros p Hin. apply JsStringFacts.includes_false_iff.
  simpl in Hin.
  repeat (destruct Hin as [<-|Hin]; [reflexivity|]).
  destruct Hin.
Defined.



End GatewayFacts.

(* ================================================================== *)
(** ** The call sites *)

Module CallSiteFacts.

Import Json.
Import Js.
Import GeminiService.
Import GatewayFacts.

(** *** Payload extraction *)

Lemma scan_parts_found (before after : list Part) (p : Part)
  (payload acc : string) :
  Forall no_payload before ->
  inline_payload p = Some payload ->
  scan_parts (before ++ p :: after)%list acc
  = inl ("data:image/png;base64," ++ payload).
Proof.
  intros B P. revert acc.
  induction B as [|q before Hq B IH]; intros acc; simpl.
  - now rewrite P.
  - unfold no_payload in Hq. rewrite Hq. apply IH.
Qed.

Lemma scan_parts_none (ps : list Part) (acc : string) :
  Forall no_payload ps ->
  scan_parts ps acc = inr (acc ++ refusal_text ps).
Proof.
  intros N. revert acc.
  induction N as [|q ps Hq N IH]; intros acc; simpl.
  - now rewrite JsStringFacts.append_nil_r.
  - unfold no_payload in Hq. rewrite Hq, IH.
    destruct (text q) as [[|c t]|]; simpl; try reflexivity.
    now rewrite JsStringFacts.append_assoc.
Qed.

(** C9.  Both copies of the extraction loop return, for the first part
    that carries a payload, the URI made of the header
    [data:image/png;base64,] and that payload, so that what follows the
    header is the payload itself and decodes to the same bytes under any
    decoder.  When no part carries a payload they throw: with the text of
    all parts when there is some, with the no-data message otherwise. *)
Theorem payload_extraction (response : Response) :
  (forall (before : list Part) (p : Part) (after : list Part) payload,
      response_parts response = Some (before ++ p :: after)%list ->
      Forall no_payload before ->
      inline_payload p = Some payload ->
      let uri := "data:image/png;base64," ++ payload in
      extractImageFromResponse response = Return uri
      /\ extract_edited response = Return uri
      /\ uri_payload uri = payload
      /\ forall (Bytes : Type) (decode : string -> Bytes),
          decode (uri_payload uri) = decode payload)
  /\ ((forall ps, response_parts response = Some ps -> Forall no_payload ps) ->
      let refusal :=
        match response_parts response with
        | Some ps => refusal_text ps
        | None => EmptyString
        end in
      extractImageFromResponse response
      = (if JsString.truthy refusal
         then Throw (new_Error 123 ("Model refused: " ++ refusal))
         else Throw (new_Error 124 "No image data returned."))
      /\ extract_edited response
         = (if JsString.truthy refusal
            then Throw (new_Error 189 ("Model unable to edit: " ++ refusal))
            else Throw (new_Error 190 "No edited image returned."))).
Proof.
  split.
  - intros before p after payload R B P uri.
    assert (U : uri_payload uri = payload) by reflexivity.
    unfold extractImageFromResponse, extract_edited, scan_response.
    rewrite R, (scan_parts_found _ _ _ _ _ B P).
    split; [reflexivity|]. split; [reflexivity|]. split; [exact U|].
    intros Bytes decode. now rewrite U.
  - intros N refusal.
    unfold extractImageFromResponse, extract_edited, scan_response.
    subst refusal.
    destruct (response_parts response) as [ps|]; [|split; reflexivity].
    rewrite (scan_parts_none ps EmptyString (N ps eq_refl)).
    split; reflexivity.
Qed.

Lemma payload_extraction_witness :
  extractImageFromResponse (Demo.image_response "QUJD")
  = Return "data:image/png;base64,QUJD"
  /\ extractImageFromResponse {| candidates := Some [] |}
     = Throw (new_Error 124 "No image data returned.").
Proof.
  split.
  - apply (proj1 (payload_extraction (Demo.image_response "QUJD"))
             [ {| inlineData := None; text := Some "Here you go" |} ]
             {| inlineData :=
                  Some {| mimeType := "image/jpeg"; data := Some "QUJD" |};
                text := None |}
             [] "QUJD" eq_refl).
    + repeat constructor.
    + reflexivity.
  - apply (proj2 (payload_extraction {| candidates := Some [] |})).
    intros ps H. discriminate H.
Defined.

(** *** Image generation, image editing and the video redirect *)

Section CallSites.

Variable World : Type.
Variable API_KEY : World -> option string.
Variable aistudio_available : World -> bool.
Variable openSelectKey : World -> outcome unit * World.
Variable generateContent :
  string -> Request -> World -> outcome Response * World.

Local Abbreviation run :=
  (@runWithAuthRetry World aistudio_available openSelectKey string).
Local Abbreviation generate :=
  (models_generateContent World API_KEY generateContent).
Local Abbreviation key := (getClient World API_KEY).

(** An operation that asks a model once and then extracts. *)
Lemma generate_then_trace (req : Request)
  (extract : Response -> outcome string) (w : World) :
  trace (Js.bind (generate req) (fun response => lift (extract response)) w)
  = [GenerateContent (key w) req].
Proof.
  unfold bind, models_generateContent, perform, lift, trace.
  destruct (generateContent (key w) req w) as [[response| |] w1]; reflexivity.
Qed.

Lemma run_quiet (req : Request) (extract : Response -> outcome string)
  (requireAuth : bool) (w : World) :
  Forall quiet
    (trace (run (Js.bind (generate req)
                   (fun response => lift (extract response)))
              requireAuth w)).
Proof.
  destruct (run_trace_shape World aistudio_available openSelectKey string
              (Js.bind (generate req) (fun response => lift (extract response)))
              requireAuth w) as (extra & -> & Hex).
  rewrite generate_then_trace.
  destruct Hex as [->|[->|[w2 ->]]];
    rewrite ?generate_then_trace; repeat constructor.
Qed.

Local Abbreviation generateImage :=
  (generateImage World API_KEY aistudio_available openSelectKey
     generateContent).
Local Abbreviation editImage :=
  (editImage World API_KEY aistudio_available openSelectKey
     generateContent).

(** Tier 1 failing with anything but [null] or [undefined]: a warning,
    then tier 2 through the gateway with prompting required.  Tier 1
    is left behind: what follows is the gateway's call on tier 2,
    which starts by entering the flash operation. *)
Lemma generateImage_falls_back prompt aspectRatio imageSize w e w1 t1 :
  tier1 World API_KEY generateContent prompt aspectRatio imageSize w
  = (Throw e, w1, t1) ->
  e <> ThrownNull ->
  e <> ThrownUndefined ->
  let r2 := run (tier2 World API_KEY generateContent prompt) true w1 in
  generateImage prompt aspectRatio imageSize w
  = (result r2, world r2,
     (map Call t1 ++ Warn fallback_warning (Some e) :: trace r2)%list)
  /\ t1 = [GenerateContent (key w) (pro_request prompt aspectRatio imageSize)]
  /\ exists rest,
      trace r2
      = Invoke :: Call (GenerateContent (key w1) (flash_request prompt)) :: rest.
Proof.
  intros E N1 N2 r2. split; [|split].
  - unfold GeminiService.generateImage, try_catch, relabel. rewrite E.
    destruct e; try congruence;
      unfold bind, emit; fold r2; destruct r2 as [[o w2] t2]; reflexivity.
  - pose proof (generate_then_trace
                  (pro_request prompt aspectRatio imageSize)
                  extractImageFromResponse w) as G.
    unfold tier1 in E. rewrite E in G. exact G.
  - destruct (run_trace_shape World aistudio_available openSelectKey string
                (tier2 World API_KEY generateContent prompt) true w1)
      as (extra & Ht & _).
    unfold tier2 in Ht at 2. rewrite generate_then_trace in Ht.
    exists extra. exact Ht.
Qed.

(** Tier 1 failing with [null] or [undefined]: the handler throws while
    reading [err.message], before the warning and before tier 2. *)
Lemma generateImage_nullish_rejection prompt aspectRatio imageSize w e w1 t1 :
  tier1 World API_KEY generateContent prompt aspectRatio imageSize w
  = (Throw e, w1, t1) ->
  e = ThrownNull \/ e = ThrownUndefined ->
  exists text,
    generateImage prompt aspectRatio imageSize w
    = (Throw (TypeError text), w1, map Call t1).
Proof.
  intros E [->| ->];
    unfold GeminiService.generateImage, try_catch, relabel; rewrite E;
    unfold throw; rewrite app_nil_r; eexists; reflexivity.
Qed.

Lemma generateImage_quiet prompt aspectRatio imageSize w :
  Forall quiet (trace (generateImage prompt aspectRatio imageSize w)).
Proof.
  pose proof (generate_then_trace
                (pro_request prompt aspectRatio imageSize)
                extractImageFromResponse w) as G.
  fold (tier1 World API_KEY generateContent prompt aspectRatio imageSize) in G.
  unfold GeminiService.generateImage, try_catch, relabel.
  destruct (tier1 World API_KEY generateContent prompt aspectRatio imageSize w)
    as [[[uri|e|] w1] t1]; unfold trace in G; simpl in G; subst t1.
  - repeat constructor.
  - pose proof (run_quiet (flash_request prompt) extractImageFromResponse
                  true w1) as Q.
    fold (tier2 World API_KEY generateContent prompt) in Q.
    destruct e; unfold bind, emit, throw;
      try (destruct (run (tier2 World API_KEY generateContent prompt) true w1)
             as [[o w2] t2]; unfold trace in *; simpl in *;
           repeat constructor; exact Q);
      repeat constructor.
  - repeat constructor.
Qed.

Lemma editImage_quiet base64Image prompt mimeType w :
  Forall quiet (trace (editImage base64Image prompt mimeType w)).
Proof. unfold GeminiService.editImage. apply run_quiet. Qed.

(** The rest of the collaborators of [generateVideo]. *)
Variable VideoOperation : Type.
Variable done : VideoOperation -> bool.
Variable video_uri : VideoOperation -> option string.
Variable generateVideos :
  string -> VideoRequest -> World -> outcome VideoOperation * World.
Variable getVideosOperation :
  string -> VideoOperation -> World -> outcome VideoOperation * World.
Variable setTimeout : Z -> World -> World.
Variable FetchResponse : Type.
Variable Blob : Type.
Variable ok : FetchResponse -> bool.
Variable statusText : FetchResponse -> string.
Variable fetch : string -> World -> outcome FetchResponse * World.
Variable res_blob : FetchResponse -> World -> outcome Blob * World.
Variable createObjectURL : Blob -> World -> string * World.

Local Abbreviation generateVideo :=
  (generateVideo World API_KEY aistudio_available openSelectKey
     generateContent VideoOperation done video_uri generateVideos
     getVideosOperation setTimeout FetchResponse Blob ok statusText
     fetch res_blob createObjectURL).

(** C8.  With the pro mode off, [generateVideo] is the image-editing
    call when a reference image is given and the image-generation call
    otherwise: it ends as that call ends, whatever the polling bound,
    and nothing in its trace reaches the video backend. *)
Theorem generateVideo_without_pro_mode fuel prompt aspectRatio
  referenceImage w :
  let r := generateVideo fuel prompt aspectRatio referenceImage false w in
  r = match referenceImage with
      | Some (String c image) =>
          editImage (String c image)
            (JsString.or_else prompt "Enhance this")
            (reference_mime (String c image)) w
      | _ =>
          generateImage (JsString.or_else prompt "Preview")
            match aspectRatio with
            | V16_9 => WIDE_LANDSCAPE
            | V9_16 => WIDE_PORTRAIT
            end K1 w
      end
  /\ Forall quiet (trace r)
  /\ existsb touches_video (trace r) = false.
Proof.
  cbv zeta.
  assert (Q : forall t, Forall quiet t -> existsb touches_video t = false).
  { induction 1 as [|x t Hx _ IH]; simpl; [reflexivity|].
    unfold quiet in Hx. now rewrite Hx. }
  unfold GeminiService.generateVideo.
  destruct referenceImage as [[|c image]|]; simpl negb; cbv iota;
    cbn [truthy_opt JsString.truthy JsString.opt_or_else JsString.or_else].
  - split; [reflexivity|]. split; [|apply Q]; apply generateImage_quiet.
  - split; [reflexivity|]. split; [|apply Q]; apply editImage_quiet.
  - split; [reflexivity|]. split; [|apply Q]; apply generateImage_quiet.
Qed.

End CallSites.

(** C7, at the failing input: when the pro model rejects with [null],
    reading [err.message] throws inside the handler; the call fails with
    that [TypeError], the gateway is never entered and the flash model is
    never asked. *)
Theorem tier1_null_rejection_skips_tier2 :
  let r := generateImage Demo.World Demo.no_key Demo.available Demo.key_selected
             (Demo.client ThrownNull) "a cat" SQUARE K1 0 in
  r = (Throw (TypeError "Cannot read properties of null (reading 'message')"),
       1,
       [Call (GenerateContent "lazy_auth_key" (pro_request "a cat" SQUARE K1))])
  /\ invocations (trace r) = 0
  /\ existsb (calls_model "gemini-2.5-flash-image") (trace r) = false.
Proof. cbv zeta. repeat split. Qed.

(** The same request when the pro model rejects with an [Error]: the
    flash model is asked through the gateway and its image returned. *)
Lemma generateImage_falls_back_example :
  generateImage Demo.World Demo.no_key Demo.available Demo.key_selected
    (Demo.client (ThrownError "503 overloaded" (Foreign "sdk")))
    "a cat" SQUARE K1 0
  = (Return "data:image/png;base64,QUJD", 2,
     [Call (GenerateContent "lazy_auth_key" (pro_request "a cat" SQUARE K1));
      Warn fallback_warning
        (Some (ThrownError "503 overloaded" (Foreign "sdk")));
      Invoke;
      Call (GenerateContent "lazy_auth_key" (flash_request "a cat"))]).
Proof.
  refine (proj1 (generateImage_falls_back
                   Demo.World Demo.no_key Demo.available Demo.key_selected
                   (Demo.client (ThrownError "503 overloaded" (Foreign "sdk")))
                   "a cat" SQUARE K1 0
                   (ThrownError "503 overloaded" (Foreign "sdk")) 1
                   [GenerateContent "lazy_auth_key"
                      (pro_request "a cat" SQUARE K1)]
                   eq_refl _ _)); discriminate.
Defined.

End CallSiteFacts.

(* ================================================================== *)
(** ** More on the gateway and the classification *)

Module GatewayMore.

Import Json.
Import Js.
Import GeminiService.
Import ClassifyFacts.
Import GatewayFacts.
Import Readings.

Lemma announced_calls (t : list backend_call) (rest : list event) :
  announced (map Call t ++ rest) = announced rest.
Proof. induction t as [|c t IH]; [reflexivity | exact IH]. Qed.

Section Gateway.

Variable World : Type.
Variable aistudio_available : World -> bool.
Variable openSelectKey : World -> outcome unit * World.
Variable T : Type.

Local Abbreviation run :=
  (@runWithAuthRetry World aistudio_available openSelectKey T).

Implicit Types (operation : Thunk World T) (w : World).

(** The gateway invents no result. *)
Lemma run_return_somewhere operation requireAuth w a :
  result (run operation requireAuth w) = Return a ->
  exists w', result (operation w') = Return a.
Proof.
  intros H.
  destruct (operation w) as [[[a0|e|] w1] t1] eqn:E.
  - rewrite (run_returns _ _ _ _ _ _ _ _ _ _ E) in H.
    exists w. rewrite E. exact H.
  - destruct (prompting e requireAuth (aistudio_available w1)) eqn:D.
    + rewrite (run_throws_prompting _ _ _ _ _ _ _ _ _ _ E D) in H.
      destruct (openSelectKey w1) as [[u| |] w2]; try discriminate H.
      exists w2. unfold result in H |- *; simpl in H.
      destruct (fst (fst (operation w2))); simpl in H;
        try discriminate H. exact H.
    + rewrite (run_throws_quiet _ _ _ _ _ _ _ _ _ _ E D) in H.
      discriminate H.
  - rewrite (run_pending _ _ _ _ _ _ _ _ _ E) in H. discriminate H.
Qed.

(** ... and the calls of the attempt that gave it are in the trace. *)
Lemma run_return_with_trace operation requireAuth w a :
  result (run operation requireAuth w) = Return a ->
  exists w',
    result (operation w') = Return a
    /\ forall c, In c (trace (operation w')) ->
                 In (Call c) (trace (run operation requireAuth w)).
Proof.
  intros H.
  destruct (operation w) as [[[a0|e|] w1] t1] eqn:E.
  - rewrite (run_returns _ _ _ _ _ _ _ _ _ _ E) in H |- *.
    exists w. rewrite E. split; [exact H|].
    intros c I. right. now apply in_map.
  - destruct (prompting e requireAuth (aistudio_available w1)) eqn:D.
    + rewrite (run_throws_prompting _ _ _ _ _ _ _ _ _ _ E D) in H |- *.
      destruct (openSelectKey w1) as [[u| |] w2]; try discriminate H.
      exists w2. split.
      * unfold result in H |- *; simpl in H.
        destruct (fst (fst (operation w2))); simpl in H;
          try discriminate H. exact H.
      * intros c I. unfold trace at 2. cbn [snd].
        apply in_or_app. right. right. right. right. now apply in_map.
    + rewrite (run_throws_quiet _ _ _ _ _ _ _ _ _ _ E D) in H.
      discriminate H.
  - rewrite (run_pending _ _ _ _ _ _ _ _ _ E) in H. discriminate H.
Qed.

(** X1.  A value returned by the gateway is a value the operation
    returned: on the first attempt, or on the attempt made after a
    completed key selection. *)
Theorem results_come_from_the_operation operation requireAuth w a :
  result (run operation requireAuth w) = Return a ->
  result (operation w) = Return a
  \/ exists e w1 t1 u w2,
      operation w = (Throw e, w1, t1)
      /\ requireAuth = true
      /\ aistudio_available w1 = true
      /\ openSelectKey w1 = (Return u, w2)
      /\ result (operation w2) = Return a.
Proof.
  intros H.
  destruct (operation w) as [[[a0|e|] w1] t1] eqn:E.
  - rewrite (run_returns _ _ _ _ _ _ _ _ _ _ E) in H.
    inversion H; subst. left; reflexivity.
  - right. destruct (prompting e requireAuth (aistudio_available w1)) eqn:D.
    + rewrite (run_throws_prompting _ _ _ _ _ _ _ _ _ _ E D) in H.
      destruct (prompting_verdict _ _ _ D) as (v & C & D').
      apply andb_true_iff in D' as [D1 D3].
      apply andb_true_iff in D1 as [D1 D2].
      destruct (openSelectKey w1) as [[u| |] w2] eqn:S1;
        try discriminate H.
      exists e, w1, t1, u, w2. repeat split; trivial.
      unfold result in H |- *; simpl in H.
      destruct (fst (fst (operation w2))); simpl in H;
        try discriminate H. exact H.
    + rewrite (run_throws_quiet _ _ _ _ _ _ _ _ _ _ E D) in H.
      discriminate H.
  - rewrite (run_pending _ _ _ _ _ _ _ _ _ E) in H. discriminate H.
Qed.

(** X2.  With [requireAuth] false, or with no key selector at hand when
    the attempt fails, the gateway makes the one attempt and nothing else:
    no warning, no prompt, no second attempt.  A failure stays a failure;
    when the catch block reaches a verdict and the working message has a
    string form, it comes back as a fresh [Error] carrying that
    string. *)
Theorem no_prompt_without_permission_to_ask operation requireAuth w :
  requireAuth = false \/ aistudio_available (world (operation w)) = false ->
  let r := run operation requireAuth w in
  trace r = Invoke :: map Call (trace (operation w))
  /\ world r = world (operation w)
  /\ prompts (trace r) = 0
  /\ invocations (trace r) = 1
  /\ (forall e, result (operation w) = Throw e ->
                exists e',
                  result r = Throw e'
                  /\ forall v s,
                       classify e = Some v ->
                       ToString (msg v) = Some s ->
                       e' = new_Error 99 s).
Proof.
  intros H r.
  assert (R : trace r = Invoke :: map Call (trace (operation w))
              /\ world r = world (operation w)
              /\ (forall e, result (operation w) = Throw e ->
                    exists e',
                      result r = Throw e'
                      /\ forall v s,
                           classify e = Some v ->
                           ToString (msg v) = Some s ->
                           e' = new_Error 99 s)).
  { subst r. destruct (operation w) as [[[a|e|] w1] t1] eqn:E.
    - rewrite (run_returns _ _ _ _ _ _ _ _ _ _ E).
      repeat split. intros e H1; discriminate H1.
    - assert (D : prompting e requireAuth (aistudio_available w1) = false).
      { unfold prompting. destruct (classify e) as [v|]; [|reflexivity].
        destruct H as [-> | H].
        - now rewrite andb_false_r.
        - unfold world in H; simpl in H. rewrite H. now rewrite andb_false_r. }
      rewrite (run_throws_quiet _ _ _ _ _ _ _ _ _ _ E D).
      repeat split. intros e0 H1. unfold result in H1; simpl in H1.
      inversion H1; subst. exists (final_throw e0). split; [reflexivity|].
      intros v s C S. destruct (classify_some_text e0 v C) as (m & X & Cm).
      unfold final_throw, thrown_by_new_Error. now rewrite X, Cm, S.
    - rewrite (run_pending _ _ _ _ _ _ _ _ _ E).
      repeat split. intros e H1; discriminate H1. }
  destruct R as (Rt & Rw & Re).
  repeat split; trivial; rewrite Rt.
  - unfold prompts. simpl.
    change (List.length (filter is_OpenSelectKey (map Call (trace (operation w)))))
      with (prompts (map Call (trace (operation w)))).
    apply prompts_calls.
  - unfold invocations. simpl. f_equal.
    change (List.length (filter is_Invoke (map Call (trace (operation w)))))
      with (invocations (map Call (trace (operation w)))).
    apply invocations_calls.
Qed.

(** X3.  In every trace of the gateway, each request for a key is
    immediately preceded by the warning on the console. *)
Theorem every_prompt_is_announced operation requireAuth w :
  announced (trace (run operation requireAuth w)) = true.
Proof.
  destruct (run_trace_shape World aistudio_available openSelectKey T
              operation requireAuth w) as (extra & -> & Hex).
  change ((Invoke :: map Call (trace (operation w))) ++ extra)%list
    with (Invoke :: (map Call (trace (operation w)) ++ extra))%list.
  cbn [announced]. rewrite announced_calls.
  destruct Hex as [->|[->|[w2 ->]]]; try reflexivity.
  cbn [announced]. rewrite String.eqb_refl. cbn [andb announced].
  rewrite <- (app_nil_r (map Call _)). apply announced_calls.
Qed.

End Gateway.

Lemma results_come_from_the_operation_witness :
  result (Demo.scripted (Throw (ThrownString "403")) (Return 8%nat) 0)
  = Return 8%nat
  \/ exists e w1 t1 u w2,
      Demo.scripted (Throw (ThrownString "403")) (Return 8%nat) 0
      = (Throw e, w1, t1)
      /\ true = true
      /\ Demo.available w1 = true
      /\ Demo.key_selected w1 = (Return u, w2)
      /\ result (Demo.scripted (Throw (ThrownString "403")) (Return 8%nat) w2)
         = Return 8%nat.
Proof.
  apply (results_come_from_the_operation
           Demo.World Demo.available Demo.key_selected nat
           (Demo.scripted (Throw (ThrownString "403")) (Return 8%nat))
           true 0 8%nat).
  reflexivity.
Defined.

Lemma no_prompt_without_permission_to_ask_witness :
  trace (runWithAuthRetry Demo.World Demo.available Demo.key_selected
           (Demo.scripted (T := nat) (Throw (ThrownString "403"))
              (Return 8%nat)) false 0)
  = [Invoke].
Proof.
  apply (proj1 (no_prompt_without_permission_to_ask
                  Demo.World Demo.available Demo.key_selected nat
                  (Demo.scripted (Throw (ThrownString "403")) (Return 8%nat))
                  false 0 (or_introl eq_refl))).
Defined.

(** *** Classification *)

(** X4.  When the message embeds no parseable JSON it is kept as it is,
    and the failure is retryable exactly when the message contains one of
    the ten fixed patterns. *)
Theorem retryable_without_json_iff_pattern (error : thrown) (m : string) :
  extract_message error = Text m ->
  embedded_json m = None ->
  exists v,
    classify error = Some v
    /\ msg v = JString m
    /\ (isPermissionError v = true
        <-> exists p, In p patterns /\ JsString.Contains m p).
Proof.
  intros X J. rewrite (classify_without_json error m X J).
  eexists; split; [reflexivity|]. split; [reflexivity|].
  cbn [isPermissionError]. rewrite existsb_exists.
  split; intros (p & Hin & Hp); exists p; split; trivial;
    now apply JsStringFacts.includes_Contains.
Qed.

Lemma retryable_without_json_iff_pattern_witness :
  exists v,
    classify (ThrownError "API key not valid. Please pass a valid API key."
                (Foreign "sdk")) = Some v
    /\ msg v = JString "API key not valid. Please pass a valid API key."
    /\ (isPermissionError v = true
        <-> exists p,
              In p patterns
              /\ JsString.Contains
                   "API key not valid. Please pass a valid API key." p).
Proof.
  apply (retryable_without_json_iff_pattern
           (ThrownError "API key not valid. Please pass a valid API key."
              (Foreign "sdk"))
           "API key not valid. Please pass a valid API key." eq_refl).
  reflexivity.
Defined.

(** X5.  The structured check looks under the key [error] only: when the
    embedded JSON has no truthy [error], the message is kept and the
    verdict is the pattern test on the whole message. *)
Theorem json_without_descriptor_changes_nothing (error : thrown)
  (m : string) (parsed : json) :
  extract_message error = Text m ->
  embedded_json m = Some parsed ->
  truthy (get "error" parsed) = false ->
  classify error
  = Some {| isPermissionError := existsb (JsString.includes m) patterns;
            msg := JString m |}.
Proof.
  intros X. rewrite (classify_text _ _ X).
  unfold embedded_json, classify_message, parse_step. intros J Tr.
  destruct (json_fragment m) as [frag|];
    [|discriminate J].
  rewrite J.
  destruct parsed; try rewrite Tr;
    unfold fallback_step; cbn [isPermissionError msg];
    rewrite any_includes_string; reflexivity.
Qed.

Lemma json_without_descriptor_changes_nothing_witness :
  classify (ThrownString (js "{'code':403,'message':'no access'}"))
  = Some {| isPermissionError := true;
            msg := JString (js "{'code':403,'message':'no access'}") |}.
Proof.
  apply (json_without_descriptor_changes_nothing
           (ThrownString (js "{'code':403,'message':'no access'}"))
           (js "{'code':403,'message':'no access'}")
           (JObject [("code", JNumber 403 0);
                     ("message", JString "no access")])
           eq_refl eq_refl eq_refl).
Defined.

End GatewayMore.

(* ================================================================== *)
(** ** More on the strings the call sites cut and build *)

Module StringCuts.

Import Js.
Import GeminiService.
Import Readings.

Lemma indexOf_cons_none (a c : ascii) (s : string) :
  JsString.indexOf (String a s) c = (-1)%Z ->
  Ascii.eqb a c = false /\ JsString.indexOf s c = (-1)%Z.
Proof.
  simpl. destruct (Ascii.eqb a c); [discriminate|].
  destruct (JsString.indexOf s c =? -1)%Z eqn:E.
  - apply Z.eqb_eq in E. auto.
  - apply Z.eqb_neq in E. intros H.
    assert (-1 <= JsString.indexOf s c)%Z.
    { clear. induction s as [|x s IHs]; simpl; [lia|].
      destruct (Ascii.eqb x c); [lia|].
      destruct (JsString.indexOf s c =? -1)%Z; lia. }
    lia.
Qed.

Lemma split_rev_free (s cur : string) (c : ascii) :
  free_of c s -> JsString.split_rev s cur c = [cur ++ s].
Proof.
  revert cur. induction s as [|a s IH]; intros cur F; simpl.
  - now rewrite JsStringFacts.append_nil_r.
  - apply indexOf_cons_none in F as [Ne F]. rewrite Ne, (IH _ F).
    now rewrite JsStringFacts.append_assoc.
Qed.

Lemma split_rev_at (pre rest cur : string) (c : ascii) :
  free_of c pre ->
  JsString.split_rev (pre ++ String c rest) cur c
  = (cur ++ pre) :: JsString.split_rev rest EmptyString c.
Proof.
  revert cur. induction pre as [|a pre IH]; intros cur F; simpl.
  - now rewrite Ascii.eqb_refl, JsStringFacts.append_nil_r.
  - apply indexOf_cons_none in F as [Ne F]. rewrite Ne, (IH _ F).
    now rewrite JsStringFacts.append_assoc.
Qed.

Lemma split_at_comma (pre payload : string) :
  free_of ","%char pre ->
  free_of ","%char payload ->
  JsString.split (pre ++ "," ++ payload) ","%char = [pre; payload].
Proof.
  intros Fp Fy. unfold JsString.split.
  change ("," ++ payload) with (String ","%char payload).
  rewrite (split_rev_at pre payload EmptyString ","%char Fp).
  rewrite (split_rev_free payload EmptyString ","%char Fy).
  reflexivity.
Qed.

(** X6.  Cutting a data URI at its comma gives back the payload: for a
    text with one comma, after which comes a non-empty payload,
    [s.split(',')[1] || s] is that payload. *)
Theorem payload_of_data_uri (pre payload : string) :
  free_of ","%char pre ->
  free_of ","%char payload ->
  payload <> EmptyString ->
  base64_of (pre ++ "," ++ payload) = payload.
Proof.
  intros Fp Fy Ne.
  unfold base64_of. rewrite (split_at_comma pre payload Fp Fy).
  simpl. destruct payload; [congruence | reflexivity].
Qed.

Lemma payload_of_data_uri_witness :
  base64_of "data:image/jpeg;base64,QUJD" = "QUJD".
Proof.
  apply (payload_of_data_uri "data:image/jpeg;base64" "QUJD"
           eq_refl eq_refl ltac:(discriminate)).
Defined.

(** X7.  What is sent as image data is empty only when the text given
    was empty: a text without a comma, or with nothing after its first
    comma, is sent whole. *)
Theorem base64_of_empty_iff (s : string) :
  base64_of s = EmptyString <-> s = EmptyString.
Proof.
  split.
  - unfold base64_of, JsString.opt_or_else, JsString.or_else.
    destruct (nth_error (JsString.split s ","%char) 1) as [[|c x]|];
      simpl; trivial. discriminate.
  - intros ->. reflexivity.
Qed.

Lemma substring_all (s : string) :
  String.substring 0 (String.length s) s = s.
Proof. induction s as [|c s IH]; simpl; [reflexivity | now rewrite IH]. Qed.

Lemma drop_app (p s : string) :
  Json.drop (String.length p) (p ++ s) = s.
Proof.
  unfold Json.drop. induction p as [|c p IH]; simpl.
  - rewrite Nat.sub_0_r. apply substring_all.
  - exact IH.
Qed.

Lemma take_run_free (m rest : string) :
  free_of ";"%char m ->
  take_run (m ++ String ";"%char rest) = (m, String ";"%char rest).
Proof.
  induction m as [|a m IH]; intros F; simpl.
  - reflexivity.
  - apply indexOf_cons_none in F as [Ne F]. rewrite Ne, (IH F). reflexivity.
Qed.

Lemma take_run_truthy_free (s : string) :
  free_of ";"%char (fst (take_run s)).
Proof.
  unfold free_of. induction s as [|a s IH]; simpl; [reflexivity|].
  destruct (Ascii.eqb a ";"%char) eqn:E; [reflexivity|].
  destruct (take_run s) as [run rest]. simpl in *.
  rewrite E, IH. reflexivity.
Qed.

Lemma mime_match_here (s m : string) :
  mime_here s = Some m -> mime_match s = Some m.
Proof.
  destruct s as [|c s].
  - intros H. vm_compute in H. discriminate H.
  - cbn [mime_match]. intros ->. reflexivity.
Qed.

Lemma mime_here_data_uri (m rest : string) :
  m <> EmptyString ->
  free_of ";"%char m ->
  mime_here ("data:" ++ m ++ ";base64" ++ rest) = Some m.
Proof.
  intros Ne F.
  unfold mime_here. rewrite JsStringFacts.prefix_app.
  change 5 with (String.length "data:"). rewrite drop_app.
  change (";base64" ++ rest) with (String ";"%char ("base64" ++ rest)).
  rewrite (take_run_free m _ F).
  change (String ";"%char ("base64" ++ rest)) with (";base64" ++ rest).
  rewrite JsStringFacts.prefix_app.
  destruct m; [congruence | reflexivity].
Qed.

(** X8.  The MIME type of a data URI is read back from it: for a text
    that starts with [data:], a non-empty type without semicolon and
    [;base64], the type found is that type. *)
Theorem mime_of_data_uri (m rest : string) :
  m <> EmptyString ->
  free_of ";"%char m ->
  reference_mime ("data:" ++ m ++ ";base64" ++ rest) = m.
Proof.
  intros Ne F. unfold reference_mime.
  rewrite (mime_match_here _ _ (mime_here_data_uri m rest Ne F)).
  destruct m; [congruence | reflexivity].
Qed.

Lemma mime_of_data_uri_witness :
  reference_mime "data:image/jpeg;base64,QUJD" = "image/jpeg".
Proof.
  apply (mime_of_data_uri "image/jpeg" ",QUJD"
           ltac:(discriminate) eq_refl).
Defined.

Lemma mime_here_shape (s m : string) :
  mime_here s = Some m -> m <> EmptyString /\ free_of ";"%char m.
Proof.
  unfold mime_here.
  destruct (String.prefix "data:" s); [|discriminate].
  pose proof (take_run_truthy_free (Json.drop 5 s)) as F.
  destruct (take_run (Json.drop 5 s)) as [run rest]. simpl in F.
  destruct (JsString.truthy run) eqn:Tr; [|discriminate].
  destruct (String.prefix ";base64" rest); [|discriminate].
  intros H; inversion H; subst. split; [|exact F].
  intros ->; discriminate.
Qed.

Lemma mime_match_shape (s m : string) :
  mime_match s = Some m -> m <> EmptyString /\ free_of ";"%char m.
Proof.
  induction s as [|c s IH].
  - intros H. vm_compute in H. discriminate H.
  - cbn [mime_match]. destruct (mime_here (String c s)) eqn:E.
    + intros H; inversion H; subst. eapply mime_here_shape; eauto.
    + exact IH.
Qed.

(** X9.  The MIME type read off a reference image is never empty and
    holds no semicolon, whatever the text: when no type can be read,
    [image/png] is taken. *)
Theorem reference_mime_is_a_type (s : string) :
  reference_mime s <> EmptyString
  /\ free_of ";"%char (reference_mime s)
  /\ (mime_match s = None -> reference_mime s = "image/png").
Proof.
  unfold reference_mime.
  destruct (mime_match s) as [m|] eqn:M.
  - destruct (mime_match_shape s m M) as [Ne F].
    destruct m; [congruence|]. simpl. repeat split; trivial; discriminate.
  - simpl. repeat split; discriminate.
Qed.

Lemma reference_mime_is_a_type_witness :
  reference_mime "iVBORw0KGgo=" = "image/png".
Proof.
  apply (proj2 (proj2 (reference_mime_is_a_type "iVBORw0KGgo="))).
  reflexivity.
Defined.

End StringCuts.

(* ================================================================== *)
(** ** More on the call sites *)

Module CallSiteMore.

Import Json.
Import Js.
Import GeminiService.
Import GeminiServiceRest.
Import ClassifyFacts.
Import GatewayFacts.
Import GatewayMore.
Import CallSiteFacts.
Import StringCuts.
Import Readings.

Lemma scan_parts_uri (ps : list Part) (acc uri : string) :
  scan_parts ps acc = inl uri -> png_data_uri uri.
Proof.
  revert acc. induction ps as [|p ps IH]; intros acc; simpl; [discriminate|].
  destruct (inline_payload p) as [payload|] eqn:P; [|apply IH].
  intros H; inversion H; subst. exists payload; split; [reflexivity|].
  unfold inline_payload in P.
  destruct (inlineData p) as [d|]; [|discriminate].
  destruct (data d) as [x|]; [|discriminate].
  destruct x; [discriminate|]. inversion P. discriminate.
Qed.

Lemma extract_uri (response : Response) (uri : string) :
  extractImageFromResponse response = Return uri
  \/ extract_edited response = Return uri ->
  png_data_uri uri.
Proof.
  unfold extractImageFromResponse, extract_edited, scan_response.
  destruct (response_parts response) as [ps|].
  - destruct (scan_parts ps EmptyString) as [u|t] eqn:E.
    + intros [H|H]; inversion H; subst; eapply scan_parts_uri; eauto.
    + destruct (JsString.truthy t); intros [H|H]; discriminate H.
  - simpl. intros [H|H]; discriminate H.
Qed.

(** X10.  A URI returned by the extraction goes back into the service
    unchanged: given to [editImage] or [generateVideo] as an image, the
    data cut out of it is the payload it was built from (a payload free
    of commas, as base64 text is), and the type read off it is
    [image/png]. *)
Theorem extracted_uri_round_trip (response : Response) (uri : string) :
  extractImageFromResponse response = Return uri ->
  free_of ","%char (uri_payload uri) ->
  uri = header ++ uri_payload uri
  /\ base64_of uri = uri_payload uri
  /\ reference_mime uri = "image/png".
Proof.
  intros E F.
  destruct (extract_uri response uri (or_introl E)) as (payload & -> & Ne).
  change (uri_payload (header ++ payload)) with payload in *.
  split; [reflexivity|]. split.
  - unfold base64_of.
    change (header ++ payload)
      with ("data:image/png;base64" ++ "," ++ payload).
    rewrite (split_at_comma "data:image/png;base64" payload eq_refl F).
    simpl. destruct payload; [congruence | reflexivity].
  - unfold reference_mime.
    change (header ++ payload)
      with ("data:" ++ "image/png" ++ ";base64" ++ ("," ++ payload)).
    rewrite (mime_match_here _ _
               (mime_here_data_uri "image/png" ("," ++ payload)
                  ltac:(discriminate) eq_refl)).
    reflexivity.
Qed.

Lemma extracted_uri_round_trip_witness :
  "data:image/png;base64,QUJD" = header ++ uri_payload "data:image/png;base64,QUJD"
  /\ base64_of "data:image/png;base64,QUJD" = uri_payload "data:image/png;base64,QUJD"
  /\ reference_mime "data:image/png;base64,QUJD" = "image/png".
Proof.
  apply (extracted_uri_round_trip (Demo.image_response "QUJD")
           "data:image/png;base64,QUJD" eq_refl eq_refl).
Defined.

Section CallSites.

Variable World : Type.
Variable API_KEY : World -> option string.
Variable aistudio_available : World -> bool.
Variable openSelectKey : World -> outcome unit * World.
Variable generateContent :
  string -> Request -> World -> outcome Response * World.

Local Abbreviation run :=
  (@runWithAuthRetry World aistudio_available openSelectKey string).
Local Abbreviation generate :=
  (models_generateContent World API_KEY generateContent).
Local Abbreviation generateImage :=
  (generateImage World API_KEY aistudio_available openSelectKey
     generateContent).
Local Abbreviation editImage :=
  (editImage World API_KEY aistudio_available openSelectKey
     generateContent).

(** What an operation that asks a model and then reads the answer can
    return. *)
Lemma generate_then_result {A} (req : Request)
  (read : Response -> outcome A) (w : World) (a : A) :
  result (Js.bind (generate req) (fun response => lift (read response)) w)
  = Return a ->
  exists response, read response = Return a.
Proof.
  unfold bind, models_generateContent, perform, lift, result.
  destruct (generateContent (getClient World API_KEY w) req w)
    as [[response| |] w1];
    simpl; try discriminate.
  intros H. exists response. exact H.
Qed.

Lemma run_generate_result (req : Request)
  (read : Response -> outcome string) (requireAuth : bool) (w : World)
  (a : string) :
  result (run (Js.bind (generate req) (fun response => lift (read response)))
            requireAuth w) = Return a ->
  exists response, read response = Return a.
Proof.
  intros H.
  apply run_return_somewhere in H as [w' H].
  eapply generate_then_result; eauto.
Qed.

Lemma generateImage_png prompt aspectRatio imageSize w uri :
  result (generateImage prompt aspectRatio imageSize w) = Return uri ->
  png_data_uri uri.
Proof.
  unfold GeminiService.generateImage, try_catch, relabel.
  destruct (tier1 World API_KEY generateContent prompt aspectRatio imageSize w)
    as [[[u|e|] w1] t1] eqn:E.
  - intros H. unfold result in H; simpl in H. inversion H; subst.
    assert (R : result (tier1 World API_KEY generateContent prompt
                          aspectRatio imageSize w) = Return uri)
      by (rewrite E; reflexivity).
    apply generate_then_result in R as [response R].
    apply (extract_uri response uri (or_introl R)).
  - destruct e; unfold bind, emit, throw, result; simpl;
      try discriminate;
      (destruct (runWithAuthRetry World aistudio_available openSelectKey
                   (tier2 World API_KEY generateContent prompt) true w1)
         as [[o w2] t2] eqn:R2; simpl; intros H; subst o;
       assert (R : result (run (tier2 World API_KEY generateContent prompt)
                             true w1) = Return uri)
         by (rewrite R2; reflexivity);
       apply run_generate_result in R as [response R];
       apply (extract_uri response uri (or_introl R))).
  - unfold result; simpl. discriminate.
Qed.

Lemma editImage_png base64Image prompt mimeType w uri :
  result (editImage base64Image prompt mimeType w) = Return uri ->
  png_data_uri uri.
Proof.
  intros H. unfold GeminiService.editImage in H.
  apply run_generate_result in H as [response R].
  apply (extract_uri response uri (or_intror R)).
Qed.

(** X11.  Whatever the models answer, an image that [generateImage] or
    [editImage] returns is a PNG data URI with a non-empty payload: the
    header is fixed by the service and does not follow the type the model
    declared. *)
Theorem returned_images_are_png_data_uris :
  (forall prompt aspectRatio imageSize w uri,
      result (generateImage prompt aspectRatio imageSize w) = Return uri ->
      exists payload,
        uri = "data:image/png;base64," ++ payload /\ payload <> EmptyString)
  /\ (forall base64Image prompt mimeType w uri,
         result (editImage base64Image prompt mimeType w) = Return uri ->
         exists payload,
           uri = "data:image/png;base64," ++ payload /\ payload <> EmptyString).
Proof.
  split.
  - intros prompt aspectRatio imageSize w uri H.
    destruct (generateImage_png _ _ _ _ _ H) as (payload & E & Ne).
    exists payload. split; [exact E | exact Ne].
  - intros base64Image prompt mimeType w uri H.
    destruct (editImage_png _ _ _ _ _ H) as (payload & E & Ne).
    exists payload. split; [exact E | exact Ne].
Qed.

End CallSites.

(** *** The pro mode of [generateVideo], the analysis and the key dialog *)

Lemma settled_second_outcome {T} (o : outcome T) :
  settled (second_outcome o) = settled o.
Proof. destruct o; reflexivity. Qed.

(** Two operations that agree wherever the first one settles give the
    same settled call of the gateway. *)
Lemma run_agree (World T : Type) (aistudio_available : World -> bool)
  (openSelectKey : World -> outcome unit * World)
  (operation operation' : Thunk World T) (requireAuth : bool) (w : World) :
  (forall w', settled (result (operation w')) = true ->
              operation' w' = operation w') ->
  settled (result (runWithAuthRetry World aistudio_available openSelectKey
                     operation requireAuth w)) = true ->
  runWithAuthRetry World aistudio_available openSelectKey operation'
    requireAuth w
  = runWithAuthRetry World aistudio_available openSelectKey operation
      requireAuth w.
Proof.
  intros A S.
  destruct (operation w) as [[[a|e|] w1] t1] eqn:E.
  - assert (E' : operation' w = (Return a, w1, t1))
      by (rewrite A; [exact E | rewrite E; reflexivity]).
    now rewrite (run_returns _ _ _ _ _ _ _ _ _ _ E),
                (run_returns _ _ _ _ _ _ _ _ _ _ E').
  - assert (E' : operation' w = (Throw e, w1, t1))
      by (rewrite A; [exact E | rewrite E; reflexivity]).
    destruct (prompting e requireAuth (aistudio_available w1)) eqn:D.
    + rewrite (run_throws_prompting _ _ _ _ _ _ _ _ _ _ E D) in S |- *.
      rewrite (run_throws_prompting _ _ _ _ _ _ _ _ _ _ E' D).
      destruct (openSelectKey w1) as [[u| |] w2]; try reflexivity.
      unfold result in S at 1; simpl in S.
      rewrite settled_second_outcome in S.
      now rewrite (A w2 S).
    + now rewrite (run_throws_quiet _ _ _ _ _ _ _ _ _ _ E D),
                  (run_throws_quiet _ _ _ _ _ _ _ _ _ _ E' D).
  - rewrite (run_pending _ _ _ _ _ _ _ _ _ E) in S. discriminate S.
Qed.

Lemma bind_settled {World E A B} (m : Comp World E A)
  (f : A -> Comp World E B) (w : World) :
  settled (result (Js.bind m f w)) = true -> settled (result (m w)) = true.
Proof.
  unfold bind, result.
  destruct (m w) as [[[a| |] w1] t1]; simpl; trivial.
Qed.

Lemma bind_agree_l {World E A B} (m m' : Comp World E A)
  (f : A -> Comp World E B) (w : World) :
  m' w = m w -> Js.bind m' f w = Js.bind m f w.
Proof. unfold bind. intros ->. reflexivity. Qed.

Lemma bind_agree {World E A B} (m : Comp World E A)
  (f f' : A -> Comp World E B) (w : World) :
  (forall a w1, settled (result (f a w1)) = true -> f' a w1 = f a w1) ->
  settled (result (Js.bind m f w)) = true ->
  Js.bind m f' w = Js.bind m f w.
Proof.
  unfold bind, result.
  destruct (m w) as [[[a| |] w1] t1]; simpl; trivial.
  intros H S. rewrite H; [reflexivity|].
  unfold result. destruct (f a w1) as [[r w2] t2]. exact S.
Qed.

Section Video.

Variable World : Type.
Variable API_KEY : World -> option string.
Variable aistudio_available : World -> bool.
Variable openSelectKey : World -> outcome unit * World.
Variable generateContent :
  string -> Request -> World -> outcome Response * World.
Variable VideoOperation : Type.
Variable done : VideoOperation -> bool.
Variable video_uri : VideoOperation -> option string.
Variable generateVideos :
  string -> VideoRequest -> World -> outcome VideoOperation * World.
Variable getVideosOperation :
  string -> VideoOperation -> World -> outcome VideoOperation * World.
Variable setTimeout : Z -> World -> World.
Variable FetchResponse : Type.
Variable Blob : Type.
Variable ok : FetchResponse -> bool.
Variable statusText : FetchResponse -> string.
Variable fetch : string -> World -> outcome FetchResponse * World.
Variable res_blob : FetchResponse -> World -> outcome Blob * World.
Variable createObjectURL : Blob -> World -> string * World.

Local Abbreviation poll :=
  (poll World VideoOperation done getVideosOperation setTimeout).
Local Abbreviation veo :=
  (veo World API_KEY VideoOperation done video_uri generateVideos
     getVideosOperation setTimeout FetchResponse Blob ok statusText fetch
     res_blob createObjectURL).
Local Abbreviation generateVideo :=
  (generateVideo World API_KEY aistudio_available openSelectKey
     generateContent VideoOperation done video_uri generateVideos
     getVideosOperation setTimeout FetchResponse Blob ok statusText fetch
     res_blob createObjectURL).

Lemma poll_done fuel apiKey operation w :
  done operation = true ->
  poll fuel apiKey operation w = (Return operation, w, []).
Proof. intros D. destruct fuel; simpl; rewrite D; reflexivity. Qed.

Lemma poll_step fuel apiKey operation w :
  done operation = false ->
  poll (S fuel) apiKey operation w
  = match getVideosOperation apiKey operation (setTimeout 5000 w) with
    | (Return operation', w2) =>
        (result (poll fuel apiKey operation' w2),
         world (poll fuel apiKey operation' w2),
         SetTimeout 5000 :: GetVideosOperation apiKey
           :: trace (poll fuel apiKey operation' w2))
    | (Throw e, w2) =>
        (Throw e, w2, [SetTimeout 5000; GetVideosOperation apiKey])
    | (Pending, w2) =>
        (Pending, w2, [SetTimeout 5000; GetVideosOperation apiKey])
    end.
Proof.
  intros D. simpl. rewrite D. unfold bind, perform.
  destruct (getVideosOperation apiKey operation (setTimeout 5000 w))
    as [[operation'| |] w2]; try reflexivity.
  destruct (GeminiService.poll World VideoOperation done getVideosOperation
              setTimeout fuel apiKey operation' w2) as [[r w3] t3].
  reflexivity.
Qed.


Lemma poll_fuel_mono fuel fuel' apiKey operation w :
  settled (result (poll fuel apiKey operation w)) = true ->
  fuel <= fuel' ->
  poll fuel' apiKey operation w = poll fuel apiKey operation w.
Proof.
  revert fuel' operation w.
  induction fuel as [|fuel IH]; intros fuel' operation w S L.
  - destruct (done operation) eqn:D.
    + now rewrite !(poll_done _ _ _ _ D).
    + simpl in S. rewrite D in S. discriminate S.
  - destruct (done operation) eqn:D.
    + now rewrite !(poll_done _ _ _ _ D).
    + destruct fuel' as [|fuel']; [lia|].
      rewrite (poll_step fuel _ _ _ D) in S.
      rewrite (poll_step fuel _ _ _ D), (poll_step fuel' _ _ _ D).
      destruct (getVideosOperation apiKey operation (setTimeout 5000 w))
        as [[operation'| |] w2]; try reflexivity.
      unfold result in S at 1; simpl in S.
      rewrite (IH fuel' operation' w2 S); [reflexivity | lia].
Qed.

Lemma veo_fuel_mono fuel fuel' prompt aspectRatio referenceImage w :
  settled (result (veo fuel prompt aspectRatio referenceImage w)) = true ->
  fuel <= fuel' ->
  veo fuel' prompt aspectRatio referenceImage w
  = veo fuel prompt aspectRatio referenceImage w.
Proof.
  unfold GeminiService.veo. cbv zeta.
  set (request := {| video_model := _ |}).
  intros S L.
  destruct (video_prompt request), (image request); try reflexivity;
    (apply bind_agree; [|exact S]);
    intros operation w1 S1;
    (apply bind_agree_l; apply poll_fuel_mono; [|exact L]);
    apply (bind_settled _ _ _ S1).
Qed.

(** X13.  The bound on the polling is only a bound: once a call of
    [generateVideo] has settled under some bound, every larger bound
    gives the same outcome, the same world and the same trace. *)
Theorem polling_bound_is_only_a_bound fuel fuel' prompt aspectRatio
  referenceImage useProMode w :
  settled (result (generateVideo fuel prompt aspectRatio referenceImage
                     useProMode w)) = true ->
  fuel <= fuel' ->
  generateVideo fuel' prompt aspectRatio referenceImage useProMode w
  = generateVideo fuel prompt aspectRatio referenceImage useProMode w.
Proof.
  unfold GeminiService.generateVideo.
  destruct useProMode; simpl negb; cbv iota; [|reflexivity].
  intros S L. apply run_agree; [|exact S].
  intros w' S'. now apply veo_fuel_mono.
Qed.

(** X14.  In pro mode, with no prompt and no reference image, the call
    fails at once with the message of the service's own check: no request
    reaches the video backend and no key is asked for. *)
Theorem pro_mode_needs_input fuel aspectRatio referenceImage w :
  truthy_opt referenceImage = false ->
  generateVideo fuel EmptyString aspectRatio referenceImage true w
  = (Throw (new_Error 99 "Prompt or Image required for video generation"),
     w, [Invoke]).
Proof.
  intros R.
  transitivity (runWithAuthRetry World aistudio_available openSelectKey
                  (veo fuel EmptyString aspectRatio referenceImage) true w);
    [reflexivity|].
  assert (V : veo fuel EmptyString aspectRatio referenceImage w
              = (Throw (new_Error 265
                          "Prompt or Image required for video generation"),
                 w, [])).
  { unfold GeminiService.veo.
    destruct referenceImage as [[|c r]|]; try discriminate R; reflexivity. }
  exact (run_throws_final World aistudio_available openSelectKey string
           _ true w _ w []
           {| isPermissionError := false;
              msg := JString "Prompt or Image required for video generation" |}
           V eq_refl eq_refl).
Qed.

Local Abbreviation download :=
  (download World API_KEY FetchResponse Blob ok statusText fetch res_blob
     createObjectURL).

(** A download returns only when the environment holds a key as it
    starts, and its request carries that key. *)
Lemma download_returns videoUri w url :
  result (download videoUri w) = Return url ->
  exists key,
    API_KEY w = Some key
    /\ key <> EmptyString
    /\ In (Fetch (videoUri ++ "&key=" ++ key)) (trace (download videoUri w)).
Proof.
  unfold GeminiService.download.
  destruct (API_KEY w) as [[|c key]|] eqn:K;
    cbn [truthy_opt JsString.truthy JsString.opt_or_else JsString.or_else];
    try discriminate.
  intros _. exists (String c key). split; [reflexivity|].
  split; [discriminate|].
  unfold bind, perform.
  destruct (fetch _ w) as [[res| |] w1]; try (left; reflexivity).
  destruct (if ok res then _ else _) as [[r w2] t2].
  left; reflexivity.
Qed.

Lemma veo_returns fuel prompt aspectRatio referenceImage w url :
  result (veo fuel prompt aspectRatio referenceImage w) = Return url ->
  exists videoUri w' key,
    result (download videoUri w') = Return url
    /\ API_KEY w' = Some key
    /\ key <> EmptyString
    /\ In (Fetch (videoUri ++ "&key=" ++ key))
          (trace (veo fuel prompt aspectRatio referenceImage w)).
Proof.
  unfold GeminiService.veo. cbv zeta.
  set (request := {| video_model := _ |}).
  set (rest := fun operation : VideoOperation =>
                 match video_uri operation with
                 | Some videoUri =>
                     if JsString.truthy videoUri then download videoUri
                     else throw (new_Error 277
                                   "Video generation failed: No URI returned")
                 | None =>
                     throw (new_Error 277
                              "Video generation failed: No URI returned")
                 end).
  assert (B : result
                (Js.bind
                   (perform (GenerateVideos (getClient World API_KEY w) request)
                      (generateVideos (getClient World API_KEY w) request))
                   (fun operation =>
                      Js.bind (poll fuel (getClient World API_KEY w) operation)
                        rest) w) = Return url ->
              exists videoUri w' key,
                result (download videoUri w') = Return url
                /\ API_KEY w' = Some key
                /\ key <> EmptyString
                /\ In (Fetch (videoUri ++ "&key=" ++ key))
                      (trace
                         (Js.bind
                            (perform
                               (GenerateVideos (getClient World API_KEY w) request)
                               (generateVideos (getClient World API_KEY w) request))
                            (fun operation =>
                               Js.bind
                                 (poll fuel (getClient World API_KEY w) operation)
                                 rest) w))).
  { unfold bind, perform, result, trace.
    destruct (generateVideos (getClient World API_KEY w) request w)
      as [[operation| |] w1]; simpl; try discriminate.
    destruct (poll fuel (getClient World API_KEY w) operation w1)
      as [[[operation0| |] w2] t2]; simpl; try discriminate.
    unfold rest.
    destruct (video_uri operation0) as [videoUri|]; simpl; try discriminate.
    destruct (JsString.truthy videoUri); simpl; try discriminate.
    pose proof (download_returns videoUri w2 url) as Dl.
    destruct (download videoUri w2) as [[r w3] t3] eqn:Dw.
    unfold result, trace in Dl. simpl in *.
    intros R. destruct (Dl R) as (key & K & Ne & I).
    exists videoUri, w2, key. rewrite Dw.
    split; [exact R|]. split; [exact K|]. split; [exact Ne|].
    right. apply in_or_app. right. exact I. }
  destruct (video_prompt request), (image request);
    try exact B. discriminate.
Qed.

(** X15.  In pro mode a video comes back only as the result of a
    download, started in a world whose environment holds a non-empty key,
    and the address requested carries that key: the key read after the
    polling, not the one the call started with, nor the placeholder of
    [getClient].  So a call made where no key is ever set fails or stays
    pending, whatever the backend does. *)
Theorem pro_mode_needs_env_key fuel prompt aspectRatio referenceImage w url :
  result (generateVideo fuel prompt aspectRatio referenceImage true w)
  = Return url ->
  exists videoUri w' key,
    result (download videoUri w') = Return url
    /\ API_KEY w' = Some key
    /\ key <> EmptyString
    /\ In (Call (Fetch (videoUri ++ "&key=" ++ key)))
          (trace (generateVideo fuel prompt aspectRatio referenceImage true w)).
Proof.
  unfold GeminiService.generateVideo. simpl negb. cbv iota.
  intros H.
  apply run_return_with_trace in H as (w0 & H & T).
  destruct (veo_returns _ _ _ _ _ _ H)
    as (videoUri & w' & key & Dl & K & Ne & I).
  exists videoUri, w', key.
  split; [exact Dl|]. split; [exact K|]. split; [exact Ne|].
  apply T. exact I.
Qed.

(** [response.text] of the client library. *)
Variable response_text : Response -> option string.


(** X17.  Opening the key dialog from the interface never fails: a
    rejection of the dialog is logged and swallowed, and without a
    selector nothing happens at all. *)
Theorem openKeySelection_never_throws w :
  (forall e,
      result (openKeySelection World aistudio_available openSelectKey w)
      <> Throw e)
  /\ (aistudio_available w = false ->
      openKeySelection World aistudio_available openSelectKey w
      = (Return tt, w, []))
  /\ (forall e w1,
         aistudio_available w = true ->
         openSelectKey w = (Throw e, w1) ->
         openKeySelection World aistudio_available openSelectKey w
         = (Return tt, w1,
            [Svc OpenSelectKey;
             ConsoleError "Failed to open key selection:" e])).
Proof.
  unfold openKeySelection, try_catch, relabel, perform, emit, ret, result.
  destruct (aistudio_available w);
    [destruct (openSelectKey w) as [[u|e0|] w1]|];
    simpl; repeat split;
    try discriminate;
    try (intros e w0 _ H; inversion H; subst; reflexivity);
    try (intros e w0 _ H; discriminate H).
Qed.

End Video.

(** *** Worked examples *)

Lemma returned_images_are_png_data_uris_witness :
  exists payload,
    "data:image/png;base64,QUJD" = "data:image/png;base64," ++ payload
    /\ payload <> EmptyString.
Proof.
  apply (proj1 (returned_images_are_png_data_uris
                  Demo.World Demo.no_key Demo.available Demo.key_selected
                  (Demo.client (ThrownError "503 overloaded" (Foreign "sdk"))))
           "a cat" SQUARE K1 0 "data:image/png;base64,QUJD").
  reflexivity.
Defined.


Lemma polling_bound_is_only_a_bound_witness :
  generateVideo Demo.World (Demo.with_key "k") Demo.available Demo.key_selected
    (Demo.client ThrownNull) DemoRest.VideoOperation DemoRest.done
    DemoRest.video_uri DemoRest.generateVideos DemoRest.getVideosOperation
    DemoRest.setTimeout DemoRest.FetchResponse DemoRest.Blob DemoRest.ok
    DemoRest.statusText DemoRest.fetch DemoRest.res_blob
    DemoRest.createObjectURL 9 "a cat" V16_9 None true 0
  = generateVideo Demo.World (Demo.with_key "k") Demo.available Demo.key_selected
      (Demo.client ThrownNull) DemoRest.VideoOperation DemoRest.done
      DemoRest.video_uri DemoRest.generateVideos DemoRest.getVideosOperation
      DemoRest.setTimeout DemoRest.FetchResponse DemoRest.Blob DemoRest.ok
      DemoRest.statusText DemoRest.fetch DemoRest.res_blob
      DemoRest.createObjectURL 2 "a cat" V16_9 None true 0.
Proof.
  apply (polling_bound_is_only_a_bound
           Demo.World (Demo.with_key "k") Demo.available Demo.key_selected
           (Demo.client ThrownNull) DemoRest.VideoOperation DemoRest.done
           DemoRest.video_uri DemoRest.generateVideos
           DemoRest.getVideosOperation DemoRest.setTimeout
           DemoRest.FetchResponse DemoRest.Blob DemoRest.ok
           DemoRest.statusText DemoRest.fetch DemoRest.res_blob
           DemoRest.createObjectURL 2 9 "a cat" V16_9 None true 0).
  - reflexivity.
  - lia.
Defined.

Lemma pro_mode_needs_input_witness :
  generateVideo Demo.World (Demo.with_key "k") Demo.available Demo.key_selected
    (Demo.client ThrownNull) DemoRest.VideoOperation DemoRest.done
    DemoRest.video_uri DemoRest.generateVideos DemoRest.getVideosOperation
    DemoRest.setTimeout DemoRest.FetchResponse DemoRest.Blob DemoRest.ok
    DemoRest.statusText DemoRest.fetch DemoRest.res_blob
    DemoRest.createObjectURL 3 EmptyString V16_9 (Some EmptyString) true 0
  = (Throw (new_Error 99 "Prompt or Image required for video generation"),
     0, [Invoke]).
Proof.
  apply (pro_mode_needs_input
           Demo.World (Demo.with_key "k") Demo.available Demo.key_selected
           (Demo.client ThrownNull) DemoRest.VideoOperation DemoRest.done
           DemoRest.video_uri DemoRest.generateVideos
           DemoRest.getVideosOperation DemoRest.setTimeout
           DemoRest.FetchResponse DemoRest.Blob DemoRest.ok
           DemoRest.statusText DemoRest.fetch DemoRest.res_blob
           DemoRest.createObjectURL 3 V16_9 (Some EmptyString) 0).
  reflexivity.
Defined.

Lemma pro_mode_needs_env_key_witness :
  exists videoUri w' key,
    result
      (download Demo.World (Demo.key_after 3) DemoRest.FetchResponse
         DemoRest.Blob DemoRest.ok DemoRest.statusText DemoRest.fetch
         DemoRest.res_blob DemoRest.createObjectURL videoUri w')
    = Return "blob:https://studio.example/1"
    /\ Demo.key_after 3 w' = Some key
    /\ key <> EmptyString
    /\ In (Call (Fetch (videoUri ++ "&key=" ++ key)))
          (trace
             (generateVideo Demo.World (Demo.key_after 3) Demo.available
                Demo.key_selected (Demo.client ThrownNull)
                DemoRest.VideoOperation DemoRest.done DemoRest.video_uri
                DemoRest.generateVideos DemoRest.getVideosOperation
                DemoRest.setTimeout DemoRest.FetchResponse DemoRest.Blob
                DemoRest.ok DemoRest.statusText DemoRest.fetch
                DemoRest.res_blob DemoRest.createObjectURL
                9 "a cat" V16_9 None true 0)).
Proof.
  apply (pro_mode_needs_env_key
           Demo.World (Demo.key_after 3) Demo.available Demo.key_selected
           (Demo.client ThrownNull) DemoRest.VideoOperation DemoRest.done
           DemoRest.video_uri DemoRest.generateVideos
           DemoRest.getVideosOperation DemoRest.setTimeout
           DemoRest.FetchResponse DemoRest.Blob DemoRest.ok
           DemoRest.statusText DemoRest.fetch DemoRest.res_blob
           DemoRest.createObjectURL 9 "a cat" V16_9 None 0
           "blob:https://studio.example/1").
  reflexivity.
Defined.


Lemma openKeySelection_never_throws_witness :
  openKeySelection Demo.World Demo.available Demo.key_rejected 0
  = (Return tt, 0,
     [Svc OpenSelectKey;
      ConsoleError "Failed to open key selection:"
        (ThrownString "dialog closed")]).
Proof.
  apply (proj2 (proj2 (openKeySelection_never_throws
                         Demo.World Demo.available Demo.key_rejected 0))
           (ThrownString "dialog closed") 0);
    reflexivity.
Defined.

End CallSiteMore.

(* ================================================================== *)
(** ** The prompt history of the image generator *)

Module ImageGenFacts.

Import Js.
Import GeminiService.
Import GeminiServiceRest.
Import ImageGen.

Lemma AspectRatio_eqb_eq (a b : AspectRatio) :
  AspectRatio_eqb a b = true <-> a = b.
Proof. destruct a, b; simpl; split; intros H; congruence. Qed.

Lemma ImageSize_eqb_eq (a b : ImageSize) :
  ImageSize_eqb a b = true <-> a = b.
Proof. destruct a, b; simpl; split; intros H; congruence. Qed.

Lemma differs_false (n h : HistoryItem) :
  differs (prompt n) (aspectRatio n) (size n) h = false ->
  settings h = settings n.
Proof.
  unfold differs, settings. intros H.
  apply orb_false_iff in H as [H Z]. apply orb_false_iff in H as [P A].
  apply negb_false_iff in P, A, Z.
  apply String.eqb_eq in P. apply AspectRatio_eqb_eq in A.
  apply ImageSize_eqb_eq in Z. congruence.
Qed.

Lemma differs_iff (n h : HistoryItem) :
  differs (prompt n) (aspectRatio n) (size n) h = true
  <-> settings h <> settings n.
Proof.
  split.
  - unfold differs, settings. intros H E. inversion E as [[E1 E2 E3]].
    rewrite E1, E2, E3, String.eqb_refl in H.
    rewrite (proj2 (AspectRatio_eqb_eq _ _) eq_refl) in H.
    rewrite (proj2 (ImageSize_eqb_eq _ _) eq_refl) in H.
    discriminate H.
  - intros N.
    destruct (differs (prompt n) (aspectRatio n) (size n) h) eqn:D;
      [reflexivity|].
    destruct (N (differs_false n h D)).
Qed.

Lemma In_firstn {A} (n : nat) (l : list A) (x : A) :
  In x (firstn n l) -> In x l.
Proof.
  intros H. rewrite <- (firstn_skipn n l). apply in_or_app. now left.
Qed.

Lemma NoDup_map_firstn {A B} (g : A -> B) (n : nat) (l : list A) :
  NoDup (map g l) -> NoDup (map g (firstn n l)).
Proof.
  revert n. induction l as [|x l IH]; intros n H.
  - destruct n; exact H.
  - destruct n as [|n]; simpl; [constructor|].
    inversion H as [|? ? Hx Hl]; subst. constructor.
    + intros I. apply Hx. apply in_map_iff in I as (y & E & I).
      apply in_map_iff. exists y. split; [exact E|].
      eapply In_firstn; eauto.
    + apply IH. exact Hl.
Qed.

Lemma NoDup_map_filter {A B} (g : A -> B) (f : A -> bool) (l : list A) :
  NoDup (map g l) -> NoDup (map g (filter f l)).
Proof.
  induction l as [|x l IH]; intros H; simpl; [constructor|].
  inversion H as [|? ? Hx Hl]; subst.
  destruct (f x); simpl; [|now apply IH].
  constructor; [|now apply IH].
  intros I. apply Hx. apply in_map_iff in I as (y & E & I).
  apply in_map_iff. exists y. split; [exact E|].
  apply filter_In in I. tauto.
Qed.

Lemma next_history_unfold (n : HistoryItem) (l : list HistoryItem) :
  next_history n l
  = n :: firstn 9 (filter (differs (prompt n) (aspectRatio n) (size n)) l).
Proof. reflexivity. Qed.

Lemma next_history_is_bounded (n : HistoryItem) (l : list HistoryItem) :
  List.length (next_history n l) <= 10.
Proof.
  rewrite next_history_unfold. cbn [List.length].
  pose proof (firstn_le_length 9
                (filter (differs (prompt n) (aspectRatio n) (size n)) l)).
  lia.
Qed.

Lemma next_history_distinct (n : HistoryItem) (l : list HistoryItem) :
  distinct_settings l -> distinct_settings (next_history n l).
Proof.
  unfold distinct_settings. intros H. rewrite next_history_unfold.
  cbn [map]. constructor.
  - intros I. apply in_map_iff in I as (h & E & I).
    apply In_firstn in I. apply filter_In in I as [_ D].
    apply differs_iff in D. congruence.
  - apply NoDup_map_firstn, NoDup_map_filter. exact H.
Qed.

(** X18.  The history never holds more than ten entries; the newest
    request comes first; no older entry repeats its settings; and every
    older entry shown was in the history before. *)
Theorem next_history_is_bounded_and_fresh (newItem : HistoryItem)
  (history : list HistoryItem) :
  List.length (next_history newItem history) <= 10
  /\ hd_error (next_history newItem history) = Some newItem
  /\ (forall h, In h (tl (next_history newItem history)) ->
                settings h <> settings newItem /\ In h history).
Proof.
  rewrite next_history_unfold. split; [|split].
  - cbn [List.length].
    pose proof (firstn_le_length 9
                  (filter (differs (prompt newItem) (aspectRatio newItem)
                             (size newItem)) history)).
    lia.
  - reflexivity.
  - cbn [tl]. intros h H. apply In_firstn in H. apply filter_In in H as [I D].
    split; [|exact I]. now apply differs_iff.
Qed.

(** X19.  A history that holds no settings twice still holds none twice
    after a request is added. *)
Theorem next_history_keeps_settings_distinct (newItem : HistoryItem)
  (history : list HistoryItem) :
  distinct_settings history ->
  distinct_settings (next_history newItem history).
Proof.
  unfold distinct_settings. intros H. rewrite next_history_unfold.
  cbn [map]. constructor.
  - intros I. apply in_map_iff in I as (h & E & I).
    apply In_firstn in I. apply filter_In in I as [_ D].
    apply differs_iff in D. congruence.
  - apply NoDup_map_firstn, NoDup_map_filter. exact H.
Qed.

Lemma filter_all_differ (n : HistoryItem) (l : list HistoryItem) :
  ~ In (settings n) (map settings l) ->
  filter (differs (prompt n) (aspectRatio n) (size n)) l = l.
Proof.
  induction l as [|h l IH]; intros N; simpl; [reflexivity|].
  assert (D : differs (prompt n) (aspectRatio n) (size n) h = true).
  { apply differs_iff. intros E. apply N. left. exact E. }
  rewrite D, IH; [reflexivity|]. intros I. apply N. now right.
Qed.

Lemma filter_drops_one (n : HistoryItem) (l : list HistoryItem) :
  NoDup (map settings l) ->
  In (settings n) (map settings l) ->
  S (List.length (filter (differs (prompt n) (aspectRatio n) (size n)) l))
  = List.length l.
Proof.
  induction l as [|h l IH]; intros D I; [destruct I|].
  inversion D as [|? ? Hh Hl]; subst. simpl.
  destruct (differs (prompt n) (aspectRatio n) (size n) h) eqn:E.
  - simpl. f_equal. apply IH; [exact Hl|].
    destruct I as [I|I]; [|exact I].
    apply differs_iff in E. congruence.
  - pose proof (differs_false n h E) as Eq.
    rewrite filter_all_differ; [reflexivity|]. now rewrite <- Eq.
Qed.

(** X20.  Asking again for settings that are already in a history of at
    most ten distinct entries moves them to the front and leaves the
    length as it was; asking for new settings adds one entry, up to
    ten. *)
Theorem history_length_after_request (newItem : HistoryItem)
  (history : list HistoryItem) :
  distinct_settings history ->
  List.length history <= 10 ->
  (In (settings newItem) (map settings history) ->
   List.length (next_history newItem history) = List.length history)
  /\ (~ In (settings newItem) (map settings history) ->
      List.length (next_history newItem history)
      = Nat.min 10 (S (List.length history))).
Proof.
  intros D L. rewrite next_history_unfold. cbn [List.length].
  rewrite length_firstn. split; intros I.
  - pose proof (filter_drops_one newItem history D I). lia.
  - rewrite (filter_all_differ newItem history I). lia.
Qed.

Lemma next_history_is_bounded_and_fresh_witness :
  settings {| prompt := "a dog"; aspectRatio := SQUARE; size := K1;
              timestamp := 20 |}
  <> settings {| prompt := "a cat"; aspectRatio := SQUARE; size := K1;
                 timestamp := 30 |}
  /\ In {| prompt := "a dog"; aspectRatio := SQUARE; size := K1;
           timestamp := 20 |}
        [ {| prompt := "a dog"; aspectRatio := SQUARE; size := K1;
             timestamp := 20 |};
          {| prompt := "a cat"; aspectRatio := SQUARE; size := K1;
             timestamp := 10 |} ].
Proof.
  apply (proj2 (proj2 (next_history_is_bounded_and_fresh
                         {| prompt := "a cat"; aspectRatio := SQUARE;
                            size := K1; timestamp := 30 |}
                         [ {| prompt := "a dog"; aspectRatio := SQUARE;
                              size := K1; timestamp := 20 |};
                           {| prompt := "a cat"; aspectRatio := SQUARE;
                              size := K1; timestamp := 10 |} ]))).
  simpl. left. reflexivity.
Defined.

Lemma next_history_keeps_settings_distinct_witness :
  distinct_settings
    (next_history
       {| prompt := "a cat"; aspectRatio := SQUARE; size := K1; timestamp := 30 |}
       [ {| prompt := "a dog"; aspectRatio := SQUARE; size := K1; timestamp := 20 |};
         {| prompt := "a cat"; aspectRatio := SQUARE; size := K1; timestamp := 10 |} ]).
Proof.
  apply next_history_keeps_settings_distinct.
  unfold distinct_settings. simpl.
  repeat constructor; simpl; intuition discriminate.
Defined.

Lemma history_length_after_request_witness :
  List.length
    (next_history
       {| prompt := "a cat"; aspectRatio := SQUARE; size := K1; timestamp := 30 |}
       [ {| prompt := "a dog"; aspectRatio := SQUARE; size := K1; timestamp := 20 |};
         {| prompt := "a cat"; aspectRatio := SQUARE; size := K1; timestamp := 10 |} ])
  = 2.
Proof.
  refine (proj1 (history_length_after_request
                   {| prompt := "a cat"; aspectRatio := SQUARE; size := K1;
                      timestamp := 30 |}
                   [ {| prompt := "a dog"; aspectRatio := SQUARE; size := K1;
                        timestamp := 20 |};
                     {| prompt := "a cat"; aspectRatio := SQUARE; size := K1;
                        timestamp := 10 |} ] _ _) _).
  - unfold distinct_settings. simpl.
    repeat constructor; simpl; intuition discriminate.
  - simpl. lia.
  - simpl. right. left. reflexivity.
Defined.

Section Handler.

Variable World : Type.
Variable API_KEY : World -> option string.
Variable aistudio_available : World -> bool.
Variable openSelectKey : World -> outcome unit * World.
Variable generateContent :
  string -> Request -> World -> outcome Response * World.
Variable Date_now : World -> Z.
Variable JSON_stringify : list HistoryItem -> string.
Variable localStorage_setItem :
  string -> string -> World -> option thrown * World.

Local Abbreviation handleGenerate :=
  (handleGenerate World API_KEY aistudio_available openSelectKey
     generateContent Date_now JSON_stringify localStorage_setItem).

(** X21.  Whatever the service and the storage do, [handleGenerate]
    leaves a history of at most ten entries with distinct settings when it
    found one, and it changes the history only when an image came back. *)
Theorem handleGenerate_keeps_the_history_in_shape (st : State) (w : World) :
  distinct_settings (history st) ->
  List.length (history st) <= 10 ->
  let st' := fst (fst (handleGenerate st w)) in
  distinct_settings (history st')
  /\ List.length (history st') <= 10
  /\ (resultImage st' = None -> history st' = history st).
Proof.
  intros D L. unfold ImageGen.handleGenerate. cbv zeta.
  destruct (negb (JsString.truthy (st_prompt st)));
    [cbn [fst]; auto|].
  destruct (generateImage World API_KEY aistudio_available openSelectKey
              generateContent (st_prompt st) (st_aspectRatio st) (st_size st) w)
    as [[[img|err|] w1] t];
    [| cbn [fst history resultImage]; auto
     | cbn [fst history resultImage]; auto].
  destruct (localStorage_setItem _ _ w1) as [[err|] w2];
    cbn [fst history resultImage];
    (split; [now apply next_history_distinct|]);
    (split; [apply next_history_is_bounded | discriminate]).
Qed.

End Handler.

Lemma handleGenerate_keeps_the_history_in_shape_witness :
  let st' :=
    fst (fst (handleGenerate Demo.World Demo.no_key Demo.available Demo.key_selected
                (Demo.client (ThrownError "503 overloaded" (Foreign "sdk")))
                (fun w => Z.of_nat w) (fun _ => "[]")
                (fun _ _ w => (None, w))
                {| st_prompt := "a cat"; st_aspectRatio := SQUARE;
                   st_size := K1; loading := false; resultImage := None;
                   saved := false; history := [] |} 0)) in
  distinct_settings (history st')
  /\ List.length (history st') <= 10
  /\ (resultImage st' = None -> history st' = []).
Proof.
  apply (handleGenerate_keeps_the_history_in_shape
           Demo.World Demo.no_key Demo.available Demo.key_selected
           (Demo.client (ThrownError "503 overloaded" (Foreign "sdk")))
           (fun w => Z.of_nat w) (fun _ => "[]")
           (fun _ _ w => (None, w))
           {| st_prompt := "a cat"; st_aspectRatio := SQUARE;
              st_size := K1; loading := false; resultImage := None;
              saved := false; history := [] |} 0).
  - constructor.
  - simpl. lia.
Defined.

End ImageGenFacts.

(* ================================================================== *)
(** ** The edit history of the image editor *)

Module ImageEditFacts.

Import Js.
Import GeminiService.
Import GeminiServiceRest.
Import ImageEdit.

Lemma slice0_in_range {A} (l : list A) (e : Z) :
  (0 <= e <= Z.of_nat (List.length l))%Z ->
  slice0 l e = firstn (Z.to_nat e) l
  /\ List.length (slice0 l e) = Z.to_nat e.
Proof.
  intros R. unfold slice0.
  destruct (e <? 0)%Z eqn:N; [apply Z.ltb_lt in N; lia|].
  rewrite Z.min_l by lia. split; [reflexivity|].
  rewrite length_firstn. lia.
Qed.

Lemma well_formed_range (st : State) :
  well_formed st ->
  (0 <= historyIndex st + 1 <= Z.of_nat (List.length (history st)))%Z.
Proof. intros [[H I]|R]; [rewrite H, I; simpl; lia | lia]. Qed.

Lemma step_well_formed (a : action) (st : State) :
  well_formed st -> well_formed (step a st).
Proof.
  intros W. destruct a; simpl.
  - right. simpl. lia.
  - unfold handleApply. destruct (resultImage st) as [r|]; [|exact W].
    destruct (JsString.truthy r); [|exact W].
    right. cbn [history historyIndex]. rewrite length_app. simpl. lia.
  - exact W.
  - unfold handleUndo. destruct (pending_result st); [exact W|].
    destruct (historyIndex st >? 0)%Z eqn:G; [|exact W].
    apply Z.gtb_lt in G. right. cbn [history historyIndex].
    destruct W as [[_ I]|R]; lia.
  - unfold handleRedo, canRedo.
    destruct (historyIndex st <? Z.of_nat (List.length (history st)) - 1)%Z
      eqn:G; [|exact W].
    apply Z.ltb_lt in G. right. cbn [history historyIndex].
    destruct W as [[H I]|R]; [rewrite H, I in G; simpl in G; lia | lia].
  - left. split; reflexivity.
  - destruct (can_edit st); exact W.
  - exact W.
  - exact W.
Qed.

Lemma run_well_formed (actions : list action) (st : State) :
  well_formed st -> well_formed (run actions st).
Proof.
  revert st. induction actions as [|a actions IH]; intros st W; simpl.
  - exact W.
  - apply IH. now apply step_well_formed.
Qed.

(** In a well-formed state with a history, the read [history[historyIndex]]
    finds an entry. *)
Lemma current_entry (st : State) :
  well_formed st ->
  history st <> [] ->
  exists entry,
    nth_error (history st) (Z.to_nat (historyIndex st)) = Some entry
    /\ currentImage st = entry.
Proof.
  unfold currentImage. intros [[H I]|R] Ne; [congruence|].
  destruct (nth_error (history st) (Z.to_nat (historyIndex st)))
    as [entry|] eqn:E.
  - exists entry. split; [reflexivity|].
    destruct (historyIndex st >=? 0)%Z eqn:G; [reflexivity|].
    rewrite Z.geb_leb in G. apply Z.leb_gt in G. lia.
  - apply nth_error_None in E. lia.
Qed.

(** X22.  Through any sequence of file reads, edits, applies, discards,
    undos, redos and resets, in any order and with edits finishing at any
    time, the index stays inside the history, and is -1 exactly on an
    empty one.  So the read [history[historyIndex]] never falls outside
    a history that has entries: the image shown is the entry at the
    index, whatever that entry is. *)
Theorem the_index_stays_inside_the_history (actions : list action) :
  let st := run actions initial in
  well_formed st
  /\ (historyIndex st = (-1)%Z <-> history st = [])
  /\ (history st <> [] ->
      (0 <= historyIndex st < Z.of_nat (List.length (history st)))%Z
      /\ exists entry,
          nth_error (history st) (Z.to_nat (historyIndex st)) = Some entry
          /\ currentImage st = entry).
Proof.
  cbv zeta.
  assert (W : well_formed (run actions initial)).
  { apply run_well_formed. left. split; reflexivity. }
  split; [exact W|]. split; [|intros Ne; split].
  - destruct W as [[H I]|R]; [tauto|].
    split; [lia|]. intros E. rewrite E in R. simpl in R. lia.
  - destruct W as [[H I]|R]; [congruence | exact R].
  - now apply current_entry.
Qed.

Lemma the_index_stays_inside_the_history_witness :
  (0 <= historyIndex (run [FileChange None] initial)
   < Z.of_nat (List.length (history (run [FileChange None] initial))))%Z
  /\ exists entry,
      nth_error (history (run [FileChange None] initial))
        (Z.to_nat (historyIndex (run [FileChange None] initial)))
      = Some entry
      /\ currentImage (run [FileChange None] initial) = entry.
Proof.
  apply (proj2 (proj2 (the_index_stays_inside_the_history [FileChange None]))).
  discriminate.
Defined.

(** X23.  Undo and redo are inverse to each other: with no result
    pending, a redo followed by an undo, and an undo followed by a redo,
    bring back the very same state, whenever the first of the two is
    available. *)
Theorem undo_and_redo_are_inverse (st : State) :
  well_formed st ->
  resultImage st = None ->
  (canRedo st = true -> handleUndo (handleRedo st) = st)
  /\ ((historyIndex st > 0)%Z -> handleRedo (handleUndo st) = st).
Proof.
  intros W N. destruct st as [p h i r l s]. simpl in N. subst r.
  unfold well_formed in W. simpl in W. split.
  - unfold handleRedo, canRedo. cbn [historyIndex history].
    intros G. rewrite G. apply Z.ltb_lt in G.
    unfold handleUndo, pending_result. cbn [resultImage truthy_opt].
    cbn [historyIndex].
    assert (P : (i + 1 >? 0)%Z = true).
    { apply Z.gtb_lt. destruct W as [[H I]|R]; [subst; simpl in G; lia | lia]. }
    rewrite P. cbn. f_equal. lia.
  - intros G. cbn [historyIndex] in G. unfold handleUndo, pending_result.
    cbn [resultImage truthy_opt historyIndex].
    assert (P : (i >? 0)%Z = true) by (apply Z.gtb_lt; lia).
    rewrite P. unfold handleRedo, canRedo. cbn [historyIndex history].
    assert (Q : (i - 1 <? Z.of_nat (List.length h) - 1)%Z = true).
    { apply Z.ltb_lt. destruct W as [[H I]|R]; lia. }
    rewrite Q. cbn. f_equal. lia.
Qed.

Lemma undo_and_redo_are_inverse_witness :
  handleUndo
    (handleRedo
       {| prompt := "brighter"; history := [Some "data:a"; Some "data:b"];
          historyIndex := 0; resultImage := None; loading := false;
          saved := false |})
  = {| prompt := "brighter"; history := [Some "data:a"; Some "data:b"];
       historyIndex := 0; resultImage := None; loading := false;
       saved := false |}.
Proof.
  refine (proj1 (undo_and_redo_are_inverse
                   {| prompt := "brighter"; history := [Some "data:a"; Some "data:b"];
                      historyIndex := 0; resultImage := None;
                      loading := false; saved := false |} _ eq_refl) eq_refl).
  right. simpl. lia.
Defined.

(** X24.  Applying a pending result puts it right after the image
    shown at that moment and drops every image that could still be
    redone: the result becomes the image shown, redo is no longer
    available, and one undo shows again the image that was shown before
    the apply.  (The image shown need not be the one the result was made
    from: undo and redo stay available while an edit is running.) *)
Theorem apply_appends_and_drops_the_redo_tail (st : State) (r : string) :
  well_formed st ->
  resultImage st = Some r ->
  r <> EmptyString ->
  let st' := handleApply st in
  history st'
  = (firstn (Z.to_nat (historyIndex st + 1)) (history st) ++ [Some r])%list
  /\ historyIndex st' = (historyIndex st + 1)%Z
  /\ currentImage st' = Some r
  /\ canRedo st' = false
  /\ resultImage st' = None
  /\ ((0 <= historyIndex st)%Z ->
      currentImage (handleUndo st') = currentImage st).
Proof.
  intros W R Ne.
  pose proof (well_formed_range st W) as Rg.
  destruct (slice0_in_range (history st) (historyIndex st + 1) Rg) as [Sl Ln].
  unfold handleApply. rewrite R.
  destruct r as [|c r']; [congruence|]. cbn [JsString.truthy]. cbv zeta.
  cbn [history historyIndex resultImage].
  rewrite Sl in *.
  assert (Len : List.length
                  (firstn (Z.to_nat (historyIndex st + 1)) (history st)
                   ++ [Some (String c r')])%list
                = S (Z.to_nat (historyIndex st + 1))).
  { rewrite length_app, Ln. simpl. lia. }
  assert (Idx : (Z.of_nat
                   (List.length
                      (firstn (Z.to_nat (historyIndex st + 1)) (history st)
                       ++ [Some (String c r')])%list) - 1
                 = historyIndex st + 1)%Z).
  { rewrite Len. lia. }
  split; [reflexivity|]. split; [exact Idx|]. split; [|split; [|split]].
  - unfold currentImage. cbn [history historyIndex]. rewrite Idx.
    destruct (historyIndex st + 1 >=? 0)%Z eqn:G;
      [|rewrite Z.geb_leb in G; apply Z.leb_gt in G; lia].
    rewrite nth_error_app2 by lia.
    rewrite Ln, Nat.sub_diag. reflexivity.
  - unfold canRedo. cbn [history historyIndex]. rewrite Idx.
    apply Z.ltb_ge. lia.
  - reflexivity.
  - intros P. unfold handleUndo, pending_result.
    cbn [resultImage truthy_opt historyIndex]. rewrite Idx.
    assert (G : (historyIndex st + 1 >? 0)%Z = true)
      by (apply Z.gtb_lt; lia).
    rewrite G. unfold currentImage. cbn [history historyIndex].
    replace (historyIndex st + 1 - 1)%Z with (historyIndex st) by lia.
    destruct (historyIndex st >=? 0)%Z; [|reflexivity].
    rewrite nth_error_app1 by lia.
    rewrite nth_error_firstn.
    destruct (Z.to_nat (historyIndex st) <? Z.to_nat (historyIndex st + 1))%nat
      eqn:Lt; [reflexivity|].
    apply Nat.ltb_ge in Lt. lia.
Qed.

Lemma apply_appends_and_drops_the_redo_tail_witness :
  history
    (handleApply
       {| prompt := "brighter";
          history := [Some "data:a"; Some "data:b"; Some "data:c"];
          historyIndex := 0; resultImage := Some "data:x"; loading := false;
          saved := false |})
  = [Some "data:a"; Some "data:x"].
Proof.
  refine (proj1 (apply_appends_and_drops_the_redo_tail
                   {| prompt := "brighter";
                      history := [Some "data:a"; Some "data:b"; Some "data:c"];
                      historyIndex := 0; resultImage := Some "data:x";
                      loading := false; saved := false |}
                   "data:x" _ eq_refl _)).
  - right. simpl. lia.
  - discriminate.
Defined.

Section Handler.

Variable World : Type.
Variable API_KEY : World -> option string.
Variable aistudio_available : World -> bool.
Variable openSelectKey : World -> outcome unit * World.
Variable generateContent :
  string -> Request -> World -> outcome Response * World.

Local Abbreviation handleEdit :=
  (handleEdit World API_KEY aistudio_available openSelectKey generateContent).
Local Abbreviation editImage :=
  (editImage World API_KEY aistudio_available openSelectKey generateContent).

(** The request [editImage] makes of the flash model. *)
Lemma editImage_trace base64Image prompt mimeType w :
  exists extra,
    trace (editImage base64Image prompt mimeType w)
    = Invoke
      :: Call (GenerateContent (getClient World API_KEY w)
                 {| model := "gemini-2.5-flash-image";
                    contents :=
                      [ {| inlineData :=
                             Some {| mimeType := mimeType;
                                     data := Some (base64_of base64Image) |};
                           text := None |};
                        text_part prompt ];
                    config := NoConfig |})
      :: extra.
Proof.
  unfold GeminiService.editImage.
  match goal with
  | |- context [runWithAuthRetry _ _ _ ?op true w] =>
      destruct (GatewayFacts.run_trace_shape World aistudio_available
                  openSelectKey string op true w) as (extra & -> & _)
  end.
  rewrite CallSiteFacts.generate_then_trace.
  exists extra. reflexivity.
Qed.

(** The handler is the start of an edit followed by its completion. *)
Lemma handleEdit_in_steps st w :
  fst (fst (handleEdit st w))
  = if can_edit st then
      match currentImage st with
      | Some image =>
          match result (editImage image (prompt st) "image/png" w) with
          | Return edited => step (EditDone edited) (step EditStart st)
          | Throw _ => step EditFailed (step EditStart st)
          | Pending => step EditStart st
          end
      | None => st
      end
    else st.
Proof.
  unfold ImageEdit.handleEdit, step, can_edit.
  destruct (currentImage st) as [image|]; [|reflexivity].
  destruct (JsString.truthy (prompt st) && JsString.truthy image);
    [|reflexivity].
  unfold result.
  destruct (editImage image (prompt st) "image/png" w)
    as [[[edited|err|] w1] t]; reflexivity.
Qed.

(** X25.  An edit always declares the image it sends as [image/png],
    whatever type the data URI of that image names: the first thing the
    handler does is to enter the gateway and ask the flash model with the
    data cut out of the current image, that type, and the prompt. *)
Theorem handleEdit_sends_the_image_as_png st w image :
  currentImage st = Some image ->
  can_edit st = true ->
  exists rest,
    snd (handleEdit st w)
    = Svc Invoke
      :: Svc (Call (GenerateContent (getClient World API_KEY w)
                      {| model := "gemini-2.5-flash-image";
                         contents :=
                           [ {| inlineData :=
                                  Some {| mimeType := "image/png";
                                          data := Some (base64_of image) |};
                                text := None |};
                             text_part (prompt st) ];
                         config := NoConfig |}))
      :: rest.
Proof.
  intros C G. unfold ImageEdit.handleEdit. unfold can_edit in G.
  rewrite C in G |- *. rewrite G.
  destruct (editImage_trace image (prompt st) "image/png" w) as [extra T].
  destruct (editImage image (prompt st) "image/png" w) as [[r w1] t].
  unfold trace in T; simpl in T. subst t.
  destruct r; eexists; reflexivity.
Qed.

End Handler.

Lemma handleEdit_sends_the_image_as_png_witness :
  exists rest,
    snd (handleEdit Demo.World Demo.no_key Demo.available Demo.key_selected
           (Demo.client ThrownNull)
           {| prompt := "brighter";
              history := [Some "data:image/jpeg;base64,QUJD"];
              historyIndex := 0; resultImage := None; loading := false;
              saved := false |} 0)
    = Svc Invoke
      :: Svc (Call (GenerateContent (getClient Demo.World Demo.no_key 0)
                      {| model := "gemini-2.5-flash-image";
                         contents :=
                           [ {| inlineData :=
                                  Some {| mimeType := "image/png";
                                          data := Some (base64_of "data:image/jpeg;base64,QUJD") |};
                                text := None |};
                             text_part "brighter" ];
                         config := NoConfig |}))
      :: rest.
Proof.
  apply (handleEdit_sends_the_image_as_png
           Demo.World Demo.no_key Demo.available Demo.key_selected
           (Demo.client ThrownNull)
           {| prompt := "brighter";
              history := [Some "data:image/jpeg;base64,QUJD"];
              historyIndex := 0; resultImage := None; loading := false;
              saved := false |} 0 "data:image/jpeg;base64,QUJD");
    reflexivity.
Defined.

End ImageEditFacts.

(* ================================================================== *)
(** ** The video studio and the chat *)

Module ViewFacts.

Import Js.
Import GeminiService.
Import GeminiServiceRest.
Import Readings.

Section Video.

Variable World : Type.
Variable API_KEY : World -> option string.
Variable aistudio_available : World -> bool.
Variable openSelectKey : World -> outcome unit * World.
Variable generateContent :
  string -> Request -> World -> outcome Response * World.
Variable VideoOperation : Type.
Variable done : VideoOperation -> bool.
Variable video_uri : VideoOperation -> option string.
Variable generateVideos :
  string -> VideoRequest -> World -> outcome VideoOperation * World.
Variable getVideosOperation :
  string -> VideoOperation -> World -> outcome VideoOperation * World.
Variable setTimeout : Z -> World -> World.
Variable FetchResponse : Type.
Variable Blob : Type.
Variable ok : FetchResponse -> bool.
Variable statusText : FetchResponse -> string.
Variable fetch : string -> World -> outcome FetchResponse * World.
Variable res_blob : FetchResponse -> World -> outcome Blob * World.
Variable createObjectURL : Blob -> World -> string * World.

Local Abbreviation handleGenerate :=
  (VideoGen.handleGenerate World API_KEY aistudio_available openSelectKey
     generateContent VideoOperation done video_uri generateVideos
     getVideosOperation setTimeout FetchResponse Blob ok statusText fetch
     res_blob createObjectURL).
Local Abbreviation generateVideo :=
  (generateVideo World API_KEY aistudio_available openSelectKey
     generateContent VideoOperation done video_uri generateVideos
     getVideosOperation setTimeout FetchResponse Blob ok statusText fetch
     res_blob createObjectURL).

Lemma free_mode_returns_png fuel prompt aspectRatio referenceImage w url :
  result (generateVideo fuel prompt aspectRatio referenceImage false w)
  = Return url ->
  png_data_uri url.
Proof.
  unfold GeminiService.generateVideo. simpl negb. cbv iota.
  destruct (truthy_opt referenceImage).
  - apply CallSiteMore.editImage_png.
  - apply CallSiteMore.generateImage_png.
Qed.

(** X26.  In the free mode the studio shows a PNG data URI, and it takes
    that image for a video exactly when the base64 text of the image
    happens to contain the letters [video]. *)
Theorem free_mode_result_and_its_video_flag fuel st w url :
  VideoGen.useProMode st = false ->
  JsString.truthy (VideoGen.prompt st)
  || truthy_opt (VideoGen.referenceImage st) = true ->
  let st' := fst (fst (handleGenerate fuel st w)) in
  VideoGen.resultUrl st' = Some url ->
  url = header ++ uri_payload url
  /\ uri_payload url <> EmptyString
  /\ VideoGen.isVideo st' = JsString.includes (uri_payload url) "video"
  /\ VideoGen.loading st' = false.
Proof.
  intros M G. unfold VideoGen.handleGenerate. cbv zeta.
  assert (G' : negb (JsString.truthy (VideoGen.prompt st))
               && negb (truthy_opt (VideoGen.referenceImage st)) = false).
  { destruct (JsString.truthy (VideoGen.prompt st)); [reflexivity|].
    simpl in G. rewrite G. reflexivity. }
  rewrite G', M.
  pose proof (free_mode_returns_png fuel (VideoGen.prompt st)
                (VideoGen.aspectRatio st)
                (if truthy_opt (VideoGen.referenceImage st)
                 then VideoGen.referenceImage st else None) w) as P.
  destruct (generateVideo fuel (VideoGen.prompt st) (VideoGen.aspectRatio st)
              (if truthy_opt (VideoGen.referenceImage st)
               then VideoGen.referenceImage st else None) false w)
    as [[[u|err|] w1] t];
    cbn [fst VideoGen.resultUrl VideoGen.isVideo VideoGen.loading];
    try discriminate.
  intros E. inversion E; subst u.
  destruct (P url eq_refl) as (payload & -> & Ne).
  change (uri_payload (header ++ payload)) with payload.
  repeat split; trivial.
Qed.

End Video.

Lemma free_mode_result_and_its_video_flag_witness :
  let st' :=
    fst (fst (VideoGen.handleGenerate
                Demo.World Demo.no_key Demo.available Demo.key_selected
                (Demo.client (ThrownError "503 overloaded" (Foreign "sdk")))
                DemoRest.VideoOperation DemoRest.done DemoRest.video_uri
                DemoRest.generateVideos DemoRest.getVideosOperation
                DemoRest.setTimeout DemoRest.FetchResponse DemoRest.Blob
                DemoRest.ok DemoRest.statusText DemoRest.fetch
                DemoRest.res_blob DemoRest.createObjectURL 3
                {| VideoGen.prompt := "a cat"; VideoGen.aspectRatio := V16_9;
                   VideoGen.referenceImage := None; VideoGen.loading := false;
                   VideoGen.resultUrl := None; VideoGen.isVideo := false;
                   VideoGen.statusMessage := EmptyString;
                   VideoGen.saved := false; VideoGen.useProMode := false |}
                0)) in
  "data:image/png;base64,QUJD" = header ++ uri_payload "data:image/png;base64,QUJD"
  /\ uri_payload "data:image/png;base64,QUJD" <> EmptyString
  /\ VideoGen.isVideo st'
     = JsString.includes (uri_payload "data:image/png;base64,QUJD") "video"
  /\ VideoGen.loading st' = false.
Proof.
  apply (free_mode_result_and_its_video_flag
           Demo.World Demo.no_key Demo.available Demo.key_selected
           (Demo.client (ThrownError "503 overloaded" (Foreign "sdk")))
           DemoRest.VideoOperation DemoRest.done DemoRest.video_uri
           DemoRest.generateVideos DemoRest.getVideosOperation
           DemoRest.setTimeout DemoRest.FetchResponse DemoRest.Blob
           DemoRest.ok DemoRest.statusText DemoRest.fetch
           DemoRest.res_blob DemoRest.createObjectURL 3
           {| VideoGen.prompt := "a cat"; VideoGen.aspectRatio := V16_9;
              VideoGen.referenceImage := None; VideoGen.loading := false;
              VideoGen.resultUrl := None; VideoGen.isVideo := false;
              VideoGen.statusMessage := EmptyString;
              VideoGen.saved := false; VideoGen.useProMode := false |}
           0 "data:image/png;base64,QUJD");
    reflexivity.
Defined.

(** *** The chat *)

Import ChatInterface.

Lemma citations_cons (chunk : GroundingChunk) (chunks : list GroundingChunk) :
  citations (chunk :: chunks)
  = (match web chunk with
     | Some wb =>
         match uri wb with
         | Some u =>
             if JsString.truthy u
             then [ {| cite_uri := u;
                       cite_title := JsString.opt_or_else (title wb) u |} ]
             else []
         | None => []
         end
     | None => []
     end ++ citations chunks)%list.
Proof. reflexivity. Qed.

(** X27.  Every citation shown under an answer has a non-empty address
    taken from a chunk of the answer and a non-empty title (the address
    itself when the chunk has no title), and there are never more
    citations than chunks. *)
Theorem citations_have_an_address_and_a_title (chunks : list GroundingChunk) :
  List.length (citations chunks) <= List.length chunks
  /\ (forall c, In c (citations chunks) ->
                cite_uri c <> EmptyString
                /\ cite_title c <> EmptyString
                /\ exists wb, In {| web := Some wb |} chunks
                              /\ uri wb = Some (cite_uri c)
                              /\ cite_title c
                                 = JsString.opt_or_else (title wb) (cite_uri c)).
Proof.
  induction chunks as [|chunk chunks [IHl IHc]].
  - split; [simpl; lia | intros c []].
  - rewrite citations_cons.
    destruct chunk as [[[ [u|] t ]|]]; cbn [web uri title].
    + destruct u as [|a u]; cbn [JsString.truthy].
      * split; [simpl in *; lia|].
        intros c I. destruct (IHc c I) as (A & B & wb & I' & E).
        repeat split; trivial. exists wb. split; [now right | exact E].
      * split; [simpl in *; lia|].
        intros c [<-|I].
        -- cbn [cite_uri cite_title]. split; [discriminate|]. split.
           ++ destruct t as [[|b t]|]; discriminate.
           ++ exists {| uri := Some (String a u); title := t |}.
              split; [now left | split; reflexivity].
        -- destruct (IHc c I) as (A & B & wb & I' & E).
           repeat split; trivial. exists wb. split; [now right | exact E].
    + split; [simpl in *; lia|].
      intros c I. destruct (IHc c I) as (A & B & wb & I' & E).
      repeat split; trivial. exists wb. split; [now right | exact E].
    + split; [simpl in *; lia|].
      intros c I. destruct (IHc c I) as (A & B & wb & I' & E).
      repeat split; trivial. exists wb. split; [now right | exact E].
Qed.

Lemma citations_have_an_address_and_a_title_witness :
  cite_uri {| cite_uri := "https://example.org/paris";
              cite_title := "https://example.org/paris" |} <> EmptyString
  /\ cite_title {| cite_uri := "https://example.org/paris";
                   cite_title := "https://example.org/paris" |} <> EmptyString
  /\ exists wb,
      In {| web := Some wb |}
         [ {| web := Some {| uri := Some "https://example.org/paris";
                             title := None |} |};
           {| web := None |} ]
      /\ uri wb = Some "https://example.org/paris"
      /\ "https://example.org/paris"
         = JsString.opt_or_else (title wb) "https://example.org/paris".
Proof.
  apply (proj2 (citations_have_an_address_and_a_title
                  [ {| web := Some {| uri := Some "https://example.org/paris";
                                      title := None |} |};
                    {| web := None |} ])
           {| cite_uri := "https://example.org/paris";
              cite_title := "https://example.org/paris" |}).
  simpl. left. reflexivity.
Defined.

(** The conversation only grows at its end, and typing or toggling the
    search leaves it alone. *)
Lemma run_grows (actions : list action) (st : State) :
  exists added,
    messages (run actions st) = (messages st ++ added)%list
    /\ (forallb silent actions = true -> added = []).
Proof.
  revert st. induction actions as [|a actions IH]; intros st.
  - exists []. split; [now rewrite app_nil_r | reflexivity].
  - destruct (IH (step a st)) as (added & M & Q).
    change (run (a :: actions) st) with (run actions (step a st)).
    rewrite M.
    destruct a as [text| | |o]; cbn [step messages forallb silent andb].
    + exists added. split; [reflexivity | exact Q].
    + exists added. split; [reflexivity | exact Q].
    + unfold handleSend_start. destruct (blank (input st)).
      * exists added. split; [reflexivity | discriminate].
      * cbn [messages]. rewrite <- app_assoc.
        eexists. split; [reflexivity | discriminate].
    + unfold handleSend_settled. cbn [messages]. rewrite <- app_assoc.
      eexists. split; [reflexivity | discriminate].
Qed.

(** X28.  A send that gets past the blank check asks the service with
    the conversation as it stood, appends what the user typed, as typed,
    and clears the input.  When its request settles, whatever has
    happened to the chat in between, exactly one message of the model is
    appended at the end of the conversation as it stands by then: the
    answer, or, when the service failed, the apology marked as an error.
    If nothing but typing happened in between, the answer follows the
    question directly; a second send made in between puts its question
    before the answer. *)
Theorem a_send_adds_the_question_and_one_answer (st : State)
  (between : list action) (o : settlement) :
  blank (input st) = false ->
  let question :=
    {| msg_role := User; msg_text := input st; isError := false;
       groundingUrls := None |} in
  let st1 := step Send st in
  let st3 := step (Settled o) (run between st1) in
  handleSend_request st
  = Some (map to_content (messages st), input st, useSearch st)
  /\ input st1 = EmptyString
  /\ messages st1 = (messages st ++ [question])%list
  /\ (exists added,
        messages st3
        = (messages st ++ question :: added ++ [reply_of o])%list
        /\ (forallb silent between = true -> added = []))
  /\ loading st3 = false
  /\ msg_role (reply_of o) = Model
  /\ (isError (reply_of o) = true <-> exists err, o = Rejected err)
  /\ (isError (reply_of o) = true -> msg_text (reply_of o) = apology)
  /\ (forall response,
         o = Answered response ->
         msg_text (reply_of o) = reply_text response
         /\ groundingUrls (reply_of o)
            = option_map citations (groundingChunks response)).
Proof.
  intros B. cbv zeta.
  assert (S1 : step Send st
               = {| input := EmptyString;
                    messages :=
                      (messages st
                       ++ [ {| msg_role := User; msg_text := input st;
                               isError := false; groundingUrls := None |} ])%list;
                    loading := true; useSearch := useSearch st |}).
  { cbn [step]. unfold handleSend_start. now rewrite B. }
  split; [unfold handleSend_request; now rewrite B|].
  rewrite S1. split; [reflexivity|]. split; [reflexivity|].
  split; [|split; [reflexivity|]].
  - destruct (run_grows between
                {| input := EmptyString;
                   messages :=
                     (messages st
                      ++ [ {| msg_role := User; msg_text := input st;
                              isError := false; groundingUrls := None |} ])%list;
                   loading := true; useSearch := useSearch st |})
      as (added & M & Q).
    exists added. split; [|exact Q].
    cbn [step]. unfold handleSend_settled. cbn [messages] in M |- *.
    rewrite M. rewrite <- !app_assoc. reflexivity.
  - destruct o as [response|err]; cbn [reply_of]; unfold modelMsg, errorMsg;
      cbn [msg_role isError msg_text groundingUrls].
    + split; [reflexivity|]. split.
      * split; [discriminate | intros [err H]; discriminate H].
      * split; [discriminate|].
        intros r H. inversion H; subst.
        split; [reflexivity|]. now destruct (groundingChunks r).
    + split; [reflexivity|]. split.
      * split; [eauto | reflexivity].
      * split; [reflexivity | intros r H; discriminate H].
Qed.

Lemma a_send_adds_the_question_and_one_answer_witness :
  let st :=
    {| input := "Capital of France?"; messages := []; loading := false;
       useSearch := true |} in
  let between := [Typed "And of Spain?"; Send] in
  let o := Rejected (ThrownError "503 Service Unavailable" (Foreign "sdk")) in
  exists added,
    messages (step (Settled o) (run between (step Send st)))
    = ([] ++ {| msg_role := User; msg_text := "Capital of France?";
                isError := false; groundingUrls := None |}
          :: added ++ [reply_of o])%list
    /\ (forallb silent between = true -> added = []).
Proof.
  apply (a_send_adds_the_question_and_one_answer
           {| input := "Capital of France?"; messages := []; loading := false;
              useSearch := true |}
           [Typed "And of Spain?"; Send]
           (Rejected (ThrownError "503 Service Unavailable" (Foreign "sdk")))).
  reflexivity.
Defined.

End ViewFacts.
